(** * gait: history reconstruction and diff-to-text range matching

    A shallow embedding of three pieces of the gait extension:

    - [matchDiffToCurrentFile] and [isMeaningfulLine]
      (the inline-decoration part of src/src/extension.ts);
    - [ensureDeletedChats], [processCommit] and [getGitHistory], in the two
      texts the source tree carries: the earlier one inside
      src/src/extension.ts and the later one quoted as a whole file in
      src/gait_context.md;
    - [readStashedState], [writeStashedState] and [writeChatToStashedState]
      (src/gait_context.md).

    Definitions come first, the facts about them afterwards. *)

From Stdlib Require Import ZArith String Ascii Lia Sorted.
From stdpp Require Import gmap strings list fin_maps sorting pretty.

Open Scope string_scope.
Open Scope list_scope.
Open Scope Z_scope.

(* set_solver clears hypotheses it has consumed and warns when one is gone. *)
Set Warnings "-clear-no-such-hyp".

(** ** JavaScript string helpers

    Strings are sequences of code units below 256.  [String.prototype.trim]
    removes the white space of that range: TAB, LF, VT, FF, CR, SPACE and
    NBSP. *)

Module JsString.

Definition isWhiteSpace (c : ascii) : bool :=
  let n := N_of_ascii c in
  ((9 <=? n) && (n <=? 13) || (n =? 32) || (n =? 160))%N.

(** The character class [[a-zA-Z0-9]]. *)
Definition isAlnumChar (c : ascii) : bool :=
  let n := N_of_ascii c in
  ((97 <=? n) && (n <=? 122) || (65 <=? n) && (n <=? 90)
   || (48 <=? n) && (n <=? 57))%N.

Fixpoint trimStart (s : string) : string :=
  match s with
  | EmptyString => EmptyString
  | String c r => if isWhiteSpace c then trimStart r else s
  end.

Fixpoint trimEnd (s : string) : string :=
  match s with
  | EmptyString => EmptyString
  | String c r =>
      match trimEnd r with
      | EmptyString => if isWhiteSpace c then EmptyString else String c EmptyString
      | r' => String c r'
      end
  end.

(** [s.trim()] *)
Definition trim (s : string) : string := trimEnd (trimStart s).

(** [s.split(sep)] for a one-character separator: never the empty list. *)
Fixpoint split (sep : ascii) (s : string) : list string :=
  match s with
  | EmptyString => [EmptyString]
  | String c r =>
      if Ascii.eqb c sep then EmptyString :: split sep r
      else match split sep r with
           | h :: t => String c h :: t
           | [] => [String c EmptyString]
           end
  end.

(** [parts.join(sep)] *)
Fixpoint join (sep : string) (parts : list string) : string :=
  match parts with
  | [] => EmptyString
  | [p] => p
  | p :: rest => p +:+ sep +:+ join sep rest
  end.

(** [s.startsWith(p)] *)
Definition startsWith (s p : string) : bool := String.prefix p s.

(** [/[a-zA-Z0-9]/.test(s)] *)
Fixpoint testAlnum (s : string) : bool :=
  match s with
  | EmptyString => false
  | String c r => isAlnumChar c || testAlnum r
  end.

Definition LF : ascii := ascii_of_nat 10.
Definition TAB : ascii := ascii_of_nat 9.

End JsString.

(** ** The range matcher (inline decoration) *)

Module InlineDecoration.
Import JsString.

(** [vscode.Range(startLine, startCharacter, endLine, endCharacter)] *)
Record Range := mkRange {
  startLine : Z;
  startCharacter : Z;
  endLine : Z;
  endCharacter : Z
}.

(** [Diff.Change]: a fragment and its flags ([added] absent is [false]). *)
Record Change := mkChange {
  value : string;
  added : bool;
  removed : bool
}.

Definition isMeaningfulLine (line : string) : bool :=
  testAlnum (trim line) && negb (startsWith (trim line) "import ").

(** [documentLines[j]]; every index the matcher reads comes from the scan of
    the document, hence is in range (lemma [scanLines_in_range]). *)
Definition lineAt (documentLines : list string) (j : Z) : string :=
  if j <? 0 then EmptyString else default EmptyString (documentLines !! Z.to_nat j).

(** [new vscode.Range(j, 0, j, documentLines[j].length)] *)
Definition lineRange (documentLines : list string) (j : Z) : Range :=
  mkRange j 0 j (Z.of_nat (String.length (lineAt documentLines j))).

(** The array handed to [new Set(...)]: the added fragments, split into
    lines, each trimmed, blank ones dropped. *)
Definition addedLines (diff : list Change) : list string :=
  List.filter (fun line => (0 <? String.length (trim line))%nat)
    (flat_map (fun change => map trim (split LF (value change)))
       (List.filter added diff)).

Definition addedLinesSet (diff : list Change) : gset string :=
  list_to_set (addedLines diff).

(** The scan [for (let i = 0; i < documentLines.length; i++)]: the state is
    [matchingLineNumbers] and [lineOccurrences]; [lines] are the lines from
    index [i] on. *)
Fixpoint scanLines (addedSet : gset string) (lines : list string) (i : Z)
    (st : list Z * gmap string Z) : list Z * gmap string Z :=
  match lines with
  | [] => st
  | l :: rest =>
      let trimmedLine := trim l in
      let st' :=
        if decide (trimmedLine ∈ addedSet)
        then (st.1 ++ [i],
              <[trimmedLine := default 0 (st.2 !! trimmedLine) + 1]> st.2)
        else st in
      scanLines addedSet rest (i + 1) st'
  end.

(** The counter [meaningfulLines] of the run [start..end]. *)
Definition countAlnumLines (documentLines : list string) (start end_ : Z) : nat :=
  List.length
    (List.filter (fun j => testAlnum (trim (lineAt documentLines j)))
       (seqZ start (end_ - start + 1))).

(** What a closed run [start..end] pushes onto [multiLineRanges]. *)
Definition closeRun (documentLines : list string) (lineOccurrences : gmap string Z)
    (start end_ : Z) : list Range :=
  let meaningfulLines := countAlnumLines documentLines start end_ in
  if (2 <=? meaningfulLines)%nat then
    map (lineRange documentLines) (seqZ start (end_ - start + 1))
  else if (meaningfulLines =? 1)%nat then
    let trimmedLine := trim (lineAt documentLines start) in
    if bool_decide (lineOccurrences !! trimmedLine = Some 1)
       && isMeaningfulLine trimmedLine
    then [lineRange documentLines start]
    else []
  else [].

(** The loop over [matchingLineNumbers] of the large-change path; [ms] is the
    part of the array from index [i] on, [start] the loop variable of that
    name ([-1] when no run is open). *)
Fixpoint groupRuns (documentLines : list string) (lineOccurrences : gmap string Z)
    (ms : list Z) (start : Z) (multiLineRanges : list Range) : list Range :=
  match ms with
  | [] => multiLineRanges
  | currentLine :: rest =>
      let start := if start =? -1 then currentLine else start in
      let closes :=
        match rest with
        | [] => true
        | nextLine :: _ => negb (nextLine =? currentLine + 1)
        end in
      if closes then
        groupRuns documentLines lineOccurrences rest (-1)
          (multiLineRanges ++ closeRun documentLines lineOccurrences start currentLine)
      else
        groupRuns documentLines lineOccurrences rest start multiLineRanges
  end.

Definition matchDiffToCurrentFile (documentText : string) (diff : list Change)
    : list Range :=
  let documentLines := split LF documentText in
  let addedSet := addedLinesSet diff in
  if (size addedSet =? 0)%nat then []
  else
    let '(matchingLineNumbers, lineOccurrences) :=
      scanLines addedSet documentLines 0 ([], ∅) in
    if (size addedSet <? 5)%nat then
      map (lineRange documentLines)
        (List.filter
           (fun line =>
              let trimmedLine := trim (lineAt documentLines line) in
              isMeaningfulLine (lineAt documentLines line)
              && bool_decide (lineOccurrences !! trimmedLine = Some 1))
           matchingLineNumbers)
    else
      groupRuns documentLines lineOccurrences matchingLineNumbers (-1) [].

End InlineDecoration.

(** Notions the statements about the matcher use.  [occurrences] follows the
    spec's words ("how many times that exact trimmed text occurs in the
    current file"); the code keeps the [lineOccurrences] map instead. *)

Module MatcherSpec.
Import JsString InlineDecoration.

Definition occurrences (documentLines : list string) (t : string) : Z :=
  Z.of_nat (List.length
    (List.filter (fun l => bool_decide (trim l = t)) documentLines)).

(** Line [j] of the document is a matching line. *)
Definition matchesLine (addedSet : gset string) (documentLines : list string)
    (j : Z) : bool :=
  (0 <=? j) && (j <? Z.of_nat (List.length documentLines))
  && bool_decide (trim (lineAt documentLines j) ∈ addedSet).

(** [s..e] is a maximal run of consecutive matching lines. *)
Definition maximalRun (addedSet : gset string) (documentLines : list string)
    (s e : Z) : Prop :=
  s <= e
  /\ (forall j, s <= j <= e -> matchesLine addedSet documentLines j = true)
  /\ matchesLine addedSet documentLines (s - 1) = false
  /\ matchesLine addedSet documentLines (e + 1) = false.

(** The small-change rule in the spec's words: a matching line that has an
    alphanumeric character, is no import statement and whose trimmed text
    occurs once in the file. *)
Definition smallChangeSelected (addedSet : gset string)
    (documentLines : list string) (j : Z) : bool :=
  let t := trim (lineAt documentLines j) in
  bool_decide (t ∈ addedSet)
  && testAlnum t && negb (startsWith t "import ")
  && (occurrences documentLines t =? 1).

(** The merged output shape: each accepted maximal run is one range from its
    first to its last line. *)
Definition mergedRangeShape (documentText : string) (diff : list Change) : Prop :=
  let documentLines := split LF documentText in
  forall s e,
    maximalRun (addedLinesSet diff) documentLines s e ->
    (2 <= countAlnumLines documentLines s e)%nat ->
    exists r, r ∈ matchDiffToCurrentFile documentText diff
              /\ startLine r = s /\ endLine r = e.

End MatcherSpec.

(** Concrete documents and changes used by the examples below. *)

Module MatcherExamples.
Import JsString InlineDecoration.

Definition lines (l : list string) : string := join (String LF EmptyString) l.

(** Six distinct added lines. *)
Definition sixLineChange : list Change :=
  [mkChange (lines ["alpha"; "beta"; "}"; "gamma"; "delta"; "eps"]) true false].

(** Lines 0-1 form a run with two alphanumeric lines, lines 3-5 a run whose
    only alphanumeric line is not its first. *)
Definition twoRunDocument : string :=
  lines ["  alpha"; "beta "; "zzz"; "}"; "gamma"; "}"].

(** A run of one alphanumeric line that occurs once, followed by a brace. *)
Definition oneLineRunDocument : string := lines ["gamma"; "}"; "zzz"].

Definition twoLineDocument : string := lines ["alpha"; "beta"].

(** Three distinct added lines; ["return x"] occurs twice in the file. *)
Definition threeLineChange : list Change :=
  [mkChange (lines ["let a = 1"; "return x"; "let b = 2"]) true false].

Definition returnTwiceDocument : string :=
  lines ["let a = 1"; "return x"; "foo()"; "return x"; "let b = 2"].

End MatcherExamples.

(** ** The snapshot model

    ./types is not part of the source tree; the records carry the fields the
    code reads.  A field that a historical payload may lack is an [option]
    ([None]: absent, or not an array where one is expected). *)

Module Types.

Record MessageEntry := mkMessageEntry {
  msg_id : string;
  messageText : string;
  responseText : string
}.

Record PanelChat := mkPanelChat {
  ai_editor : string;
  chat_id : string;
  customTitle : string;
  parent_id : option string;
  created_on : string;
  messages : list MessageEntry;
  kv_store : list (string * string)
}.

Record InlineChatInfo := mkInlineChatInfo {
  inline_chat_id : string;
  timestamp : string
}.

Record DeletedChats := mkDeletedChats {
  deletedMessageIDs : option (list string);
  deletedPanelChatIDs : option (list string)
}.

Record StashedState := mkStashedState {
  panelChats : list PanelChat;
  inlineChats : option (list InlineChatInfo);
  schemaVersion : string;
  deletedChats : option DeletedChats
}.

Definition withMessages (pc : PanelChat) (msgs : list MessageEntry) : PanelChat :=
  mkPanelChat (ai_editor pc) (chat_id pc) (customTitle pc) (parent_id pc)
    (created_on pc) msgs (kv_store pc).

Definition withPanelChats (s : StashedState) (pcs : list PanelChat) : StashedState :=
  mkStashedState pcs (inlineChats s) (schemaVersion s) (deletedChats s).

Definition withDeletedChats (s : StashedState) (d : DeletedChats) : StashedState :=
  mkStashedState (panelChats s) (inlineChats s) (schemaVersion s) (Some d).

(** The ids of the messages of a list of chats, in order. *)
Definition messageIds (pcs : list PanelChat) : list string :=
  flat_map (fun pc => map msg_id (messages pc)) pcs.

(** What a throwing function throws. *)
Inductive Thrown :=
  | FileNotFound
  | GitLogFailed
  | GitStatusFailed
  | NotPanelChatStructure
  | NotIterable
  | NoWorkspaceFolder
  | ErrorWritingStashedState.

Inductive result (A : Type) :=
  | Ok (a : A)
  | Throw (e : Thrown).
Arguments Ok {A} a.
Arguments Throw {A} e.

End Types.

(** ** The snapshot store (stashedState.ts, as quoted in gait_context.md) *)

Module StashedStateStore.
Import Types.

(** What [context.workspaceState] holds under ['currentPanelChats']. *)
Inductive StoredChats :=
  | NoChats
  | NotAnArray
  | NotPanelChats
  | Chats (l : list PanelChat).

(** [context.workspaceState]: the keys the code reads. *)
Record ExtensionContext := mkContext {
  ws_stashedState : option StashedState;
  ws_currentPanelChats : StoredChats
}.

(** The disk as [writeStashedStateToFile] meets it: whether a workspace
    folder is open, whether the write succeeds, and the state the file
    holds (the pretty-printed text is not modelled). *)
Record Disk := mkDisk {
  hasWorkspaceFolder : bool;
  canWrite : bool;
  stashedFile : option StashedState
}.

Definition emptyStashedState : StashedState :=
  mkStashedState [] (Some []) "1.0" (Some (mkDeletedChats (Some []) (Some []))).

Definition readStashedState (context : ExtensionContext) : StashedState :=
  match ws_stashedState context with
  | None => emptyStashedState
  | Some stashedState => stashedState
  end.

Definition writeStashedStateToFile (disk : Disk) (stashedState : StashedState)
    : Disk * result unit :=
  if negb (hasWorkspaceFolder disk) then (disk, Throw NoWorkspaceFolder)
  else if negb (canWrite disk) then (disk, Throw ErrorWritingStashedState)
  else (mkDisk (hasWorkspaceFolder disk) (canWrite disk) (Some stashedState),
        Ok tt).

(** The memento is updated first; a failing file write leaves it updated. *)
Definition writeStashedState (context : ExtensionContext) (disk : Disk)
    (stashedState : StashedState) : ExtensionContext * Disk * result unit :=
  let context' := mkContext (Some stashedState) (ws_currentPanelChats context) in
  let '(disk', r) := writeStashedStateToFile disk stashedState in
  (context', disk', r).

Definition sameChat (id : string) (chat : PanelChat) : Prop := chat_id chat = id.

#[global] Instance sameChat_dec id chat : Decision (sameChat id chat).
Proof. unfold sameChat. apply _. Defined.

Definition writeChatToStashedState (context : ExtensionContext) (disk : Disk)
    (newChat : PanelChat) : ExtensionContext * Disk * result unit :=
  let currentState := readStashedState context in
  let currentState' :=
    match list_find (sameChat (chat_id newChat)) (panelChats currentState) with
    | Some (existingChatIndex, existingChat) =>
        let newMessages :=
          List.filter
            (fun message =>
               negb (existsb
                       (fun existingMessage =>
                          bool_decide (msg_id existingMessage = msg_id message))
                       (messages existingChat)))
            (messages newChat) in
        withPanelChats currentState
          (<[existingChatIndex :=
               withMessages existingChat (messages existingChat ++ newMessages)]>
             (panelChats currentState))
    | None =>
        withPanelChats currentState (panelChats currentState ++ [newChat])
    end in
  writeStashedState context disk currentState'.

(** The chat the store holds under [id] (the first one with that id). *)
Definition storedChat (context : ExtensionContext) (id : string) : option PanelChat :=
  snd <$> list_find (sameChat id) (panelChats (readStashedState context)).

(** How many messages of [pc] carry the id [m]. *)
Definition countMessage (m : string) (pc : PanelChat) : nat :=
  List.length (List.filter (fun e => bool_decide (msg_id e = m)) (messages pc)).

End StashedStateStore.

(** ** History reconstruction: what the two texts of panelgit share

    [ensureDeletedChats] and the panel-chat loop of [processCommit] read the
    same in src/src/extension.ts and in src/gait_context.md. *)

Module PanelGit.
Import JsString Types.

Definition SCHEMA_VERSION : string := "1.0".

Record CommitData := mkCommitData {
  commitHash : string;
  date : option string;
  commitMessage : string;
  author : option string;
  commitPanelChats : list PanelChat;
  commitInlineChats : list InlineChatInfo
}.

Definition withCommitPanelChats (cd : CommitData) (pcs : list PanelChat) : CommitData :=
  mkCommitData (commitHash cd) (date cd) (commitMessage cd) (author cd) pcs
    (commitInlineChats cd).

(** One line of [git log --pretty=format:%H%x09%an%x09%ad%x09%s], as
    [const [commitHash, authorName, dateStr, ...commitMsgParts] =
    line.split('\t')] takes it apart; a missing field is [undefined]. *)
Record LogEntry := mkLogEntry {
  log_commitHash : string;
  log_authorName : option string;
  log_dateStr : option string;
  log_commitMessage : string
}.

Definition parseLogLine (line : string) : LogEntry :=
  let parts := split TAB line in
  mkLogEntry (default EmptyString (head parts))
    (parts !! 1%nat) (parts !! 2%nat)
    (join (String TAB EmptyString) (drop 3 parts)).

(** [logData.split('\n').filter(line => line.trim() !== '')] *)
Definition logLinesOf (logData : string) : list string :=
  List.filter (fun line => negb (String.eqb (trim line) EmptyString))
    (split LF logData).

Definition ensureDeletedChats (stashedState : StashedState) : StashedState :=
  let d0 :=
    match deletedChats stashedState with
    | None => mkDeletedChats (Some []) (Some [])
    | Some d => d
    end in
  let d1 :=
    match deletedPanelChatIDs d0 with
    | None => mkDeletedChats (deletedMessageIDs d0) (Some [])
    | Some _ => d0
    end in
  let d2 :=
    match deletedMessageIDs d1 with
    | None => mkDeletedChats (Some []) (deletedPanelChatIDs d1)
    | Some _ => d1
    end in
  withDeletedChats stashedState d2.

(** [new Set(stashedState.deletedChats.deletedPanelChatIDs)], read once the
    ledger has been ensured. *)
Definition deletedPanelChatIdSet (stashedState : StashedState) : gset string :=
  match deletedChats stashedState with
  | Some d => list_to_set (default [] (deletedPanelChatIDs d))
  | None => ∅
  end.

Definition deletedMessageIdSet (stashedState : StashedState) : gset string :=
  match deletedChats stashedState with
  | Some d => list_to_set (default [] (deletedMessageIDs d))
  | None => ∅
  end.

(** The loop over [panelChat.messages]: the state is [seenMessageIds] and
    the messages of [existingPanelChat]. *)
Fixpoint processMessages (currentMessageIds : gset string)
    (msgs : list MessageEntry) (st : gset string * list MessageEntry)
    : gset string * list MessageEntry :=
  match msgs with
  | [] => st
  | messageEntry :: rest =>
      let messageId := msg_id messageEntry in
      let st' :=
        if bool_decide (messageId ∈ currentMessageIds)
           && negb (bool_decide (messageId ∈ st.1))
        then ({[messageId]} ∪ st.1, st.2 ++ [messageEntry])
        else st in
      processMessages currentMessageIds rest st'
  end.

(** The empty chat that stands for [panelChat] in a commit. *)
Definition panelChatShell (panelChat : PanelChat) : PanelChat :=
  mkPanelChat (ai_editor panelChat) (chat_id panelChat) (customTitle panelChat)
    (parent_id panelChat) (created_on panelChat) [] [].

Definition hasChatId (id : string) (pc : PanelChat) : Prop := chat_id pc = id.

#[global] Instance hasChatId_dec id pc : Decision (hasChatId id pc).
Proof. unfold hasChatId. apply _. Defined.

(** One chat that is not deleted: find its chat in [commitData.panelChats]
    or push a shell, then push its new messages there. *)
Definition processPanelChat (currentMessageIds : gset string)
    (panelChat : PanelChat) (st : gset string * list PanelChat)
    : gset string * list PanelChat :=
  match list_find (hasChatId (chat_id panelChat)) st.2 with
  | Some (i, existingPanelChat) =>
      let r := processMessages currentMessageIds (messages panelChat)
                 (st.1, messages existingPanelChat) in
      (r.1, <[i := withMessages existingPanelChat r.2]> st.2)
  | None =>
      let r := processMessages currentMessageIds (messages panelChat)
                 (st.1, []) in
      (r.1, st.2 ++ [withMessages (panelChatShell panelChat) r.2])
  end.

(** The loop over [parsedContent.panelChats]: the state is [seenMessageIds]
    and [commitData.panelChats]. *)
Fixpoint processPanelChats (currentMessageIds deletedPanelChatIds : gset string)
    (chats : list PanelChat) (st : gset string * list PanelChat)
    : gset string * list PanelChat :=
  match chats with
  | [] => st
  | panelChat :: rest =>
      let st' :=
        if bool_decide (chat_id panelChat ∈ deletedPanelChatIds) then st
        else processPanelChat currentMessageIds panelChat st in
      processPanelChats currentMessageIds deletedPanelChatIds rest st'
  end.

(** The first loop of [getGitHistory]: the ids of the chats the current
    ledger leaves alive, and of their messages it leaves alive. *)
Definition collectCurrentIds (parsedCurrent : StashedState)
    : gset string * gset string :=
  let deletedPanelChatIds := deletedPanelChatIdSet parsedCurrent in
  let deletedMessageIds := deletedMessageIdSet parsedCurrent in
  foldl
    (fun (acc : gset string * gset string) panelChat =>
       if bool_decide (chat_id panelChat ∈ deletedPanelChatIds) then acc
       else
         ({[chat_id panelChat]} ∪ acc.1,
          foldl
            (fun (ids : gset string) message =>
               if bool_decide (msg_id message ∈ deletedMessageIds) then ids
               else {[msg_id message]} ∪ ids)
            acc.2 (messages panelChat)))
    (∅, ∅) (panelChats parsedCurrent).

Definition hasHash (h : string) (cd : CommitData) : Prop := commitHash cd = h.

#[global] Instance hasHash_dec h cd : Decision (hasHash h cd).
Proof. unfold hasHash. apply _. Defined.

(** [pc.messages.length > 0] *)
Definition hasMessages (pc : PanelChat) : bool :=
  (0 <? List.length (messages pc))%nat.

(** The message ids a snapshot shows in chats that its own ledger does not
    list as deleted: the ones [processCommit] visits. *)
Definition liveMessageIds (parsedContent : StashedState) : list string :=
  messageIds
    (List.filter
       (fun pc =>
          negb (bool_decide
                  (chat_id pc ∈ deletedPanelChatIdSet (ensureDeletedChats parsedContent))))
       (panelChats parsedContent)).

(** The message ids of all the commits of a list. *)
Definition attributedIds (commits : list CommitData) : list string :=
  flat_map (fun cd => messageIds (commitPanelChats cd)) commits.

End PanelGit.

(** ** [getGitHistory] as src/src/extension.ts has it

    The working copy is read from the file; the result has [commits] and
    [uncommitted].  [JSON.parse] is a host builtin and [isStashedState] lives
    in ./types, outside the source tree: both are parameters. *)

Module ExtensionTs.
Import JsString Types PanelGit.

(** [git.status()]: the path lists the code consults. *)
Record StatusResult := mkStatus {
  modified : list string;
  not_added : list string;
  created : list string
}.

(** What the function meets outside: the file system and git. *)
Record Env := mkEnv {
  existsSync : bool;
  readFileSync : option string;
  gitLog : option string;
  gitShow : string -> option string;
  gitStatus : option StatusResult
}.

Record UncommittedData := mkUncommitted {
  uncommittedPanelChats : list PanelChat
}.

Record GitHistoryData := mkGitHistoryData {
  commits : list CommitData;
  uncommitted : option UncommittedData
}.

Definition defaultStashedState : StashedState :=
  mkStashedState [] None SCHEMA_VERSION
    (Some (mkDeletedChats (Some []) (Some []))).

Definition processCommit (parsedContent : StashedState)
    (currentMessageIds currentPanelChatIds seenMessageIds : gset string)
    (commitData : CommitData) : gset string * CommitData :=
  let parsedContent := ensureDeletedChats parsedContent in
  let deletedPanelChatIds := deletedPanelChatIdSet parsedContent in
  let r := processPanelChats currentMessageIds deletedPanelChatIds
             (panelChats parsedContent)
             (seenMessageIds, commitPanelChats commitData) in
  (r.1, withCommitPanelChats commitData r.2).

(** [commitMessage.startsWith('Delete message with ID') ||
    commitMessage.startsWith('Delete PanelChat with ID')] *)
Definition isDeletionCommit (commitMessage : string) : bool :=
  startsWith commitMessage "Delete message with ID"
  || startsWith commitMessage "Delete PanelChat with ID".

Section walk.
Variable JSON_parse : string -> option StashedState.
Variable isStashedState : StashedState -> bool.
Variable env : Env.

(** The working copy, read, parsed and validated; every failure gives the
    default structure. *)
Definition parseWorkingCopy : StashedState :=
  match readFileSync env with
  | None => defaultStashedState
  | Some currentContent =>
      match JSON_parse currentContent with
      | Some parsed => if isStashedState parsed then parsed else defaultStashedState
      | None => defaultStashedState
      end
  end.

(** The snapshot the loop hands to [processCommit] for a log line, if the
    iteration gets that far. *)
Definition snapshotAt (line : string) : option StashedState :=
  let e := parseLogLine line in
  if isDeletionCommit (log_commitMessage e) then None
  else
    match gitShow env (log_commitHash e) with
    | None => None
    | Some fileContent =>
        match JSON_parse fileContent with
        | None => None
        | Some parsedContent =>
            if isStashedState parsedContent then Some parsedContent else None
        end
    end.

(** The end of an iteration, once the content is parsed: find the
    [CommitData] of the hash in [allCommitsMap] or create it, and let
    [processCommit] fill it. *)
Definition recordCommit (currentMessageIds currentPanelChatIds : gset string)
    (e : LogEntry) (parsedContent : StashedState)
    (st : gset string * list CommitData) : gset string * list CommitData :=
  match list_find (hasHash (log_commitHash e)) st.2 with
  | Some (i, commitData) =>
      let r := processCommit parsedContent currentMessageIds
                 currentPanelChatIds st.1 commitData in
      (r.1, <[i := r.2]> st.2)
  | None =>
      let commitData :=
        mkCommitData (log_commitHash e) (log_dateStr e)
          (log_commitMessage e) (log_authorName e) [] [] in
      let r := processCommit parsedContent currentMessageIds
                 currentPanelChatIds st.1 commitData in
      (r.1, st.2 ++ [r.2])
  end.

(** One iteration of [for (const line of logLines)]: the state is
    [seenMessageIds] and [allCommitsMap] (in insertion order). *)
Definition commitIteration (currentMessageIds currentPanelChatIds : gset string)
    (st : gset string * list CommitData) (line : string)
    : gset string * list CommitData :=
  let e := parseLogLine line in
  if isDeletionCommit (log_commitMessage e) then st
  else
    match gitShow env (log_commitHash e) with
    | None => st
    | Some fileContent =>
        match JSON_parse fileContent with
        | None => st
        | Some parsedContent =>
            if negb (isStashedState parsedContent) then st
            else recordCommit currentMessageIds currentPanelChatIds e
                   parsedContent st
        end
    end.

Definition walk (currentMessageIds currentPanelChatIds : gset string)
    (logLines : list string) : gset string * list CommitData :=
  foldl (commitIteration currentMessageIds currentPanelChatIds) (∅, []) logLines.

(** [parsedCurrent], its ledger ensured. *)
Definition currentSnapshot : StashedState :=
  ensureDeletedChats parseWorkingCopy.

Definition uncommittedChanges (filePath : string) (status : StatusResult)
    (currentMessageIds : gset string) : option UncommittedData :=
  if bool_decide (filePath ∈ modified status)
     || bool_decide (filePath ∈ not_added status)
     || bool_decide (filePath ∈ created status)
  then
    let parsedUncommitted := ensureDeletedChats parseWorkingCopy in
    let uncommittedDeletedPanelChatIds := deletedPanelChatIdSet parsedUncommitted in
    let uncommittedDeletedMessageIds := deletedMessageIdSet parsedUncommitted in
    let allCurrentPanelChats :=
      List.filter hasMessages
        (map
           (fun pc =>
              withMessages pc
                (List.filter
                   (fun msg =>
                      negb (bool_decide (msg_id msg ∈ uncommittedDeletedMessageIds))
                      && bool_decide (msg_id msg ∈ currentMessageIds))
                   (messages pc)))
           (List.filter
              (fun pc =>
                 negb (bool_decide (chat_id pc ∈ uncommittedDeletedPanelChatIds)))
              (panelChats parsedUncommitted))) in
    if (0 <? List.length allCurrentPanelChats)%nat
    then Some (mkUncommitted allCurrentPanelChats)
    else None
  else None.

Definition getGitHistory (filePath : string) : result GitHistoryData :=
  if negb (existsSync env) then Throw FileNotFound
  else
    let parsedCurrent := currentSnapshot in
    let '(currentPanelChatIds, currentMessageIds) := collectCurrentIds parsedCurrent in
    match gitLog env with
    | None => Throw GitLogFailed
    | Some logData =>
        let logLines := logLinesOf logData in
        let allCommitsMap := (walk currentMessageIds currentPanelChatIds logLines).2 in
        let allCommits :=
          List.filter (fun commit => existsb hasMessages (commitPanelChats commit))
            allCommitsMap in
        match gitStatus env with
        | None => Throw GitStatusFailed
        | Some status =>
            Ok (mkGitHistoryData allCommits
                  (uncommittedChanges filePath status currentMessageIds))
        end
    end.

End walk.

End ExtensionTs.

(** ** [getGitHistory] as src/gait_context.md quotes it (whole file panelgit.ts)

    The working copy comes from [readStashedState(context)]; commits also
    collect inline chats; empty chats are pruned from each commit; the result
    has [commits], [added] and [uncommitted]. *)

Module GaitContext.
Import JsString Types PanelGit StashedStateStore.

Record Env := mkEnv {
  existsSync : bool;
  gitLog : option string;
  gitShow : string -> option string
}.

Record UncommittedData := mkUncommitted {
  uncommittedPanelChats : list PanelChat;
  uncommittedInlineChats : list InlineChatInfo
}.

Record GitHistoryData := mkGitHistoryData {
  commits : list CommitData;
  added : UncommittedData;
  uncommitted : UncommittedData
}.

Definition defaultStashedState : StashedState :=
  mkStashedState [] (Some []) SCHEMA_VERSION
    (Some (mkDeletedChats (Some []) (Some []))).

Definition processCommit (parsedContent : StashedState)
    (currentMessageIds currentInlineChatIds seenMessageIds : gset string)
    (commitData : CommitData) : gset string * CommitData :=
  let parsedContent := ensureDeletedChats parsedContent in
  let deletedPanelChatIds := deletedPanelChatIdSet parsedContent in
  let inlineChats' :=
    match inlineChats parsedContent with
    | Some l =>
        commitInlineChats commitData
        ++ List.filter
             (fun inlineChat =>
                bool_decide (inline_chat_id inlineChat ∈ currentInlineChatIds))
             l
    | None => commitInlineChats commitData
    end in
  let r := processPanelChats currentMessageIds deletedPanelChatIds
             (panelChats parsedContent)
             (seenMessageIds, commitPanelChats commitData) in
  (r.1,
   mkCommitData (commitHash commitData) (date commitData)
     (commitMessage commitData) (author commitData) r.2 inlineChats').

(** One chat of the "added" pass: its messages that the current ledger and
    [seenMessageIds] let through, then all its message ids become seen. *)
Definition addedChat (deletedMessageIds : gset string)
    (st : gset string * list PanelChat) (pc : PanelChat)
    : gset string * list PanelChat :=
  let filteredMessages :=
    List.filter
      (fun msg =>
         negb (bool_decide (msg_id msg ∈ deletedMessageIds))
         && negb (bool_decide (msg_id msg ∈ st.1)))
      (messages pc) in
  (list_to_set (map msg_id (messages pc)) ∪ st.1,
   st.2 ++ [withMessages pc filteredMessages]).

Section walk.
Variable JSON_parse : string -> option StashedState.
Variable isStashedState : StashedState -> bool.
Variable context : ExtensionContext.
Variable env : Env.

(** [parsedCurrent]: the stored state if it validates, the default
    structure otherwise; then its ledger ensured. *)
Definition currentSnapshot : StashedState :=
  ensureDeletedChats
    (if isStashedState (readStashedState context)
     then readStashedState context
     else defaultStashedState).

(** The snapshot the loop hands to [processCommit] for a log line, if the
    iteration gets that far. *)
Definition snapshotAt (line : string) : option StashedState :=
  match gitShow env (log_commitHash (parseLogLine line)) with
  | None => None
  | Some fileContent =>
      match JSON_parse fileContent with
      | None => None
      | Some parsedContent =>
          if isStashedState parsedContent then Some parsedContent else None
      end
  end.

(** The end of an iteration, once the content is parsed: find the
    [CommitData] of the hash in [allCommitsMap] or create it, and let
    [processCommit] fill it. *)
Definition recordCommit (currentMessageIds currentInlineChatIds : gset string)
    (e : LogEntry) (parsedContent : StashedState)
    (st : gset string * list CommitData) : gset string * list CommitData :=
  match list_find (hasHash (log_commitHash e)) st.2 with
  | Some (i, commitData) =>
      let r := processCommit parsedContent currentMessageIds
                 currentInlineChatIds st.1 commitData in
      (r.1, <[i := r.2]> st.2)
  | None =>
      let commitData :=
        mkCommitData (log_commitHash e) (log_dateStr e)
          (log_commitMessage e) (log_authorName e) [] [] in
      let r := processCommit parsedContent currentMessageIds
                 currentInlineChatIds st.1 commitData in
      (r.1, st.2 ++ [r.2])
  end.

(** One iteration of [for (const line of logLines)]. *)
Definition commitIteration (currentMessageIds currentInlineChatIds : gset string)
    (st : gset string * list CommitData) (line : string)
    : gset string * list CommitData :=
  let e := parseLogLine line in
  match gitShow env (log_commitHash e) with
  | None => st
  | Some fileContent =>
      match JSON_parse fileContent with
      | None => st
      | Some parsedContent =>
          if negb (isStashedState parsedContent) then st
          else recordCommit currentMessageIds currentInlineChatIds e
                 parsedContent st
      end
  end.

Definition walk (currentMessageIds currentInlineChatIds : gset string)
    (logLines : list string) : gset string * list CommitData :=
  foldl (commitIteration currentMessageIds currentInlineChatIds) (∅, []) logLines.

(** The two filters after the loop: empty chats leave each commit, then
    commits without a chat that has messages leave the list. *)
Definition pruneCommits (allCommits : list CommitData) : list CommitData :=
  List.filter (fun commit => existsb hasMessages (commitPanelChats commit))
    (map
       (fun commit =>
          withCommitPanelChats commit
            (List.filter hasMessages (commitPanelChats commit)))
       allCommits).

(** The stored state is read a second time for the added chats, and not
    validated then; here it is a [StashedState] whatever it holds, so a
    stored value of another shape, on which the source would throw a
    [TypeError] at that point, is not among the cases of this definition. *)
Definition getGitHistory : result GitHistoryData :=
  if negb (existsSync env) then Throw FileNotFound
  else
    let parsedCurrent := currentSnapshot in
    let deletedPanelChatIds := deletedPanelChatIdSet parsedCurrent in
    let deletedMessageIds := deletedMessageIdSet parsedCurrent in
    let '(currentPanelChatIds, currentMessageIds) := collectCurrentIds parsedCurrent in
    match inlineChats parsedCurrent with
    | None => Throw NotIterable
    | Some currentInlineChats =>
        let currentInlineChatIds : gset string :=
          list_to_set (map inline_chat_id currentInlineChats) in
        match gitLog env with
        | None => Throw GitLogFailed
        | Some logData =>
            let logLines := logLinesOf logData in
            let w := walk currentMessageIds currentInlineChatIds logLines in
            let allCommits := pruneCommits w.2 in
            let currentAddedContent := readStashedState context in
            let a :=
              foldl (addedChat deletedMessageIds) (w.1, [])
                (List.filter
                   (fun pc => negb (bool_decide (chat_id pc ∈ deletedPanelChatIds)))
                   (panelChats currentAddedContent)) in
            let seenMessageIds := a.1 in
            let allAddedPanelChats := List.filter hasMessages a.2 in
            match
              match ws_currentPanelChats context with
              | NoChats => Ok []
              | NotAnArray => Throw NotPanelChatStructure
              | NotPanelChats => Throw NotPanelChatStructure
              | Chats l => Ok l
              end
            with
            | Throw e => Throw e
            | Ok currentUncommittedContent =>
                let allCurrentPanelChats :=
                  List.filter hasMessages
                    (map
                       (fun pc =>
                          withMessages pc
                            (List.filter
                               (fun msg =>
                                  negb (bool_decide (msg_id msg ∈ deletedMessageIds))
                                  && negb (bool_decide (msg_id msg ∈ seenMessageIds)))
                               (messages pc)))
                       (List.filter
                          (fun pc =>
                             negb (bool_decide (chat_id pc ∈ deletedPanelChatIds)))
                          currentUncommittedContent)) in
                Ok (mkGitHistoryData allCommits
                      (mkUncommitted allAddedPanelChats [])
                      (mkUncommitted allCurrentPanelChats []))
            end
        end
    end.

End walk.

End GaitContext.

(** Notions the statements about the walk use. *)

Module WalkSpec.
Import Types PanelGit.

(** The commit hash of a log line. *)
Definition hashOf (line : string) : string := log_commitHash (parseLogLine line).

(** What one recorded commit does to the state of the walk: the commit with
    hash [h] gains the ids [new]. *)
Definition Attributes (cur : gset string) (h : string) (parsed : StashedState)
    (st st' : gset string * list CommitData) (new : list string) : Prop :=
  st'.1 = st.1 ∪ list_to_set new
  /\ attributedIds st'.2 ≡ₚ attributedIds st.2 ++ new
  /\ NoDup new
  /\ (forall x, x ∈ new -> (x ∉ st.1) /\ x ∈ cur /\ x ∈ liveMessageIds parsed)
  /\ (forall x, x ∈ liveMessageIds parsed -> x ∈ cur -> x ∈ st'.1)
  /\ (forall cd, cd ∈ st.2 ->
        exists cd', cd' ∈ st'.2 /\ commitHash cd' = commitHash cd
                    /\ messageIds (commitPanelChats cd)
                       ⊆ messageIds (commitPanelChats cd'))
  /\ (exists cd', cd' ∈ st'.2 /\ commitHash cd' = h
                  /\ new ⊆ messageIds (commitPanelChats cd')).

(** The invariant of the walk: no message id is attributed twice, and every
    attributed id is active and seen. *)
Definition WalkInv (cur : gset string) (st : gset string * list CommitData) : Prop :=
  NoDup (attributedIds st.2)
  /\ forall x, x ∈ attributedIds st.2 -> x ∈ st.1 /\ x ∈ cur.

(** The ledger of a payload is missing: no [deletedChats], or one with
    neither array. *)
Definition missingLedger (parsed : StashedState) : Prop :=
  deletedChats parsed = None
  \/ deletedChats parsed = Some (mkDeletedChats None None).

(** The payload with both ledger arrays present and empty. *)
Definition withEmptyLedger (parsed : StashedState) : StashedState :=
  withDeletedChats parsed (mkDeletedChats (Some []) (Some [])).

(** The failure boundary as first stated: [getGitHistory] throws exactly when
    the tracked file is missing or the commit list cannot be retrieved. *)
Definition throwsOnlyAtEntryOrLog (JSON_parse : string -> option StashedState)
    (isStashedState : StashedState -> bool) (env : ExtensionTs.Env)
    (filePath : string) : Prop :=
  (exists e, ExtensionTs.getGitHistory JSON_parse isStashedState env filePath
             = Throw e)
  <-> (ExtensionTs.existsSync env = false \/ ExtensionTs.gitLog env = None).

End WalkSpec.

(** Concrete stores used by the examples below. *)

Module StoreExamples.
Import Types StashedStateStore.

Definition helloMessage : MessageEntry := mkMessageEntry "m1" "hello" "world".
Definition againMessage : MessageEntry := mkMessageEntry "m2" "again" "sure".

Definition helloChat : PanelChat :=
  mkPanelChat "vscode" "A" "title" None "2024-10-02" [helloMessage] [].

Definition helloAgainChat : PanelChat :=
  mkPanelChat "vscode" "A" "title" None "2024-10-02"
    [helloMessage; againMessage] [].

(** Nothing stored yet. *)
Definition freshContext : ExtensionContext := mkContext None NoChats.

Definition writableDisk : Disk := mkDisk true true None.

(** Every file write fails. *)
Definition readOnlyDisk : Disk := mkDisk true false None.

End StoreExamples.

(** Concrete histories used by the examples below. *)

Module HistoryExamples.
Import JsString Types PanelGit StashedStateStore.

Definition m1 : MessageEntry := mkMessageEntry "m1" "first question" "first answer".
Definition m2 : MessageEntry := mkMessageEntry "m2" "second question" "second answer".
Definition m3 : MessageEntry := mkMessageEntry "m3" "third question" "third answer".

Definition chat (id : string) (msgs : list MessageEntry) : PanelChat :=
  mkPanelChat "vscode" id "title" None "2024-10-02T06:29:42.255Z" msgs [].

Definition emptyLedger : DeletedChats := mkDeletedChats (Some []) (Some []).

(** The payload of commit h1: chats A and B, no [deletedChats] field. *)
Definition snapshot1 : StashedState :=
  mkStashedState [chat "A" [m1]; chat "B" [m3]] None "1.0" None.

(** The payload of commit h2: chat A has gained m2. *)
Definition snapshot2 : StashedState :=
  mkStashedState [chat "A" [m1; m2]; chat "B" [m3]] (Some []) "1.0"
    (Some emptyLedger).

(** The working copy: m3 is in the ledger. *)
Definition workingCopy : StashedState :=
  mkStashedState [chat "A" [m1; m2]; chat "B" [m3]] (Some []) "1.0"
    (Some (mkDeletedChats (Some ["m3"]) (Some []))).

Definition exampleParse (content : string) : option StashedState :=
  if String.eqb content "payload-1" then Some snapshot1
  else if String.eqb content "payload-2" then Some snapshot2
  else if String.eqb content "working-copy" then Some workingCopy
  else None.

Definition exampleValid (s : StashedState) : bool := true.

Definition exampleShow (h : string) : option string :=
  if String.eqb h "h1" then Some "payload-1"
  else if String.eqb h "h0" then Some "{ not json"
  else if String.eqb h "h2" then Some "payload-2"
  else None.

Definition tab : string := String TAB EmptyString.

Definition logLine (h author day subject : string) : string :=
  join tab [h; author; day; subject].

Definition line_h1 : string := logLine "h1" "Ada" "Mon" "first".
Definition line_h0 : string := logLine "h0" "Ada" "Mon" "broken".
Definition line_h2 : string := logLine "h2" "Bob" "Tue" "second".

(** [git log --reverse]: h1, then h0 whose payload does not parse, then h2. *)
Definition exampleLog : string :=
  join (String LF EmptyString) [line_h1; line_h0; line_h2; ""].

Definition laterEnv : GaitContext.Env :=
  GaitContext.mkEnv true (Some exampleLog) exampleShow.

Definition laterContext : ExtensionContext :=
  mkContext (Some workingCopy) NoChats.

Definition cleanStatus : ExtensionTs.StatusResult := ExtensionTs.mkStatus [] [] [].

Definition earlierEnv : ExtensionTs.Env :=
  ExtensionTs.mkEnv true (Some "working-copy") (Some exampleLog) exampleShow
    (Some cleanStatus).

(** The file is there and the log is read, but [git status] fails. *)
Definition statusFailsEnv : ExtensionTs.Env :=
  ExtensionTs.mkEnv true (Some "working-copy") (Some exampleLog) exampleShow None.

End HistoryExamples.

(** ** Pieces of [decorateActive] (inline decoration, src/src/extension.ts)

    The parts of [decorateActive] that compute: the colour of a decoration,
    the table of line decorations, the live messages, the measure that
    associates a file with a message, and the loop that lets a message claim
    the lines no earlier message has claimed.  The editor calls around them
    (creating decoration types, registering the hover provider) are not
    modelled. *)

Module Decoration.
Import JsString Types InlineDecoration.

(** [colorHueMap[colorTypes[index % colorTypes.length]]] for the four colour
    types blue, green, purple, orange; [%] is the remainder that takes the
    sign of [index], and an index outside the array gives [undefined]. *)
Definition hueOf (index : Z) : option Z :=
  [210; 110; 270; 30] !! Z.to_nat (Z.rem index 4)
  ≫= fun hue => if Z.rem index 4 <? 0 then None else Some hue.

Definition generateColors (index : Z) : string :=
  "hsla("
  +:+ match hueOf index with Some hue => pretty hue | None => "undefined" end
  +:+ ", " +:+ pretty (30 : Z) +:+ "%, " +:+ pretty (75 : Z) +:+ "%, 0.5)".

(** The sum [currentRanges.reduce((sum, range) => sum + (range.end.line -
    range.start.line + 1), 0)]. *)
Definition matchedLineCount (currentRanges : list Range) : Z :=
  foldl (fun sum range => sum + (endLine range - startLine range + 1)) 0
    currentRanges.

(** [matchedLineCount > code.split('\n').length / 2], the test that lets a
    code block associate the file with its message. *)
Definition moreThanHalfMatches (currentRanges : list Range) (code : string) : bool :=
  Z.of_nat (List.length (split LF code)) <? 2 * matchedLineCount currentRanges.

(** The ranges of a code block of a response: the block is handed to the
    matcher as one added fragment. *)
Definition codeBlockRanges (documentText code : string) : list Range :=
  matchDiffToCurrentFile documentText [mkChange code true false].

End Decoration.

(** ** Removing from the stashed state (stashedState.ts in src/gait_context.md) *)

Module StashedStateRemoval.
Import Types StashedStateStore.

(** [chat.messages.some((message) => message.id === message_id)]. *)
Definition holdsMessage (message_id : string) (chat : PanelChat) : bool :=
  existsb (fun message => bool_decide (msg_id message = message_id))
    (messages chat).

(** Nothing is written when no chat holds the message; otherwise the first
    chat that holds it loses its messages with that id and the state is
    written. *)
Definition removeMessageFromStashedState (context : ExtensionContext)
    (disk : Disk) (message_id : string) : ExtensionContext * Disk * result unit :=
  let currentState := readStashedState context in
  match list_find (fun chat => holdsMessage message_id chat = true)
          (panelChats currentState) with
  | None => (context, disk, Ok tt)
  | Some (chatIndex, chat) =>
      writeStashedState context disk
        (withPanelChats currentState
           (<[chatIndex :=
                withMessages chat
                  (List.filter
                     (fun message => negb (bool_decide (msg_id message = message_id)))
                     (messages chat))]>
              (panelChats currentState)))
  end.

Definition removePanelChatFromStashedState (context : ExtensionContext)
    (disk : Disk) (panel_chat_id : string) : ExtensionContext * Disk * result unit :=
  let currentState := readStashedState context in
  writeStashedState context disk
    (withPanelChats currentState
       (List.filter (fun chat => negb (bool_decide (chat_id chat = panel_chat_id)))
          (panelChats currentState))).

(** The messages of the store, chat after chat. *)
Definition storedMessages (context : ExtensionContext) : list MessageEntry :=
  flat_map messages (panelChats (readStashedState context)).

(** The three functions that change the store. *)
Inductive StoreCall :=
  | WriteChat (newChat : PanelChat)
  | RemoveMessage (message_id : string)
  | RemovePanelChat (panel_chat_id : string).

Definition runStoreCall (context : ExtensionContext) (disk : Disk)
    (call : StoreCall) : ExtensionContext * Disk * result unit :=
  match call with
  | WriteChat newChat => writeChatToStashedState context disk newChat
  | RemoveMessage message_id => removeMessageFromStashedState context disk message_id
  | RemovePanelChat panel_chat_id =>
      removePanelChatFromStashedState context disk panel_chat_id
  end.

(** The state a call hands to [writeStashedState]: what it leaves in the
    file where there is a workspace folder and the write succeeds; [None]
    when the call writes nothing. *)
Definition stateWritten (context : ExtensionContext) (call : StoreCall)
    : option StashedState :=
  stashedFile (runStoreCall context (mkDisk true true None) call).1.2.

End StashedStateRemoval.

Module RemovalExamples.
Import Types StashedStateStore StashedStateRemoval StoreExamples.

Definition otherChat : PanelChat :=
  mkPanelChat "cursor" "B" "other" None "2024-10-03" [againMessage] [].

(** Two chats that both hold the message [m1]. *)
Definition sharedMessageContext : ExtensionContext :=
  mkContext
    (Some (withPanelChats emptyStashedState [helloChat; helloAgainChat]))
    NoChats.

Definition twoChatContext : ExtensionContext :=
  mkContext (Some (withPanelChats emptyStashedState [helloChat; otherChat]))
    NoChats.

End RemovalExamples.

(** ** The indexes over the history (panelgit.ts in src/gait_context.md)

    [getIdToCommitInfo] and [getInlineChatIdToCommitInfo] run
    [getGitHistory] and fill a [Map] from ids to commits; [set] overwrites,
    so the last commit that holds an id is the one the map keeps. *)

Module CommitIndex.
Import Types PanelGit StashedStateStore.

Definition indexMessages (commits : list CommitData) : gmap string CommitData :=
  foldl
    (fun (idToCommitInfo : gmap string CommitData) commit =>
       foldl
         (fun (idToCommitInfo : gmap string CommitData) panelChat =>
            foldl
              (fun (idToCommitInfo : gmap string CommitData) message =>
                 <[msg_id message := commit]> idToCommitInfo)
              idToCommitInfo (messages panelChat))
         idToCommitInfo (commitPanelChats commit))
    ∅ commits.

Definition indexInlineChats (commits : list CommitData) : gmap string CommitData :=
  foldl
    (fun (idToCommitInfo : gmap string CommitData) commit =>
       foldl
         (fun (idToCommitInfo : gmap string CommitData) inlineChat =>
            <[inline_chat_id inlineChat := commit]> idToCommitInfo)
         idToCommitInfo (commitInlineChats commit))
    ∅ commits.

(** The commits of a list that hold a message id, and those that hold an
    inline chat id. *)
Definition holdersOf (m : string) (commits : list CommitData) : list CommitData :=
  List.filter
    (fun cd => bool_decide (m ∈ messageIds (commitPanelChats cd))) commits.

Definition inlineHoldersOf (id : string) (commits : list CommitData)
    : list CommitData :=
  List.filter
    (fun cd => bool_decide (id ∈ map inline_chat_id (commitInlineChats cd)))
    commits.

Section index.
Variable JSON_parse : string -> option StashedState.
Variable isStashedState : StashedState -> bool.
Variable context : ExtensionContext.
Variable env : GaitContext.Env.

Definition getIdToCommitInfo : result (gmap string CommitData) :=
  match GaitContext.getGitHistory JSON_parse isStashedState context env with
  | Throw e => Throw e
  | Ok gitHistory => Ok (indexMessages (GaitContext.commits gitHistory))
  end.

Definition getInlineChatIdToCommitInfo : result (gmap string CommitData) :=
  match GaitContext.getGitHistory JSON_parse isStashedState context env with
  | Throw e => Throw e
  | Ok gitHistory => Ok (indexInlineChats (GaitContext.commits gitHistory))
  end.

End index.

End CommitIndex.

(** ** Where a commit of the history comes from *)

Module CommitRecordSpec.
Import Types PanelGit WalkSpec.

(** A commit carries the hash, date, subject and author of a log line. *)
Definition recordedFrom (line : string) (cd : CommitData) : Prop :=
  commitHash cd = hashOf line
  /\ date cd = log_dateStr (parseLogLine line)
  /\ commitMessage cd = log_commitMessage (parseLogLine line)
  /\ author cd = log_authorName (parseLogLine line).

(** The commit was recorded from a line of [lines] that the loop did not
    skip. *)
Definition fromLines (snap : string -> option StashedState) (lines : list string)
    (cd : CommitData) : Prop :=
  exists line, line ∈ lines /\ snap line <> None /\ recordedFrom line cd.

End CommitRecordSpec.

(** ** The lines git prints for the walk

    The walk asks for [--pretty=format:%H%x09%an%x09%ad%x09%s]: hash, author
    name, author date and subject, separated by tabs. *)

Module LogFormat.
Import JsString.

(** [s] has the character [c]. *)
Fixpoint hasChar (c : ascii) (s : string) : bool :=
  match s with
  | EmptyString => false
  | String c' r => Ascii.eqb c' c || hasChar c r
  end.

Definition formatLogLine (H an ad s : string) : string :=
  H +:+ String TAB (an +:+ String TAB (ad +:+ String TAB s)).

End LogFormat.

(** ** The decoration table and the panel ranges of [decorateActive]
    (src/src/extension.ts) *)

Module PanelDecoration.
Import JsString Types InlineDecoration StashedStateStore.

Inductive DecorationKind := inline | panel.

(** An entry of [lineDecorations].  The decoration type is made from the
    colour alone, and the options hold the one range of the line; a
    timestamp is a number or [NaN] ([None]). *)
Record LineDecoration := mkLineDecoration {
  ld_timestamp : option Z;
  ld_type : DecorationKind;
  ld_color : string;
  ld_range : Range
}.

(** An entry of [rangesToPanel]. *)
Record PanelMatchedRange := mkPanelMatchedRange {
  pm_range : Range;
  pm_panelChat : PanelChat;
  pm_message_id : string
}.

(** [a < b] on numbers: false as soon as one of them is [NaN]. *)
Definition numberLt (a b : option Z) : bool :=
  match a, b with
  | Some x, Some y => x <? y
  | _, _ => false
  end.

(** A call of [addDecorationType]. *)
Record DecorationCall := mkDecorationCall {
  call_color : string;
  call_line : Z;
  call_timestamp : option Z;
  call_type : DecorationKind
}.

Section decorate.
Variable documentLines : list string.
Variable decorations_active : bool.
(** [new Date(s).getTime()] *)
Variable dateTime : string -> option Z.

Definition decorationOf (c : DecorationCall) : LineDecoration :=
  mkLineDecoration (call_timestamp c) (call_type c) (call_color c)
    (lineRange documentLines (call_line c)).

Definition addDecorationType (color : string) (line : Z) (timestamp : option Z)
    (type : DecorationKind) (lineDecorations : gmap Z LineDecoration)
    : gmap Z LineDecoration :=
  if negb decorations_active then lineDecorations
  else
    let new :=
      mkLineDecoration timestamp type color (lineRange documentLines line) in
    match lineDecorations !! line with
    | None => <[line := new]> lineDecorations
    | Some existingDecoration =>
        if numberLt timestamp (ld_timestamp existingDecoration)
        then <[line := new]> lineDecorations
        else lineDecorations
    end.

(** The calls of [addDecorationType] of a run, in order. *)
Definition applyCalls (calls : list DecorationCall)
    (lineDecorations : gmap Z LineDecoration) : gmap Z LineDecoration :=
  foldl
    (fun m c =>
       addDecorationType (call_color c) (call_line c) (call_timestamp c)
         (call_type c) m)
    lineDecorations calls.

Definition lineInRangesToPanel (rangesToPanel : list PanelMatchedRange)
    (line : Z) : bool :=
  existsb
    (fun range =>
       (startLine (pm_range range) <=? line) && (line <=? endLine (pm_range range)))
    rangesToPanel.

(** The state the panel loop changes: [rangesToPanel] and
    [lineDecorations]. *)
Definition PanelState : Type :=
  list PanelMatchedRange * gmap Z LineDecoration.

Section message.
Variable color : string.
Variable panelChat : PanelChat.
Variable message : MessageEntry.

Definition addRange (range : Range) (st : PanelState) : PanelState :=
  (st.1 ++ [mkPanelMatchedRange range panelChat (msg_id message)],
   addDecorationType color (startLine range)
     (dateTime (created_on panelChat)) panel st.2).

Definition segment (currentStart currentEnd : Z) : Range :=
  mkRange currentStart 0 currentEnd
    (Z.of_nat (String.length (lineAt documentLines currentEnd))).

(** One turn of [for (let i = range.start.line; i <= range.end.line; i++)]:
    the state is [currentStart], [currentEnd] and the panel state. *)
Definition splitStep (s : Z * Z * PanelState) (i : Z) : Z * Z * PanelState :=
  let '(currentStart, currentEnd, st) := s in
  if lineInRangesToPanel st.1 i then
    (i + 1, i + 1,
     if negb (currentStart =? currentEnd)
     then addRange (segment currentStart currentEnd) st
     else st)
  else (currentStart, i, st).

(** The body of [currentRanges.forEach]. *)
Definition claimRange (st : PanelState) (range : Range) : PanelState :=
  let '(currentStart, currentEnd, st') :=
    foldl splitStep (startLine range, startLine range, st)
      (seqZ (startLine range) (endLine range - startLine range + 1)) in
  if currentStart <=? endLine range
  then addRange (segment currentStart currentEnd) st'
  else st'.

Definition claimRanges (st : PanelState) (currentRanges : list Range) : PanelState :=
  foldl claimRange st currentRanges.

(** The entry [addRange] pushes for the range of line [j], and the call of
    [addDecorationType] it makes. *)
Definition panelEntry (j : Z) : PanelMatchedRange :=
  mkPanelMatchedRange (lineRange documentLines j) panelChat (msg_id message).

Definition panelCall (j : Z) : DecorationCall :=
  mkDecorationCall color j (dateTime (created_on panelChat)) panel.

End message.
End decorate.

(** [currentMessages]: the messages of the chats that are not deleted, first
    the stashed ones and then those of ['currentPanelChats'], without the
    deleted messages, each id once.  [stored] is the array that
    [context.workspaceState.get<PanelChat[]>('currentPanelChats') || []]
    gives; [None] stands for the [TypeError] of reading a ledger array that
    is not there. *)
Definition pushMessage (deletedMessageIDs : option (list string))
    (panelChat : PanelChat) (acc : option (list (MessageEntry * PanelChat)))
    (message : MessageEntry) : option (list (MessageEntry * PanelChat)) :=
  acc ≫= fun acc =>
  deletedMessageIDs ≫= fun deleted =>
  if bool_decide (msg_id message ∈ deleted) then Some acc
  else
    match list_find (fun item => msg_id item.1 = msg_id message) acc with
    | Some _ => Some acc
    | None => Some (acc ++ [(message, panelChat)])
    end.

Definition allPanelChats (stashedState : StashedState) (stored : list PanelChat)
    : list PanelChat :=
  panelChats stashedState ++ stored.

Definition currentPanelChats (stashedState : StashedState)
    (stored : list PanelChat) : option (list PanelChat) :=
  match allPanelChats stashedState stored with
  | [] => Some []
  | all =>
      deletedChats stashedState ≫= fun d =>
      deletedPanelChatIDs d ≫= fun deleted =>
      Some (List.filter (fun chat => negb (bool_decide (chat_id chat ∈ deleted)))
              all)
  end.

Definition currentMessages (stashedState : StashedState)
    (stored : list PanelChat) : option (list (MessageEntry * PanelChat)) :=
  currentPanelChats stashedState stored ≫= fun chats =>
  foldl
    (fun acc panelChat =>
       foldl
         (pushMessage (deletedChats stashedState ≫= deletedMessageIDs) panelChat)
         acc (messages panelChat))
    (Some []) chats.

End PanelDecoration.

(** ** [getGitHistoryThatTouchesFile] as src/src/extension.ts has it

    The walk of [getGitHistory] with one more test per commit: the files
    [git diff-tree --no-commit-id --name-only -r] lists for the commit must
    include the target file.  Reading the working copy, the log, the filter
    on empty commits and the uncommitted part are those of [getGitHistory],
    but for the message thrown when the log cannot be retrieved. *)

Module TouchesFile.
Import JsString Types PanelGit ExtensionTs.

(** What the function meets besides [Env]: whether the target file exists,
    and [git diff-tree] for a commit hash. *)
Record TargetEnv := mkTargetEnv {
  targetExistsSync : bool;
  diffTree : string -> option string
}.

(** What the function throws.  [HistoryThrown e] stands for an error thrown
    with the message [getGitHistory] has for [e] ('File not found: ..',
    'Failed to retrieve git status: ..'); the failure of [git log] has a
    message of its own here, 'Failed to retrieve git log for <filePath>: ..'
    ([TargetLogFailed]), where [getGitHistory] has 'Failed to retrieve git
    log: ..' ([GitLogFailed]). *)
Inductive TouchesThrown :=
  | HistoryThrown (e : Thrown)
  | TargetFileNotFound
  | TargetLogFailed
  | LedgerTypeError.

Inductive TouchesResult :=
  | Returned (data : GitHistoryData)
  | Thrown (e : TouchesThrown).

Section walk.
Variable JSON_parse : string -> option StashedState.
Variable isStashedState : StashedState -> bool.
Variable env : Env.
Variable tenv : TargetEnv.
Variable targetFilePath : string.

(** [files.includes(targetFilePath)] for the files of a commit; [None] when
    [git diff-tree] fails. *)
Definition modifiesTargetFile (commitHash : string) : option bool :=
  match diffTree tenv commitHash with
  | None => None
  | Some filesChanged =>
      Some (bool_decide (targetFilePath ∈ map trim (split LF filesChanged)))
  end.

Definition commitIteration (currentMessageIds currentPanelChatIds : gset string)
    (st : gset string * list CommitData) (line : string)
    : gset string * list CommitData :=
  let e := parseLogLine line in
  if isDeletionCommit (log_commitMessage e) then st
  else
    match modifiesTargetFile (log_commitHash e) with
    | None => st
    | Some false => st
    | Some true =>
        match gitShow env (log_commitHash e) with
        | None => st
        | Some fileContent =>
            match JSON_parse fileContent with
            | None => st
            | Some parsedContent =>
                if negb (isStashedState parsedContent) then st
                else recordCommit currentMessageIds currentPanelChatIds e
                       parsedContent st
            end
        end
    end.

Definition walk (currentMessageIds currentPanelChatIds : gset string)
    (logLines : list string) : gset string * list CommitData :=
  foldl (commitIteration currentMessageIds currentPanelChatIds) (∅, []) logLines.

Definition getGitHistoryThatTouchesFile (filePath : string) : TouchesResult :=
  if negb (existsSync env) then Thrown (HistoryThrown FileNotFound)
  else if negb (targetExistsSync tenv) then Thrown TargetFileNotFound
  else
    let parsedCurrent := currentSnapshot JSON_parse isStashedState env in
    let '(currentPanelChatIds, currentMessageIds) := collectCurrentIds parsedCurrent in
    match gitLog env with
    | None => Thrown TargetLogFailed
    | Some logData =>
        let logLines := logLinesOf logData in
        let allCommitsMap := (walk currentMessageIds currentPanelChatIds logLines).2 in
        let allCommits :=
          List.filter (fun commit => existsb hasMessages (commitPanelChats commit))
            allCommitsMap in
        match gitStatus env with
        | None => Thrown (HistoryThrown GitStatusFailed)
        | Some status =>
            Returned
              (mkGitHistoryData allCommits
                 (uncommittedChanges JSON_parse isStashedState env filePath status
                    currentMessageIds))
        end
    end.

(** The log line is the line of a commit that lists the target file. *)
Definition touchesTarget (line : string) : bool :=
  match modifiesTargetFile (log_commitHash (parseLogLine line)) with
  | Some true => true
  | _ => false
  end.

End walk.

(** What [getGitHistory] returns, as a result of this function. *)
Definition ofHistory (r : result GitHistoryData) : TouchesResult :=
  match r with
  | Ok data => Returned data
  | Throw e => Thrown (HistoryThrown e)
  end.

End TouchesFile.

Module TouchesExamples.
Import JsString Types PanelGit HistoryExamples.

(** Every commit lists the target file. *)
Definition everyCommitTouches : TouchesFile.TargetEnv :=
  TouchesFile.mkTargetEnv true (fun _ => Some " src/app.ts
.gait/stashedPanelChats.json
").

(** Both files are there, but [git log] fails. *)
Definition logFailsEnv : ExtensionTs.Env :=
  ExtensionTs.mkEnv true (Some "working-copy") None exampleShow
    (Some cleanStatus).

(** Only commit h2 lists the target file; [git diff-tree] fails for h0. *)
Definition onlySecondTouches : TouchesFile.TargetEnv :=
  TouchesFile.mkTargetEnv true
    (fun h =>
       if String.eqb h "h1" then Some ".gait/stashedPanelChats.json"
       else if String.eqb h "h2" then Some "src/app.ts
.gait/stashedPanelChats.json"
       else None).

End TouchesExamples.

Module DecorationExamples.
Import Types InlineDecoration PanelDecoration StoreExamples.

(** Three calls for line 0: the second has the least timestamp, the third
    the same as the second. *)
Definition threeCalls : list DecorationCall :=
  [mkDecorationCall "blue" 0 (Some 30) inline;
   mkDecorationCall "green" 0 (Some 10) panel;
   mkDecorationCall "purple" 0 (Some 10) panel].

(** A stashed state with the chat of [helloAgainChat] and the message [m2]
    in the ledger. *)
Definition ledgerState : StashedState :=
  mkStashedState [helloAgainChat] (Some []) "1.0"
    (Some (mkDeletedChats (Some ["m2"]) (Some []))).

(** A document with CRLF line breaks: its text as [getText()] gives it, and
    its lines as [lineAt(n).text] gives them, without the line break. *)
Definition crlfText : string :=
  String.append "alpha"
    (String (ascii_of_nat 13) (String JsString.LF "beta")).

Definition crlfLines : list string := ["alpha"; "beta"].

End DecorationExamples.

(** ** The files of the workspace: [createGaitFolderIfNotExists]
    (src/src/extension.ts) and [removeGait]

    The workspace folder as the two functions meet it: whether the gait
    folder exists, and the text of [.gitattributes] and of [.gitignore] when
    they exist.  File operations that fail are not modelled. *)

Module GaitFiles.
Import JsString.

Record Workspace := mkWorkspace {
  gaitFolder : bool;
  gitAttributes : option string;
  gitignore : option string
}.

(** [s.includes(p)] *)
Fixpoint includes (s p : string) : bool :=
  String.prefix p s
  || match s with
     | EmptyString => false
     | String _ r => includes r p
     end.

Definition CR : ascii := ascii_of_nat 13.

(** The line terminators of a string of one-byte characters: [.] matches
    neither, and [^] and [$] match next to them under the flag [m]. *)
Definition isLineTerminator (c : ascii) : bool :=
  Ascii.eqb c LF || Ascii.eqb c CR.

(** [content.replace(/^.*gait.*$\n?/gm, '')]: every line that has [gait]
    goes, with the line feed that ends it; a carriage return that ends it
    stays.  [line] is the part of the current line read so far. *)
Fixpoint removeGaitLines (content line : string) : string :=
  match content with
  | EmptyString => if includes line "gait" then EmptyString else line
  | String c r =>
      if isLineTerminator c then
        if includes line "gait" then
          if Ascii.eqb c LF then removeGaitLines r EmptyString
          else String c (removeGaitLines r EmptyString)
        else line +:+ String c (removeGaitLines r EmptyString)
      else removeGaitLines r (line +:+ String c EmptyString)
  end.

(** What [removeGait] does to one of the two files. *)
Definition withoutGait (file : option string) : option string :=
  match file with
  | None => None
  | Some content =>
      let content := removeGaitLines content EmptyString in
      if negb (testAlnum content) then None else Some (trim content)
  end.

Definition removeGait (w : Workspace) : Workspace :=
  mkWorkspace false (withoutGait (gitAttributes w)) (withoutGait (gitignore w)).

Section setup.
(** [GAIT_FOLDER_NAME], from [./constants]. *)
Variable GAIT_FOLDER_NAME : string.

Definition diffLine : string := GAIT_FOLDER_NAME +:+ "/ -diff".

Definition createGaitFolderIfNotExists (w : Workspace) : Workspace :=
  let gitAttributesContent := default EmptyString (gitAttributes w) in
  if negb (includes gitAttributesContent diffLine) then
    mkWorkspace true
      (Some (gitAttributesContent
             +:+ String LF (diffLine +:+ String LF EmptyString)))
      (gitignore w)
  else mkWorkspace true (gitAttributes w) (gitignore w).

End setup.

End GaitFiles.

(** ** [extractCodeBlocks] (inline decoration, src/src/extension.ts)

    The loop of [codeBlockRegex.exec] over
    [/```(?:\w+)?\s*([\s\S]*?)```/g], as a scan of the text.  After an
    opening fence the regular expression takes the word characters, then the
    white space, then the shortest text up to the next fence; word
    characters and white space hold no backquote, so giving some of them
    back never finds a fence that the greedy choice misses, and the scan
    needs no backtracking. *)

Module CodeBlocks.
Import JsString.

Definition BACKQUOTE : ascii := ascii_of_nat 96.

(** [\w] *)
Definition isWordChar (c : ascii) : bool :=
  isAlnumChar c || Ascii.eqb c (ascii_of_nat 95).

Definition isFence (c1 c2 c3 : ascii) : bool :=
  Ascii.eqb c1 BACKQUOTE && Ascii.eqb c2 BACKQUOTE && Ascii.eqb c3 BACKQUOTE.

(** Where the scan is: looking for an opening fence, in the word after it,
    in the white space after that, or in the captured text. *)
Inductive Mode :=
  | Seek
  | Word
  | Space
  | Capture (captured : string).

Fixpoint scan (mode : Mode) (text : string) {struct text} : list string :=
  match text with
  | EmptyString => []
  | String c t =>
      let capture captured :=
        match t with
        | String c2 (String c3 r) =>
            if isFence c c2 c3 then trim captured :: scan Seek r
            else scan (Capture (captured +:+ String c EmptyString)) t
        | _ => []
        end in
      match mode with
      | Seek =>
          match t with
          | String c2 (String c3 r) =>
              if isFence c c2 c3 then scan Word r else scan Seek t
          | _ => []
          end
      | Word =>
          if isWordChar c then scan Word t
          else if isWhiteSpace c then scan Space t
          else capture EmptyString
      | Space =>
          if isWhiteSpace c then scan Space t else capture EmptyString
      | Capture captured => capture captured
      end
  end.

Definition extractCodeBlocks (text : string) : list string := scan Seek text.

Definition FENCE : string := "```".

(** Every character of the string is a word character. *)
Fixpoint allWordChars (s : string) : bool :=
  match s with
  | EmptyString => true
  | String c r => isWordChar c && allWordChars r
  end.

Definition startsWithWordChar (s : string) : bool :=
  match s with
  | EmptyString => false
  | String c _ => isWordChar c
  end.

End CodeBlocks.

(** ** [getGitHistoryThatTouchesFile] as src/gait_context.md has it

    The later text reads the current state from the memento and does not
    ensure its ledger: [parsedCurrent.deletedChats.deletedPanelChatIDs] is a
    [TypeError] when [deletedChats] is not there ([LedgerTypeError]).  It
    hands [currentPanelChatIds] to [processCommit] where that function
    expects the ids of the current inline chats, and it looks at the target
    file, not at the tracked file, in [git status]. *)

Module TouchesFileLater.
Import JsString Types PanelGit StashedStateStore.

Record Env := mkEnv {
  history : GaitContext.Env;
  target : TouchesFile.TargetEnv;
  gitStatus : option ExtensionTs.StatusResult
}.

Inductive Outcome :=
  | Returned (data : GaitContext.GitHistoryData)
  | Thrown (e : TouchesFile.TouchesThrown).

Section walk.
Variable JSON_parse : string -> option StashedState.
Variable isStashedState : StashedState -> bool.
Variable context : ExtensionContext.
Variable env : Env.
Variable targetFilePath : string.

(** [parsedCurrent]: the stored state if it validates, the default
    structure otherwise. *)
Definition parsedCurrent : StashedState :=
  if isStashedState (readStashedState context)
  then readStashedState context
  else GaitContext.defaultStashedState.

Definition commitIteration (currentMessageIds currentPanelChatIds : gset string)
    (st : gset string * list CommitData) (line : string)
    : gset string * list CommitData :=
  let e := parseLogLine line in
  if ExtensionTs.isDeletionCommit (log_commitMessage e) then st
  else
    match TouchesFile.modifiesTargetFile (target env) targetFilePath
            (log_commitHash e) with
    | None => st
    | Some false => st
    | Some true =>
        match GaitContext.gitShow (history env) (log_commitHash e) with
        | None => st
        | Some fileContent =>
            match JSON_parse fileContent with
            | None => st
            | Some parsedContent =>
                if negb (isStashedState parsedContent) then st
                else GaitContext.recordCommit currentMessageIds
                       currentPanelChatIds e parsedContent st
            end
        end
    end.

Definition walk (currentMessageIds currentPanelChatIds : gset string)
    (logLines : list string) : gset string * list CommitData :=
  foldl (commitIteration currentMessageIds currentPanelChatIds) (∅, []) logLines.

(** The log line is one the loop goes on with: no deletion commit, and a
    commit that lists the target file. *)
Definition keptLine (line : string) : bool :=
  negb (ExtensionTs.isDeletionCommit (log_commitMessage (parseLogLine line)))
  && TouchesFile.touchesTarget (target env) targetFilePath line.

Definition targetModified (status : ExtensionTs.StatusResult) : bool :=
  bool_decide (targetFilePath ∈ ExtensionTs.modified status)
  || bool_decide (targetFilePath ∈ ExtensionTs.not_added status)
  || bool_decide (targetFilePath ∈ ExtensionTs.created status).

Definition getGitHistoryThatTouchesFile : Outcome :=
  if negb (GaitContext.existsSync (history env))
  then Thrown (TouchesFile.HistoryThrown FileNotFound)
  else if negb (TouchesFile.targetExistsSync (target env))
  then Thrown TouchesFile.TargetFileNotFound
  else
    match deletedChats parsedCurrent with
    | None => Thrown TouchesFile.LedgerTypeError
    | Some _ =>
        let deletedPanelChatIds := deletedPanelChatIdSet parsedCurrent in
        let deletedMessageIds := deletedMessageIdSet parsedCurrent in
        let '(currentPanelChatIds, currentMessageIds) :=
          collectCurrentIds parsedCurrent in
        match GaitContext.gitLog (history env) with
        | None => Thrown TouchesFile.TargetLogFailed
        | Some logData =>
            let logLines := logLinesOf logData in
            let w := walk currentMessageIds currentPanelChatIds logLines in
            let allCommits := GaitContext.pruneCommits w.2 in
            match gitStatus env with
            | None => Thrown (TouchesFile.HistoryThrown GitStatusFailed)
            | Some status =>
                if targetModified status then
                  let currentAddedContent := readStashedState context in
                  let a :=
                    foldl (GaitContext.addedChat deletedMessageIds) (w.1, [])
                      (List.filter
                         (fun pc =>
                            negb (bool_decide (chat_id pc ∈ deletedPanelChatIds)))
                         (panelChats currentAddedContent)) in
                  let seenMessageIds := a.1 in
                  let allAddedPanelChats := List.filter hasMessages a.2 in
                  match
                    match ws_currentPanelChats context with
                    | NoChats => Ok []
                    | NotAnArray => Throw NotPanelChatStructure
                    | NotPanelChats => Throw NotPanelChatStructure
                    | Chats l => Ok l
                    end
                  with
                  | Throw e => Thrown (TouchesFile.HistoryThrown e)
                  | Ok currentUncommittedContent =>
                      let allCurrentPanelChats :=
                        List.filter hasMessages
                          (map
                             (fun pc =>
                                withMessages pc
                                  (List.filter
                                     (fun msg =>
                                        negb (bool_decide
                                                (msg_id msg ∈ deletedMessageIds))
                                        && negb (bool_decide
                                                   (msg_id msg ∈ seenMessageIds)))
                                     (messages pc)))
                             (List.filter
                                (fun pc =>
                                   negb (bool_decide
                                           (chat_id pc ∈ deletedPanelChatIds)))
                                currentUncommittedContent)) in
                      Returned
                        (GaitContext.mkGitHistoryData allCommits
                           (GaitContext.mkUncommitted allAddedPanelChats [])
                           (GaitContext.mkUncommitted allCurrentPanelChats []))
                  end
                else
                  Returned
                    (GaitContext.mkGitHistoryData allCommits
                       (GaitContext.mkUncommitted [] [])
                       (GaitContext.mkUncommitted [] []))
            end
        end
    end.

End walk.

End TouchesFileLater.

Module LaterTouchesExamples.
Import Types PanelGit StashedStateStore HistoryExamples TouchesExamples.

(** [git status] lists the target file as modified. *)
Definition targetModifiedStatus : ExtensionTs.StatusResult :=
  ExtensionTs.mkStatus ["src/app.ts"] [] [].

Definition laterTouchesEnv : TouchesFileLater.Env :=
  TouchesFileLater.mkEnv laterEnv onlySecondTouches (Some targetModifiedStatus).

(** The stored state of [laterContext], and a chat not yet stashed. *)
Definition unstashedContext : ExtensionContext :=
  mkContext (Some workingCopy)
    (Chats [chat "C" [mkMessageEntry "m4" "fourth question" "fourth answer"]]).

End LaterTouchesExamples.

(** A history whose commits hold inline chats. *)

Module InlineIndexExamples.
Import JsString Types PanelGit StashedStateStore HistoryExamples.

Definition edit1 : InlineChatInfo := mkInlineChatInfo "i1" "2024-10-02T07:00:00.000Z".
Definition edit2 : InlineChatInfo := mkInlineChatInfo "i2" "2024-10-02T07:05:00.000Z".

(** The payload of commit h1: message m1, inline chats i1 and i2. *)
Definition inlineSnapshot1 : StashedState :=
  mkStashedState [chat "A" [m1]] (Some [edit1; edit2]) "1.0" (Some emptyLedger).

(** The payload of commit h2: message m2 is new, inline chat i1 is still
    there. *)
Definition inlineSnapshot2 : StashedState :=
  mkStashedState [chat "A" [m1; m2]] (Some [edit1]) "1.0" (Some emptyLedger).

(** The payload of commit h3: no new message, inline chat i1 still there. *)
Definition inlineSnapshot3 : StashedState :=
  mkStashedState [chat "A" [m1; m2]] (Some [edit1]) "1.0" (Some emptyLedger).

(** The stored state: inline chat i2 is gone from it. *)
Definition inlineCurrent : StashedState :=
  mkStashedState [chat "A" [m1; m2]] (Some [edit1]) "1.0" (Some emptyLedger).

Definition inlineParse (content : string) : option StashedState :=
  if String.eqb content "inline-1" then Some inlineSnapshot1
  else if String.eqb content "inline-2" then Some inlineSnapshot2
  else if String.eqb content "inline-3" then Some inlineSnapshot3
  else None.

Definition inlineShow (h : string) : option string :=
  if String.eqb h "h1" then Some "inline-1"
  else if String.eqb h "h2" then Some "inline-2"
  else if String.eqb h "h3" then Some "inline-3"
  else None.

Definition line_h3 : string := logLine "h3" "Bob" "Wed" "third".

Definition inlineLog : string :=
  join (String LF EmptyString) [line_h1; line_h2; line_h3].

Definition inlineEnv : GaitContext.Env :=
  GaitContext.mkEnv true (Some inlineLog) inlineShow.

Definition inlineContext : ExtensionContext :=
  mkContext (Some inlineCurrent) NoChats.

End InlineIndexExamples.

(* ================================================================== *)
(** * Facts *)
(* ================================================================== *)

(** ** Strings *)

Section trim_facts.
Import JsString.

Lemma trimStart_shape s :
  trimStart s = EmptyString
  \/ exists c r, trimStart s = String c r /\ isWhiteSpace c = false.
Proof.
  induction s as [|c r IH]; simpl; [by left|].
  destruct (isWhiteSpace c) eqn:E; [exact IH|]. right. eauto.
Qed.

Lemma trimEnd_keeps_head c r :
  isWhiteSpace c = false -> exists r', trimEnd (String c r) = String c r'.
Proof.
  intros Hc. simpl. destruct (trimEnd r); rewrite ?Hc; eauto.
Qed.

Lemma trimEnd_idem s : trimEnd (trimEnd s) = trimEnd s.
Proof.
  induction s as [|c r IH]; simpl; [done|].
  destruct (trimEnd r) as [|d t] eqn:E.
  - destruct (isWhiteSpace c) eqn:Hc; simpl; [done|]. by rewrite Hc.
  - change (trimEnd (String c (String d t))) with
      (match trimEnd (String d t) with
       | EmptyString => if isWhiteSpace c then EmptyString else String c EmptyString
       | r' => String c r'
       end).
    by rewrite IH.
Qed.

Lemma trim_idem s : trim (trim s) = trim s.
Proof.
  unfold trim. destruct (trimStart_shape s) as [->|(c & r & -> & Hc)]; [done|].
  destruct (trimEnd_keeps_head c r Hc) as [r' Hr'].
  rewrite Hr'. simpl trimStart. rewrite Hc, <- Hr'. apply trimEnd_idem.
Qed.

End trim_facts.

(** ** The range matcher *)

Section matcher_facts.
Import JsString InlineDecoration MatcherSpec.

Lemma lineAt_middle (pre : list string) l rest :
  lineAt (pre ++ l :: rest) (Z.of_nat (List.length pre)) = l.
Proof.
  unfold lineAt. destruct (Z.ltb_spec (Z.of_nat (List.length pre)) 0); [lia|].
  rewrite Nat2Z.id, list_lookup_middle; done.
Qed.

Lemma matchesLine_middle aset (pre : list string) l rest :
  matchesLine aset (pre ++ l :: rest) (Z.of_nat (List.length pre))
  = bool_decide (trim l ∈ aset).
Proof.
  unfold matchesLine. rewrite lineAt_middle, length_app. simpl.
  destruct (Z.leb_spec 0 (Z.of_nat (List.length pre))); [|lia].
  destruct (Z.ltb_spec (Z.of_nat (List.length pre))
              (Z.of_nat (List.length pre + S (List.length rest)))); [done|lia].
Qed.

Lemma matchesLine_range aset doc j :
  matchesLine aset doc j = true ->
  0 <= j < Z.of_nat (List.length doc) /\ trim (lineAt doc j) ∈ aset.
Proof.
  unfold matchesLine. rewrite !andb_true_iff, bool_decide_eq_true.
  intros [[H1%Z.leb_le H2%Z.ltb_lt] H3]. split; [lia|done].
Qed.

(** The scan collects, in increasing order, the indices of the matching
    lines. *)
Lemma scanLines_matching aset lines : forall pre i ms occ,
  i = Z.of_nat (List.length pre) ->
  (scanLines aset lines i (ms, occ)).1
  = ms ++ List.filter (matchesLine aset (pre ++ lines))
            (seqZ i (Z.of_nat (List.length lines))).
Proof.
  induction lines as [|l rest IH]; intros pre i ms occ Hi.
  - simpl. by rewrite app_nil_r.
  - cbn [scanLines List.length].
    rewrite (seqZ_cons i) by lia.
    replace (Z.pred (Z.of_nat (S (List.length rest))))
      with (Z.of_nat (List.length rest)) by lia.
    cbn [List.filter]. subst i. rewrite matchesLine_middle.
    replace (pre ++ l :: rest) with ((pre ++ [l]) ++ rest)
      by (by rewrite <- app_assoc).
    destruct (decide (trim l ∈ aset)) as [Hin|Hin].
    + rewrite bool_decide_eq_true_2 by done. cbn [fst snd].
      rewrite (IH (pre ++ [l])) by (rewrite length_app; simpl; lia).
      by rewrite <- app_assoc.
    + rewrite bool_decide_eq_false_2 by done.
      rewrite (IH (pre ++ [l])) by (rewrite length_app; simpl; lia). done.
Qed.

(** ... and counts, for each text of the added set, the lines of the file
    that carry it. *)
Lemma scanLines_occurrences aset t lines : forall i ms (occ : gmap string Z),
  (scanLines aset lines i (ms, occ)).2 !! t
  = if decide (t ∈ aset)
    then (if occurrences lines t =? 0 then occ !! t
          else Some (default 0 (occ !! t) + occurrences lines t))
    else occ !! t.
Proof.
  unfold occurrences.
  induction lines as [|l rest IH]; intros i ms occ.
  - simpl. by destruct (decide (t ∈ aset)).
  - cbn [scanLines List.filter].
    destruct (decide (trim l ∈ aset)) as [Hin|Hin]; cbn [fst snd]; rewrite IH.
    + destruct (decide (t ∈ aset)) as [Ht|Ht].
      * destruct (decide (trim l = t)) as [->|Hne].
        -- rewrite bool_decide_eq_true_2 by done. cbn [List.length].
           rewrite lookup_insert_eq. cbn [default].
           set (n := List.length
             (List.filter (fun l0 => bool_decide (trim l0 = t)) rest)).
           destruct (Z.eqb_spec (Z.of_nat (S n)) 0); [lia|].
           destruct (Z.eqb_spec (Z.of_nat n) 0) as [E|E]; f_equal; unfold id; lia.
        -- rewrite bool_decide_eq_false_2 by done.
           by rewrite lookup_insert_ne.
      * rewrite lookup_insert_ne; [done|]. intros E. by rewrite E in Hin.
    + destruct (decide (t ∈ aset)) as [Ht|Ht]; [|done].
      rewrite bool_decide_eq_false_2; [done|]. intros E. by rewrite E in Hin.
Qed.

Lemma scanLines_once aset doc t :
  t ∈ aset ->
  ((scanLines aset doc 0 ([], ∅)).2 !! t = Some 1 <-> occurrences doc t = 1).
Proof.
  intros Ht. rewrite scanLines_occurrences, decide_True by done.
  rewrite lookup_empty. cbn [default].
  destruct (Z.eqb_spec (occurrences doc t) 0) as [E|E].
  - rewrite E. split; [done|lia].
  - split; [intros [= H]; lia|intros ->; done].
Qed.

Lemma scanLines_all aset doc :
  (scanLines aset doc 0 ([], ∅)).1
  = List.filter (matchesLine aset doc) (seqZ 0 (Z.of_nat (List.length doc))).
Proof. by rewrite (scanLines_matching aset doc []). Qed.

(** Every index the matcher keeps is a line of the document. *)
Lemma scanLines_in_range aset doc j :
  j ∈ (scanLines aset doc 0 ([], ∅)).1 ->
  0 <= j < Z.of_nat (List.length doc) /\ trim (lineAt doc j) ∈ aset.
Proof.
  rewrite scanLines_all, list_elem_of_In, filter_In.
  intros [_ H]. by apply matchesLine_range.
Qed.

(** *** The loop that groups matching lines into runs *)

Lemma closeRun_elem doc occ s e r :
  r ∈ closeRun doc occ s e -> exists j, r = lineRange doc j /\ s <= j <= e.
Proof.
  unfold closeRun, countAlnumLines.
  destruct (Z.le_gt_cases s e) as [Hse|Hse].
  - destruct (_ <=? _)%nat.
    + rewrite list_elem_of_fmap. intros (j & -> & Hj%elem_of_seqZ).
      exists j. split; [done|lia].
    + destruct (_ =? _)%nat; [|by rewrite elem_of_nil].
      destruct (_ && _); [|by rewrite elem_of_nil].
      rewrite list_elem_of_singleton. intros ->. exists s. split; [done|lia].
  - assert (seqZ s (e - s + 1) = []) as -> by (apply seqZ_nil; lia).
    simpl. by rewrite elem_of_nil.
Qed.

Lemma groupRuns_cons doc occ c rest start acc :
  groupRuns doc occ (c :: rest) start acc
  = if match rest with [] => true | nextLine :: _ => negb (nextLine =? c + 1) end
    then groupRuns doc occ rest (-1)
           (acc ++ closeRun doc occ (if start =? -1 then c else start) c)
    else groupRuns doc occ rest (if start =? -1 then c else start) acc.
Proof. reflexivity. Qed.

Lemma groupRuns_acc doc occ ms : forall start acc,
  groupRuns doc occ ms start acc = acc ++ groupRuns doc occ ms start [].
Proof.
  induction ms as [|c rest IH]; intros start acc; simpl.
  - by rewrite app_nil_r.
  - destruct (match rest with [] => true | nextLine :: _ => negb (nextLine =? c + 1) end).
    + rewrite IH, (IH _ (closeRun _ _ _ _)). by rewrite app_assoc.
    + apply IH.
Qed.

(** A run [c, c+1, .., c+n] followed by a gap is closed as one run. *)
Lemma groupRuns_run doc occ post : forall (n : nat) c start acc,
  (if start =? -1 then c else start) <> -1 ->
  (forall b, head post = Some b -> b <> c + Z.of_nat n + 1) ->
  groupRuns doc occ (seqZ c (Z.of_nat (S n)) ++ post) start acc
  = groupRuns doc occ post (-1)
      (acc ++ closeRun doc occ (if start =? -1 then c else start) (c + Z.of_nat n)).
Proof.
  induction n as [|n IH]; intros c start acc Hs Hpost.
  - change (seqZ c (Z.of_nat 1)) with [c]. cbn [app groupRuns].
    replace (c + Z.of_nat 0) with c by lia.
    destruct post as [|b post']; [done|].
    destruct (Z.eqb_spec b (c + 1)) as [->|Hb]; [|done].
    exfalso. apply (Hpost (c + 1)); [done|lia].
  - rewrite (seqZ_cons c) by lia.
    replace (Z.pred (Z.of_nat (S (S n)))) with (Z.of_nat (S n)) by lia.
    assert (E : seqZ (Z.succ c) (Z.of_nat (S n))
                = Z.succ c :: seqZ (Z.succ (Z.succ c)) (Z.of_nat n)).
    { rewrite seqZ_cons by lia. do 2 f_equal. lia. }
    rewrite E. cbn [app]. rewrite groupRuns_cons.
    replace (Z.succ c =? c + 1) with true by (symmetry; apply Z.eqb_eq; lia).
    cbn [negb].
    change (Z.succ c :: seqZ (Z.succ (Z.succ c)) (Z.of_nat n) ++ post)
      with ((Z.succ c :: seqZ (Z.succ (Z.succ c)) (Z.of_nat n)) ++ post).
    rewrite <- E.
    set (start' := if start =? -1 then c else start) in *.
    rewrite (IH (Z.succ c) start' acc).
    + destruct (Z.eqb_spec start' (-1)); [done|].
      do 3 f_equal. lia.
    + by destruct (Z.eqb_spec start' (-1)).
    + intros b Hb. specialize (Hpost b Hb). lia.
Qed.

Lemma groupRuns_app_ne doc occ rest pre : forall start acc,
  pre <> [] ->
  (forall a b, a ∈ pre -> head rest = Some b -> b <> a + 1) ->
  groupRuns doc occ (pre ++ rest) start acc
  = groupRuns doc occ rest (-1) (groupRuns doc occ pre start acc).
Proof.
  induction pre as [|c pre IH]; intros start acc Hne Hgap; [done|].
  destruct pre as [|c' pre].
  - cbn [app groupRuns]. destruct rest as [|b rest']; [done|].
    destruct (Z.eqb_spec b (c + 1)) as [->|Hb]; [|done].
    exfalso. apply (Hgap c (c + 1)); [set_solver|done|done].
  - change ((c :: c' :: pre) ++ rest) with (c :: c' :: pre ++ rest).
    rewrite !(groupRuns_cons _ _ c).
    change (c' :: pre ++ rest) with ((c' :: pre) ++ rest).
    destruct (negb (c' =? c + 1)); apply IH; try done;
      intros a b Ha; apply Hgap; set_solver.
Qed.

Lemma groupRuns_app doc occ rest pre acc :
  (forall a b, a ∈ pre -> head rest = Some b -> b <> a + 1) ->
  groupRuns doc occ (pre ++ rest) (-1) acc
  = groupRuns doc occ rest (-1) (groupRuns doc occ pre (-1) acc).
Proof.
  destruct pre as [|c pre]; [done|]. intros. by apply groupRuns_app_ne.
Qed.

(** Whatever the loop pushes is the single-line range of a line of the
    array, or of a line of the run that is still open. *)
Lemma groupRuns_sound doc occ ms : forall start acc r,
  r ∈ groupRuns doc occ ms start acc ->
  r ∈ acc
  \/ exists j, r = lineRange doc j
       /\ (j ∈ ms
           \/ (start <> -1 /\ exists c, head ms = Some c /\ start <= j < c)).
Proof.
  induction ms as [|c rest IH]; intros start acc r; simpl; [by left|].
  set (start' := if start =? -1 then c else start).
  destruct (match rest with [] => true | nextLine :: _ => negb (nextLine =? c + 1) end) eqn:Hc.
  - intros [Hr|(j & -> & [Hj|[Hj _]])]%IH; [| |done].
    + apply elem_of_app in Hr as [Hr|Hr]; [by left|]. right.
      apply closeRun_elem in Hr as (j & -> & Hj). exists j. split; [done|].
      subst start'. destruct (Z.eqb_spec start (-1)).
      * left. assert (j = c) as -> by lia. set_solver.
      * destruct (decide (j = c)) as [->|]; [left; set_solver|].
        right. split; [done|]. exists c. split; [done|lia].
    + right. exists j. split; [done|]. left. set_solver.
  - destruct rest as [|b rest']; [done|].
    apply negb_false_iff, Z.eqb_eq in Hc. subst b.
    intros [Hr|(j & -> & [Hj|(Hs & c0 & [= <-] & Hj)])]%IH; [by left| |].
    + right. exists j. split; [done|]. left. set_solver.
    + right. exists j. split; [done|].
      subst start'. destruct (Z.eqb_spec start (-1)).
      * left. assert (j = c) as -> by lia. set_solver.
      * destruct (decide (j = c)) as [->|]; [left; set_solver|].
        right. split; [done|]. exists c. split; [done|lia].
Qed.

(** *** The two paths of [matchDiffToCurrentFile] *)

Lemma matchDiff_large text diff :
  (5 <= size (addedLinesSet diff))%nat ->
  matchDiffToCurrentFile text diff
  = let doc := split LF text in
    let sc := scanLines (addedLinesSet diff) doc 0 ([], ∅) in
    groupRuns doc sc.2 sc.1 (-1) [].
Proof.
  intros H. unfold matchDiffToCurrentFile.
  destruct (Nat.eqb_spec (size (addedLinesSet diff)) 0); [lia|].
  destruct (scanLines _ _ _ _) as [ms occ].
  destruct (Nat.ltb_spec (size (addedLinesSet diff)) 5); [lia|done].
Qed.

Lemma matchDiff_small text diff :
  (1 <= size (addedLinesSet diff) <= 4)%nat ->
  matchDiffToCurrentFile text diff
  = let doc := split LF text in
    let sc := scanLines (addedLinesSet diff) doc 0 ([], ∅) in
    map (lineRange doc)
      (List.filter
         (fun line =>
            isMeaningfulLine (lineAt doc line)
            && bool_decide (sc.2 !! trim (lineAt doc line) = Some 1))
         sc.1).
Proof.
  intros H. unfold matchDiffToCurrentFile.
  destruct (Nat.eqb_spec (size (addedLinesSet diff)) 0); [lia|].
  destruct (scanLines _ _ _ _) as [ms occ].
  destruct (Nat.ltb_spec (size (addedLinesSet diff)) 5); [done|lia].
Qed.

Lemma filter_all {A} (P : A -> bool) (l : list A) :
  (forall x, x ∈ l -> P x = true) -> List.filter P l = l.
Proof.
  induction l as [|x l IH]; intros H; simpl; [done|].
  rewrite H by set_solver. f_equal. apply IH. intros. apply H. set_solver.
Qed.

Lemma filter_filter_and {A} (P Q : A -> bool) (l : list A) :
  List.filter P (List.filter Q l) = List.filter (fun x => Q x && P x) l.
Proof.
  induction l as [|x l IH]; simpl; [done|].
  destruct (Q x); simpl; [destruct (P x)|]; by rewrite IH.
Qed.

Lemma filter_one_unique {A} (P : A -> bool) (l : list A) x y :
  NoDup l -> List.length (List.filter P l) = 1%nat ->
  x ∈ l -> y ∈ l -> P x = true -> P y = true -> x = y.
Proof.
  induction 1 as [|z l Hz Hl IH]; [by rewrite elem_of_nil|].
  simpl. intros Hlen Hx Hy Px Py.
  assert (Hnone : forall w, List.length (List.filter P l) = 0%nat ->
                            w ∈ l -> P w = true -> False).
  { intros w H0 Hw Pw. apply length_zero_iff_nil in H0.
    assert (w ∈ List.filter P l) as Hin
      by (apply list_elem_of_In, filter_In; by rewrite <- list_elem_of_In).
    rewrite H0 in Hin. by apply elem_of_nil in Hin. }
  apply elem_of_cons in Hx as [->|Hx]; apply elem_of_cons in Hy as [->|Hy];
    destruct (P z) eqn:Pz; simpl in Hlen; try done.
  - exfalso. apply (Hnone y); [lia|done|done].
  - exfalso. apply (Hnone x); [lia|done|done].
  - exfalso. apply (Hnone x); [lia|done|done].
  - by apply IH.
Qed.

(** In the large-change path, the result consists of what the runs before
    [s..e] gave, what the run [s..e] gives, and what the later runs give. *)
Lemma groupRuns_maximalRun aset doc occ s e :
  maximalRun aset doc s e ->
  exists before after,
    groupRuns doc occ (scanLines aset doc 0 ([], ∅)).1 (-1) []
    = before ++ closeRun doc occ s e ++ after
    /\ (forall r, r ∈ before -> startLine r < s)
    /\ (forall r, r ∈ after -> e < startLine r).
Proof.
  intros (Hse & Hrun & Hs & He).
  pose proof (Hrun s ltac:(lia)) as [[Hs0 _] _]%matchesLine_range.
  pose proof (Hrun e ltac:(lia)) as [[_ HeN] _]%matchesLine_range.
  set (N := Z.of_nat (List.length doc)) in *.
  rewrite scanLines_all. fold N.
  replace N with (s + ((e - s + 1) + (N - e - 1))) by lia.
  rewrite seqZ_app, seqZ_app by lia. rewrite !List.filter_app.
  replace (0 + s + (e - s + 1)) with (e + 1) by lia. rewrite Z.add_0_l.
  rewrite (filter_all _ (seqZ s _))
    by (intros j Hj%elem_of_seqZ; apply Hrun; lia).
  set (pre := List.filter (matchesLine aset doc) (seqZ 0 s)).
  set (post := List.filter (matchesLine aset doc) (seqZ (e + 1) (N - e - 1))).
  assert (Hpre : forall a, a ∈ pre -> 0 <= a < s - 1).
  { intros a [Ha%list_elem_of_In%elem_of_seqZ Hm]%list_elem_of_In%filter_In.
    destruct (decide (a = s - 1)) as [->|]; [congruence|lia]. }
  assert (Hpost : forall b, b ∈ post -> e + 1 < b).
  { intros b [Hb%list_elem_of_In%elem_of_seqZ Hm]%list_elem_of_In%filter_In.
    destruct (decide (b = e + 1)) as [->|]; [congruence|lia]. }
  rewrite groupRuns_app.
  2:{ intros a b Ha Hb. apply Hpre in Ha.
      assert (b = s); [|lia].
      rewrite seqZ_cons in Hb by lia. by injection Hb. }
  replace (e - s + 1) with (Z.of_nat (S (Z.to_nat (e - s)))) by lia.
  rewrite groupRuns_run.
  2:{ simpl. lia. }
  2:{ intros b Hb. assert (b ∈ post) as Hin%Hpost; [|lia].
      destruct post; [done|]. injection Hb as ->. set_solver. }
  rewrite Z.eqb_refl, Z2Nat.id by lia. replace (s + (e - s)) with e by lia.
  rewrite groupRuns_acc.
  exists (groupRuns doc occ pre (-1) []), (groupRuns doc occ post (-1) []).
  split; [by rewrite <- app_assoc|]. split.
  - intros r [Hr|(j & -> & [Hj|[? _]])]%groupRuns_sound;
      [by apply elem_of_nil in Hr| |done].
    simpl. apply Hpre in Hj. lia.
  - intros r [Hr|(j & -> & [Hj|[? _]])]%groupRuns_sound;
      [by apply elem_of_nil in Hr| |done].
    simpl. apply Hpost in Hj. lia.
Qed.

Lemma matchDiff_elem text diff r :
  r ∈ matchDiffToCurrentFile text diff ->
  exists j, r = lineRange (split LF text) j
            /\ j ∈ (scanLines (addedLinesSet diff) (split LF text) 0 ([], ∅)).1.
Proof.
  destruct (Nat.lt_ge_cases (size (addedLinesSet diff)) 5) as [Hlt|Hge].
  - destruct (Nat.eq_dec (size (addedLinesSet diff)) 0%nat) as [H0|H0].
    + unfold matchDiffToCurrentFile. rewrite H0. simpl. by rewrite elem_of_nil.
    + rewrite matchDiff_small by lia. cbv zeta.
      rewrite list_elem_of_fmap.
      intros (j & -> & [Hj _]%list_elem_of_In%filter_In).
      exists j. by rewrite list_elem_of_In.
  - rewrite matchDiff_large by done. cbv zeta.
    intros [Hr|(j & -> & [Hj|[? _]])]%groupRuns_sound;
      [by apply elem_of_nil in Hr| |done].
    by exists j.
Qed.

Lemma isMeaningfulLine_trim l : isMeaningfulLine (trim l) = isMeaningfulLine l.
Proof. unfold isMeaningfulLine. by rewrite trim_idem. Qed.

(** The added-line set holds exactly the non-blank trimmed lines of the
    added fragments. *)
Lemma addedLinesSet_elem diff t :
  t ∈ addedLinesSet diff
  <-> (exists change l,
         change ∈ diff /\ added change = true
         /\ l ∈ split LF (value change) /\ trim l = t)
      /\ (0 < String.length (trim t))%nat.
Proof.
  unfold addedLinesSet, addedLines.
  rewrite elem_of_list_to_set, list_elem_of_In, filter_In, in_flat_map.
  rewrite Nat.ltb_lt. split.
  - intros [(change & [Hc Ha]%filter_In & (l & Hl & Hin)%in_map_iff) Hlen].
    split; [|done]. exists change, l. by rewrite !list_elem_of_In.
  - intros [(change & l & Hc & Ha & Hl & Ht) Hlen]. split; [|done].
    exists change. split; [apply filter_In; by rewrite <- list_elem_of_In|].
    apply in_map_iff. exists l. by rewrite <- list_elem_of_In.
Qed.

(** C10 (matcher soundness): every line covered by a range that
    [matchDiffToCurrentFile] returns is a line of the document whose trimmed
    text belongs to the set of added lines, that is, equals the trimmed text
    of a line of an added fragment of the diff; and an empty set of added
    lines gives no range at all. *)
Theorem matcher_soundness text diff :
  (forall r j,
      r ∈ matchDiffToCurrentFile text diff ->
      startLine r <= j <= endLine r ->
      0 <= j < Z.of_nat (List.length (split LF text))
      /\ trim (lineAt (split LF text) j) ∈ addedLinesSet diff
      /\ exists change l,
           change ∈ diff /\ added change = true
           /\ l ∈ split LF (value change)
           /\ trim l = trim (lineAt (split LF text) j))
  /\ (addedLinesSet diff = ∅ -> matchDiffToCurrentFile text diff = []).
Proof.
  split.
  - intros r j (j0 & -> & Hj0)%matchDiff_elem Hj. simpl in Hj.
    assert (j = j0) as -> by lia.
    destruct (scanLines_in_range _ _ _ Hj0) as [Hrange Hin].
    split; [done|]. split; [done|].
    by apply addedLinesSet_elem in Hin as [? _].
  - intros H. unfold matchDiffToCurrentFile. by rewrite H.
Qed.

(** C5 (small-change path): with one to four distinct added lines the result
    is exactly the single-line ranges, in file order, of the lines selected
    by the rule of the spec ([smallChangeSelected]). *)
Theorem small_change_path text diff :
  (1 <= size (addedLinesSet diff) <= 4)%nat ->
  matchDiffToCurrentFile text diff
  = map (lineRange (split LF text))
      (List.filter (smallChangeSelected (addedLinesSet diff) (split LF text))
         (seqZ 0 (Z.of_nat (List.length (split LF text))))).
Proof.
  intros H. rewrite matchDiff_small by done. cbv zeta.
  rewrite scanLines_all, filter_filter_and. f_equal.
  apply filter_ext_in. intros j Hj%list_elem_of_In%elem_of_seqZ.
  unfold matchesLine, smallChangeSelected, isMeaningfulLine.
  destruct (Z.leb_spec 0 j); [|lia].
  destruct (Z.ltb_spec j (Z.of_nat (List.length (split LF text)))); [|lia].
  cbn [andb].
  destruct (decide (trim (lineAt (split LF text) j) ∈ addedLinesSet diff))
    as [Hin|Hin].
  - rewrite (bool_decide_eq_true_2 (_ ∈ _)) by done. cbn [andb]. f_equal.
    apply eq_true_iff_eq. rewrite bool_decide_eq_true, Z.eqb_eq.
    by apply scanLines_once.
  - by rewrite (bool_decide_eq_false_2 (_ ∈ _)) by done.
Qed.

(** C4 (large-change run acceptance): with five or more distinct added
    lines, a maximal run [s..e] of matching lines with at least two
    alphanumeric lines puts every one of its lines in the result; with
    exactly one, the run puts something in the result only if that line
    occurs once in the file and is meaningful; with none, the run puts
    nothing in the result. *)
Theorem large_change_run_acceptance text diff s e :
  (5 <= size (addedLinesSet diff))%nat ->
  maximalRun (addedLinesSet diff) (split LF text) s e ->
  ((2 <= countAlnumLines (split LF text) s e)%nat ->
     forall j, s <= j <= e ->
       lineRange (split LF text) j ∈ matchDiffToCurrentFile text diff)
  /\ (countAlnumLines (split LF text) s e = 1%nat ->
      forall r, r ∈ matchDiffToCurrentFile text diff ->
        s <= startLine r <= e ->
        r = lineRange (split LF text) s
        /\ forall j, s <= j <= e ->
             testAlnum (trim (lineAt (split LF text) j)) = true ->
             occurrences (split LF text) (trim (lineAt (split LF text) j)) = 1
             /\ isMeaningfulLine (lineAt (split LF text) j) = true)
  /\ (countAlnumLines (split LF text) s e = 0%nat ->
      forall r, r ∈ matchDiffToCurrentFile text diff ->
        ~ (s <= startLine r <= e)).
Proof.
  intros Hsize Hrun. rewrite matchDiff_large by done. cbv zeta.
  set (doc := split LF text) in *. set (aset := addedLinesSet diff) in *.
  set (occ := (scanLines aset doc 0 ([], ∅)).2).
  destruct (groupRuns_maximalRun aset doc occ s e Hrun)
    as (before & after & -> & Hbefore & Hafter).
  assert (Hmid : forall r, r ∈ before ++ closeRun doc occ s e ++ after ->
                   s <= startLine r <= e -> r ∈ closeRun doc occ s e).
  { intros r [Hr|[Hr|Hr]%elem_of_app]%elem_of_app Hs; [|done|].
    - apply Hbefore in Hr. lia.
    - apply Hafter in Hr. lia. }
  split; [|split].
  - intros Hk j Hj. rewrite !elem_of_app. right. left.
    unfold closeRun. destruct (Nat.leb_spec 2 (countAlnumLines doc s e)); [|lia].
    apply list_elem_of_fmap. exists j. split; [done|]. apply elem_of_seqZ. lia.
  - intros Hk r Hr Hs. specialize (Hmid r Hr Hs).
    unfold closeRun in Hmid. rewrite Hk in Hmid. cbn [Nat.leb Nat.eqb] in Hmid.
    destruct (bool_decide _ && _) eqn:Hc; [|by apply elem_of_nil in Hmid].
    apply list_elem_of_singleton in Hmid as ->. split; [done|].
    apply andb_true_iff in Hc as [Hocc%bool_decide_eq_true Hm].
    rewrite isMeaningfulLine_trim in Hm.
    assert (Hs_alnum : testAlnum (trim (lineAt doc s)) = true).
    { unfold isMeaningfulLine in Hm. by apply andb_true_iff in Hm as [? _]. }
    destruct Hrun as (Hse & Hall & _).
    intros j Hj Hj_alnum.
    assert (j = s) as ->.
    { apply (filter_one_unique
               (fun j => testAlnum (trim (lineAt doc j))) (seqZ s (e - s + 1)));
        [apply NoDup_seqZ|exact Hk| | |done|done]; apply elem_of_seqZ; lia. }
    split; [|done].
    apply (scanLines_once aset); [|done].
    by apply (matchesLine_range aset doc s), Hall.
  - intros Hk r Hr Hs. specialize (Hmid r Hr Hs).
    unfold closeRun in Hmid. rewrite Hk in Hmid. by apply elem_of_nil in Hmid.
Qed.

(** C6, as the code has it: the matcher does not merge.  Every returned
    range is the range of one single line, from column 0 to the end of that
    line.  In the large-change path (five or more distinct added lines) the
    result is, for every maximal run [s..e] of matching lines, what the
    earlier runs give, then what this run gives, then what the later runs
    give; a run with two or more alphanumeric lines gives the consecutive
    single-line ranges of [s], [s+1], .., [e], and a run with fewer gives
    the single range of its first line [s], or nothing. *)
Theorem accepted_run_line_by_line text diff :
  (forall r, r ∈ matchDiffToCurrentFile text diff ->
     startLine r = endLine r /\ r = lineRange (split LF text) (startLine r))
  /\ forall s e,
       (5 <= size (addedLinesSet diff))%nat ->
       maximalRun (addedLinesSet diff) (split LF text) s e ->
       exists before middle after,
         matchDiffToCurrentFile text diff = before ++ middle ++ after
         /\ (forall r, r ∈ before -> startLine r < s)
         /\ (forall r, r ∈ after -> e < startLine r)
         /\ ((2 <= countAlnumLines (split LF text) s e)%nat ->
             middle = map (lineRange (split LF text)) (seqZ s (e - s + 1)))
         /\ ((countAlnumLines (split LF text) s e < 2)%nat ->
             middle = [lineRange (split LF text) s] \/ middle = []).
Proof.
  split.
  - by intros r (j & -> & _)%matchDiff_elem.
  - intros s e Hsize Hrun. rewrite matchDiff_large by done. cbv zeta.
    destruct (groupRuns_maximalRun (addedLinesSet diff) (split LF text)
                (scanLines (addedLinesSet diff) (split LF text) 0 ([], ∅)).2
                s e Hrun) as (before & after & -> & Hbefore & Hafter).
    eexists before, _, after. split; [done|]. split; [done|]. split; [done|].
    unfold closeRun. split.
    + intros Hk.
      by destruct (Nat.leb_spec 2 (countAlnumLines (split LF text) s e)); [|lia].
    + intros Hk.
      destruct (Nat.leb_spec 2 (countAlnumLines (split LF text) s e)); [lia|].
      destruct (_ =? _)%nat; [|by right].
      destruct (_ && _); [by left|by right].
Qed.

(** *** Examples, witnesses and the counterexample to the merged shape *)

Import MatcherExamples.

Example small_change_unique_lines :
  matchDiffToCurrentFile returnTwiceDocument threeLineChange
  = [mkRange 0 0 0 9; mkRange 4 0 4 9].
Proof. vm_compute. reflexivity. Qed.

Example large_change_two_runs :
  matchDiffToCurrentFile twoRunDocument sixLineChange
  = [mkRange 0 0 0 7; mkRange 1 0 1 5].
Proof. vm_compute. reflexivity. Qed.

Example large_change_one_line_run :
  matchDiffToCurrentFile oneLineRunDocument sixLineChange = [mkRange 0 0 0 5].
Proof. vm_compute. reflexivity. Qed.

Lemma small_change_path_witness :
  (1 <= size (addedLinesSet threeLineChange) <= 4)%nat
  /\ matchDiffToCurrentFile returnTwiceDocument threeLineChange
     = map (lineRange (split LF returnTwiceDocument))
         (List.filter
            (smallChangeSelected (addedLinesSet threeLineChange)
               (split LF returnTwiceDocument))
            (seqZ 0 (Z.of_nat (List.length (split LF returnTwiceDocument))))).
Proof.
  assert (H : (1 <= size (addedLinesSet threeLineChange) <= 4)%nat)
    by (vm_compute; lia).
  exact (conj H (small_change_path returnTwiceDocument threeLineChange H)).
Defined.

Lemma twoRunDocument_first_run :
  maximalRun (addedLinesSet sixLineChange) (split LF twoRunDocument) 0 1.
Proof.
  split; [lia|]. split; [|split; vm_compute; reflexivity].
  intros j Hj. assert (j = 0 \/ j = 1) as [->| ->] by lia;
    vm_compute; reflexivity.
Defined.

Lemma oneLineRunDocument_run :
  maximalRun (addedLinesSet sixLineChange) (split LF oneLineRunDocument) 0 1.
Proof.
  split; [lia|]. split; [|split; vm_compute; reflexivity].
  intros j Hj. assert (j = 0 \/ j = 1) as [->| ->] by lia;
    vm_compute; reflexivity.
Defined.

Lemma twoLineDocument_run :
  maximalRun (addedLinesSet sixLineChange) (split LF twoLineDocument) 0 1.
Proof.
  split; [lia|]. split; [|split; vm_compute; reflexivity].
  intros j Hj. assert (j = 0 \/ j = 1) as [->| ->] by lia;
    vm_compute; reflexivity.
Defined.

Lemma large_change_run_acceptance_witness :
  (5 <= size (addedLinesSet sixLineChange))%nat
  /\ maximalRun (addedLinesSet sixLineChange) (split LF oneLineRunDocument) 0 1
  /\ countAlnumLines (split LF oneLineRunDocument) 0 1 = 1%nat
  /\ forall r, r ∈ matchDiffToCurrentFile oneLineRunDocument sixLineChange ->
       0 <= startLine r <= 1 ->
       r = lineRange (split LF oneLineRunDocument) 0
       /\ forall j, 0 <= j <= 1 ->
            testAlnum (trim (lineAt (split LF oneLineRunDocument) j)) = true ->
            occurrences (split LF oneLineRunDocument)
              (trim (lineAt (split LF oneLineRunDocument) j)) = 1
            /\ isMeaningfulLine (lineAt (split LF oneLineRunDocument) j) = true.
Proof.
  assert (H : (5 <= size (addedLinesSet sixLineChange))%nat)
    by (vm_compute; lia).
  assert (Hk : countAlnumLines (split LF oneLineRunDocument) 0 1 = 1%nat)
    by (vm_compute; reflexivity).
  split; [exact H|]. split; [exact oneLineRunDocument_run|].
  split; [exact Hk|].
  exact (proj1 (proj2 (large_change_run_acceptance oneLineRunDocument
                         sixLineChange 0 1 H oneLineRunDocument_run)) Hk).
Defined.

(** C6 as stated fails: the two adjacent accepted lines of
    [twoLineDocument] come back as two ranges, none of them from line 0 to
    line 1. *)
Lemma merged_range_shape_fails :
  ~ mergedRangeShape twoLineDocument sixLineChange.
Proof.
  intros H.
  destruct (H 0 1 twoLineDocument_run) as (r & Hr & Hs & He).
  { vm_compute. lia. }
  assert (Hres : matchDiffToCurrentFile twoLineDocument sixLineChange
                 = [mkRange 0 0 0 5; mkRange 1 0 1 4])
    by (vm_compute; reflexivity).
  rewrite Hres in Hr.
  apply elem_of_cons in Hr as [->|Hr]; [simpl in He; lia|].
  apply list_elem_of_singleton in Hr as ->. simpl in Hs; lia.
Qed.

Lemma accepted_run_line_by_line_witness :
  (5 <= size (addedLinesSet sixLineChange))%nat
  /\ (forall r, r ∈ matchDiffToCurrentFile twoLineDocument sixLineChange ->
        startLine r = endLine r
        /\ r = lineRange (split LF twoLineDocument) (startLine r))
  /\ (exists before middle after,
        matchDiffToCurrentFile twoLineDocument sixLineChange
        = before ++ middle ++ after
        /\ (forall r, r ∈ before -> startLine r < 0)
        /\ (forall r, r ∈ after -> 1 < startLine r)
        /\ ((2 <= countAlnumLines (split LF twoLineDocument) 0 1)%nat ->
            middle
            = map (lineRange (split LF twoLineDocument)) (seqZ 0 (1 - 0 + 1)))
        /\ ((countAlnumLines (split LF twoLineDocument) 0 1 < 2)%nat ->
            middle = [lineRange (split LF twoLineDocument) 0] \/ middle = []))
  /\ (exists before middle after,
        matchDiffToCurrentFile oneLineRunDocument sixLineChange
        = before ++ middle ++ after
        /\ (forall r, r ∈ before -> startLine r < 0)
        /\ (forall r, r ∈ after -> 1 < startLine r)
        /\ ((2 <= countAlnumLines (split LF oneLineRunDocument) 0 1)%nat ->
            middle
            = map (lineRange (split LF oneLineRunDocument)) (seqZ 0 (1 - 0 + 1)))
        /\ ((countAlnumLines (split LF oneLineRunDocument) 0 1 < 2)%nat ->
            middle = [lineRange (split LF oneLineRunDocument) 0] \/ middle = [])).
Proof.
  assert (H : (5 <= size (addedLinesSet sixLineChange))%nat)
    by (vm_compute; lia).
  split; [exact H|].
  split; [exact (proj1 (accepted_run_line_by_line twoLineDocument sixLineChange))|].
  split.
  - exact (proj2 (accepted_run_line_by_line twoLineDocument sixLineChange)
             0 1 H twoLineDocument_run).
  - exact (proj2 (accepted_run_line_by_line oneLineRunDocument sixLineChange)
             0 1 H oneLineRunDocument_run).
Defined.

End matcher_facts.

(** ** The snapshot store *)

Section store_facts.
Import Types StashedStateStore StoreExamples.

Lemma writeStashedState_context context disk s :
  (writeStashedState context disk s).1.1
  = mkContext (Some s) (ws_currentPanelChats context).
Proof.
  unfold writeStashedState. by destruct (writeStashedStateToFile disk s).
Qed.

Lemma existsb_count {A} (P : A -> bool) (l : list A) :
  existsb P l = (0 <? List.length (List.filter P l))%nat.
Proof.
  induction l as [|x l IH]; simpl; [done|].
  destruct (P x); simpl; [done|exact IH].
Qed.

(** Among the messages appended to an existing chat, those with id [m]:
    none when the chat has [m] already, all of the new chat's otherwise. *)
Lemma count_appended m (existing : list MessageEntry) (new : list MessageEntry) :
  List.length
    (List.filter (fun e => bool_decide (msg_id e = m))
       (List.filter
          (fun message =>
             negb (existsb
                     (fun existingMessage =>
                        bool_decide (msg_id existingMessage = msg_id message))
                     existing))
          new))
  = if (0 <? List.length
               (List.filter (fun e => bool_decide (msg_id e = m)) existing))%nat
    then 0%nat
    else List.length (List.filter (fun e => bool_decide (msg_id e = m)) new).
Proof.
  rewrite <- existsb_count, filter_filter_and.
  destruct (existsb _ existing) eqn:E.
  - rewrite (filter_ext _ (fun _ => false)); [by induction new|].
    intros e. destruct (decide (msg_id e = m)) as [->|Hne].
    + by rewrite E.
    + rewrite (bool_decide_eq_false_2 (msg_id e = m)) by done.
      apply andb_false_r.
  - f_equal. apply filter_ext. intros e.
    destruct (decide (msg_id e = m)) as [->|Hne].
    + by rewrite E.
    + rewrite (bool_decide_eq_false_2 (msg_id e = m)) by done.
      apply andb_false_r.
Qed.

Lemma store_existing context disk c pc :
  storedChat context (chat_id c) = Some pc ->
  storedChat (writeChatToStashedState context disk c).1.1 (chat_id c)
  = Some (withMessages pc
            (messages pc
             ++ List.filter
                  (fun message =>
                     negb (existsb
                             (fun existingMessage =>
                                bool_decide
                                  (msg_id existingMessage = msg_id message))
                             (messages pc)))
                  (messages c))).
Proof.
  unfold storedChat, writeChatToStashedState.
  destruct (list_find _ _) as [[i pc0]|] eqn:Hfind; [|done].
  intros [= ->]. rewrite writeStashedState_context.
  unfold readStashedState at 1. cbn [ws_stashedState withPanelChats panelChats].
  apply list_find_Some in Hfind as (Hi & HP & Hbefore).
  match goal with |- snd <$> ?f = _ => assert (f = Some (i, withMessages pc
    (messages pc ++ List.filter (fun message => negb (existsb
       (fun existingMessage => bool_decide (msg_id existingMessage = msg_id message))
       (messages pc))) (messages c)))) as -> end; [|done].
  apply list_find_Some. split; [|split].
  - apply list_lookup_insert_eq. by eapply lookup_lt_Some.
  - exact HP.
  - intros j y Hj Hlt. rewrite list_lookup_insert_ne in Hj by lia.
    by eapply Hbefore.
Qed.

Lemma store_absent context disk c :
  storedChat context (chat_id c) = None ->
  storedChat (writeChatToStashedState context disk c).1.1 (chat_id c) = Some c
  /\ panelChats (readStashedState (writeChatToStashedState context disk c).1.1)
     = panelChats (readStashedState context) ++ [c].
Proof.
  unfold storedChat, writeChatToStashedState.
  destruct (list_find _ _) as [[i pc0]|] eqn:Hfind; [done|]. intros _.
  rewrite writeStashedState_context.
  unfold readStashedState at 1 3. cbn [ws_stashedState withPanelChats panelChats].
  split; [|done].
  apply list_find_None in Hfind.
  match goal with |- snd <$> ?f = _ =>
    assert (f = Some (List.length (panelChats (readStashedState context)), c))
      as -> end; [|done].
  apply list_find_Some. split; [|split].
  - by apply list_lookup_middle.
  - done.
  - intros j y Hj Hlt. rewrite lookup_app_l in Hj by done.
    rewrite Forall_forall in Hfind. apply Hfind.
    eapply list_elem_of_lookup_2. exact Hj.
Qed.

(** The number of messages with id [m] in the stored chat after an append. *)
Lemma count_after_append context disk c m :
  exists pc',
    storedChat (writeChatToStashedState context disk c).1.1 (chat_id c) = Some pc'
    /\ countMessage m pc'
       = match storedChat context (chat_id c) with
         | Some pc =>
             if (0 <? countMessage m pc)%nat then countMessage m pc
             else countMessage m c
         | None => countMessage m c
         end.
Proof.
  destruct (storedChat context (chat_id c)) as [pc|] eqn:Hs.
  - eexists. split; [by apply store_existing|].
    unfold countMessage. cbn [withMessages messages].
    rewrite List.filter_app, length_app, count_appended.
    match goal with
    | |- context [(0 <? ?n)%nat] => destruct (Nat.ltb_spec 0 n); lia
    end.
  - exists c. split; [by apply store_absent|done].
Qed.

(** A message id the stored chat has already is left as it is by an append:
    the stored messages with that id are the same before and after. *)
Lemma append_keeps_present context disk c pc m :
  storedChat context (chat_id c) = Some pc ->
  (0 < countMessage m pc)%nat ->
  exists pc',
    storedChat (writeChatToStashedState context disk c).1.1 (chat_id c) = Some pc'
    /\ List.filter (fun e => bool_decide (msg_id e = m)) (messages pc')
       = List.filter (fun e => bool_decide (msg_id e = m)) (messages pc).
Proof.
  intros Hs Hm. eexists. split; [by apply store_existing|].
  cbn [withMessages messages]. rewrite List.filter_app.
  pose proof (count_appended m (messages pc) (messages c)) as Hc.
  unfold countMessage in Hm. apply Nat.ltb_lt in Hm. rewrite Hm in Hc.
  apply length_zero_iff_nil in Hc. rewrite Hc. apply app_nil_r.
Qed.

(** C9 (idempotent append): when [writeChatToStashedState] is called twice
    for the same chat id with a message id [m] (the stored chat and the first
    chat written carrying [m] at most once, resp. once), the stored chat ends
    with exactly one message with id [m], whether or not the file writes
    succeed; an append to a chat that has [m] already leaves its messages
    with id [m] as they are; and writing a chat whose id is not in the store
    appends that chat, as it is, to the stored chats. *)
Theorem idempotent_append context disk c1 c2 m :
  chat_id c1 = chat_id c2 ->
  countMessage m c1 = 1%nat ->
  (forall pc, storedChat context (chat_id c1) = Some pc ->
              (countMessage m pc <= 1)%nat) ->
  (exists pc,
      storedChat
        (writeChatToStashedState
           (writeChatToStashedState context disk c1).1.1
           (writeChatToStashedState context disk c1).1.2 c2).1.1
        (chat_id c1) = Some pc
      /\ countMessage m pc = 1%nat)
  /\ (forall pc,
        storedChat context (chat_id c1) = Some pc ->
        (0 < countMessage m pc)%nat ->
        exists pc',
          storedChat (writeChatToStashedState context disk c1).1.1 (chat_id c1)
          = Some pc'
          /\ List.filter (fun e => bool_decide (msg_id e = m)) (messages pc')
             = List.filter (fun e => bool_decide (msg_id e = m)) (messages pc))
  /\ (storedChat context (chat_id c1) = None ->
      panelChats
        (readStashedState (writeChatToStashedState context disk c1).1.1)
      = panelChats (readStashedState context) ++ [c1]).
Proof.
  intros Hid Hc1 Hstore.
  split; [|split;
    [intros pc; apply append_keeps_present
    |intros Hnone; exact (proj2 (store_absent context disk c1 Hnone))]].
  destruct (count_after_append context disk c1 m) as (pc1 & Hpc1 & Hn1).
  assert (countMessage m pc1 = 1%nat) as H1.
  { rewrite Hn1. destruct (storedChat context (chat_id c1)) as [pc|]; [|done].
    specialize (Hstore pc eq_refl).
    destruct (Nat.ltb_spec 0 (countMessage m pc)); lia. }
  destruct (count_after_append (writeChatToStashedState context disk c1).1.1
              (writeChatToStashedState context disk c1).1.2 c2 m)
    as (pc2 & Hpc2 & Hn2).
  rewrite <- Hid in Hpc2, Hn2. rewrite Hpc1, H1 in Hn2. simpl in Hn2.
  by exists pc2.
Qed.

Lemma idempotent_append_witness :
  chat_id helloChat = chat_id helloChat
  /\ countMessage "m1" helloChat = 1%nat
  /\ (exists pc,
        storedChat
          (writeChatToStashedState
             (writeChatToStashedState freshContext readOnlyDisk helloChat).1.1
             (writeChatToStashedState freshContext readOnlyDisk helloChat).1.2
             helloChat).1.1
          (chat_id helloChat) = Some pc
        /\ countMessage "m1" pc = 1%nat)
  /\ (storedChat freshContext (chat_id helloChat) = None ->
      panelChats
        (readStashedState
           (writeChatToStashedState freshContext readOnlyDisk helloChat).1.1)
      = panelChats (readStashedState freshContext) ++ [helloChat]).
Proof.
  assert (H1 : chat_id helloChat = chat_id helloChat) by reflexivity.
  assert (H2 : countMessage "m1" helloChat = 1%nat) by reflexivity.
  assert (H3 : forall pc, storedChat freshContext (chat_id helloChat) = Some pc ->
                          (countMessage "m1" pc <= 1)%nat).
  { intros pc H. vm_compute in H. discriminate H. }
  destruct (idempotent_append freshContext readOnlyDisk helloChat helloChat "m1"
              H1 H2 H3) as (Hone & _ & Hnew).
  auto.
Defined.

Example append_twice_stores_once :
  messages
  <$> storedChat
        (writeChatToStashedState
           (writeChatToStashedState freshContext writableDisk helloChat).1.1
           (writeChatToStashedState freshContext writableDisk helloChat).1.2
           helloAgainChat).1.1
        "A"
  = Some [helloMessage; againMessage].
Proof. vm_compute. reflexivity. Qed.

End store_facts.

(** ** History reconstruction: the loops of [processCommit] *)

Section processCommit_facts.
Import Types PanelGit.

Lemma flat_map_insert_perm {A B} (f : A -> list B) (l : list A) i x x' new :
  l !! i = Some x ->
  f x' ≡ₚ f x ++ new ->
  flat_map f (<[i := x']> l) ≡ₚ flat_map f l ++ new.
Proof.
  intros Hi Hx.
  rewrite <- (take_drop_middle l i x Hi) at 2.
  rewrite insert_take_drop by (by eapply lookup_lt_Some).
  rewrite !flat_map_app. cbn [flat_map]. rewrite Hx.
  rewrite <- !app_assoc. do 2 f_equiv. apply Permutation_app_comm.
Qed.

Lemma messageIds_app pcs pcs' :
  messageIds (pcs ++ pcs') = messageIds pcs ++ messageIds pcs'.
Proof. apply flat_map_app. Qed.

(** The messages pushed by the message loop: active, not seen before,
    pairwise distinct, and seen afterwards. *)
Lemma processMessages_spec cur ms : forall seen msgs,
  exists newm,
    processMessages cur ms (seen, msgs)
    = (seen ∪ list_to_set (map msg_id newm), msgs ++ newm)
    /\ NoDup (map msg_id newm)
    /\ (forall x, x ∈ map msg_id newm ->
          (x ∉ seen) /\ x ∈ cur /\ x ∈ map msg_id ms)
    /\ (forall x, x ∈ map msg_id ms -> x ∈ cur ->
          x ∈ seen ∪ list_to_set (map msg_id newm)).
Proof.
  induction ms as [|e rest IH]; intros seen msgs.
  - exists []. simpl. rewrite app_nil_r.
    split; [f_equal; set_solver|]. split; [constructor|].
    split; intros x Hx; by apply elem_of_nil in Hx.
  - cbn [processMessages fst snd].
    destruct (bool_decide (msg_id e ∈ cur) && negb (bool_decide (msg_id e ∈ seen)))
      eqn:Hpush.
    + apply andb_true_iff in Hpush as [Hcur%bool_decide_eq_true Hseen%negb_true_iff%bool_decide_eq_false].
      destruct (IH ({[msg_id e]} ∪ seen) (msgs ++ [e]))
        as (newm & -> & Hnd & Hnew & Hall).
      exists (e :: newm). cbn [map].
      split; [f_equal; [set_solver|by rewrite <- app_assoc]|].
      split; [apply NoDup_cons; split; [|done]; intros Hin%Hnew; set_solver|].
      split.
      * intros x [->|Hx%Hnew]%elem_of_cons; set_solver.
      * intros x [->|Hx]%elem_of_cons Hc; [set_solver|].
        specialize (Hall x Hx Hc). set_solver.
    + destruct (IH seen msgs) as (newm & -> & Hnd & Hnew & Hall).
      exists newm. split; [done|]. split; [done|]. split.
      * intros x Hx. specialize (Hnew x Hx). set_solver.
      * intros x [->|Hx]%elem_of_cons Hc; [|by apply Hall].
        apply andb_false_iff in Hpush as [H%bool_decide_eq_false|H%negb_false_iff%bool_decide_eq_true];
          [done|set_solver].
Qed.

Lemma messageIds_withMessages pc msgs :
  messageIds [withMessages pc msgs] = map msg_id msgs.
Proof. unfold messageIds. simpl. by rewrite app_nil_r. Qed.

(** One chat: the commit's chats gain exactly the pushed messages. *)
Lemma processPanelChat_spec cur pc seen pcs :
  exists new,
    (processPanelChat cur pc (seen, pcs)).1 = seen ∪ list_to_set new
    /\ messageIds (processPanelChat cur pc (seen, pcs)).2 ≡ₚ messageIds pcs ++ new
    /\ NoDup new
    /\ (forall x, x ∈ new -> (x ∉ seen) /\ x ∈ cur /\ x ∈ map msg_id (messages pc))
    /\ (forall x, x ∈ map msg_id (messages pc) -> x ∈ cur ->
          x ∈ (processPanelChat cur pc (seen, pcs)).1).
Proof.
  unfold processPanelChat. cbn [fst snd].
  destruct (list_find _ pcs) as [[i ex]|] eqn:Hfind.
  - destruct (processMessages_spec cur (messages pc) seen (messages ex))
      as (newm & -> & Hnd & Hnew & Hall).
    exists (map msg_id newm). cbn [fst snd].
    split; [done|]. split; [|done].
    apply list_find_Some in Hfind as (Hi & _).
    apply (flat_map_insert_perm _ pcs i ex); [done|].
    cbn [withMessages messages]. by rewrite map_app.
  - destruct (processMessages_spec cur (messages pc) seen [])
      as (newm & -> & Hnd & Hnew & Hall).
    exists (map msg_id newm). cbn [fst snd].
    split; [done|]. split; [|done].
    by rewrite messageIds_app, messageIds_withMessages.
Qed.

(** The chats of one snapshot: the commit gains the ids [new], which are
    active, were not seen, are distinct and come from live chats; every
    active id of a live chat is seen afterwards. *)
Lemma processPanelChats_spec cur del chats : forall seen pcs,
  exists new,
    (processPanelChats cur del chats (seen, pcs)).1 = seen ∪ list_to_set new
    /\ messageIds (processPanelChats cur del chats (seen, pcs)).2
       ≡ₚ messageIds pcs ++ new
    /\ NoDup new
    /\ (forall x, x ∈ new ->
          (x ∉ seen) /\ x ∈ cur
          /\ x ∈ messageIds
                 (List.filter (fun pc => negb (bool_decide (chat_id pc ∈ del))) chats))
    /\ (forall x,
          x ∈ messageIds
                (List.filter (fun pc => negb (bool_decide (chat_id pc ∈ del))) chats) ->
          x ∈ cur ->
          x ∈ (processPanelChats cur del chats (seen, pcs)).1).
Proof.
  induction chats as [|pc rest IH]; intros seen pcs.
  - exists []. simpl. rewrite app_nil_r.
    split; [set_solver|]. split; [done|]. split; [constructor|].
    split; intros x Hx; by apply elem_of_nil in Hx.
  - cbn [processPanelChats List.filter].
    destruct (bool_decide (chat_id pc ∈ del)); cbn [negb]; [apply IH|].
    destruct (processPanelChat_spec cur pc seen pcs)
      as (new1 & Hs1 & Hp1 & Hnd1 & Hnew1 & Hall1).
    destruct (processPanelChat cur pc (seen, pcs)) as [seen1 pcs1].
    cbn [fst snd] in *. subst seen1.
    destruct (IH (seen ∪ list_to_set new1) pcs1)
      as (new2 & Hs2 & Hp2 & Hnd2 & Hnew2 & Hall2).
    exists (new1 ++ new2). rewrite Hs2.
    unfold messageIds at 2 3. cbn [flat_map]. fold (messageIds (List.filter
      (fun pc0 => negb (bool_decide (chat_id pc0 ∈ del))) rest)).
    split; [set_solver|].
    split; [by rewrite Hp2, Hp1, app_assoc|].
    split.
    { apply NoDup_app. split; [done|]. split; [|done].
      intros x Hx1 Hx2%Hnew2. set_solver. }
    split.
    + intros x [Hx%Hnew1|Hx%Hnew2]%elem_of_app; set_solver.
    + intros x [Hx|Hx]%elem_of_app Hc.
      * specialize (Hall1 x Hx Hc). set_solver.
      * rewrite <- Hs2. by apply Hall2.
Qed.

End processCommit_facts.

(** ** History reconstruction: the walk over the commits *)

Section record_facts.
Import Types PanelGit WalkSpec.

Lemma NoDup_flat_map_unique {A B} (f : A -> list B) (l : list A) a b x :
  NoDup (flat_map f l) -> a ∈ l -> b ∈ l -> x ∈ f a -> x ∈ f b -> a = b.
Proof.
  induction l as [|c l IH]; simpl; [by rewrite elem_of_nil|].
  intros (Hc & Hdisj & Hl)%NoDup_app Ha Hb Hxa Hxb.
  assert (Hin : forall d, d ∈ l -> x ∈ f d -> x ∈ flat_map f l).
  { intros d Hd Hx. apply list_elem_of_In, in_flat_map. exists d.
    by rewrite <- !list_elem_of_In. }
  apply elem_of_cons in Ha as [->|Ha]; apply elem_of_cons in Hb as [->|Hb].
  - done.
  - exfalso. eapply Hdisj; [exact Hxa|]. by eapply Hin.
  - exfalso. eapply Hdisj; [exact Hxb|]. by eapply Hin.
  - by apply IH.
Qed.

Lemma attributedIds_elem commits x :
  x ∈ attributedIds commits
  <-> exists cd, cd ∈ commits /\ x ∈ messageIds (commitPanelChats cd).
Proof.
  unfold attributedIds. rewrite list_elem_of_In, in_flat_map.
  split; intros (cd & H1 & H2); exists cd; by rewrite ?list_elem_of_In in *.
Qed.

(** Find-or-create a commit by hash and let [process] fill it, where
    [process] treats the panel chats as [processPanelChats] does. *)
Lemma record_attributes cur parsed
    (process : gset string -> CommitData -> gset string * CommitData)
    h fresh st :
  (forall seen cd,
      (process seen cd).1
      = (processPanelChats cur (deletedPanelChatIdSet (ensureDeletedChats parsed))
           (panelChats parsed) (seen, commitPanelChats cd)).1
      /\ commitPanelChats (process seen cd).2
         = (processPanelChats cur (deletedPanelChatIdSet (ensureDeletedChats parsed))
              (panelChats parsed) (seen, commitPanelChats cd)).2
      /\ commitHash (process seen cd).2 = commitHash cd) ->
  commitHash fresh = h ->
  commitPanelChats fresh = [] ->
  exists new,
    Attributes cur h parsed st
      (match list_find (hasHash h) st.2 with
       | Some (i, cd) => ((process st.1 cd).1, <[i := (process st.1 cd).2]> st.2)
       | None => ((process st.1 fresh).1, st.2 ++ [(process st.1 fresh).2])
       end)
      new.
Proof.
  intros Hproc Hfresh Hempty. destruct st as [seen commits]. cbn [fst snd].
  destruct (list_find _ commits) as [[i cd]|] eqn:Hfind.
  - destruct (Hproc seen cd) as (H1 & H2 & H3).
    destruct (processPanelChats_spec cur
                (deletedPanelChatIdSet (ensureDeletedChats parsed))
                (panelChats parsed) seen (commitPanelChats cd))
      as (new & Hs & Hp & Hnd & Hnew & Hall).
    rewrite <- H1 in Hs, Hall. rewrite <- H2 in Hp.
    apply list_find_Some in Hfind as (Hi & Hh & _).
    assert (Hat : (process seen cd).2 ∈ <[i := (process seen cd).2]> commits).
    { eapply list_elem_of_lookup_2, list_lookup_insert_eq.
      by eapply lookup_lt_Some. }
    exists new. unfold Attributes. cbn [fst snd].
    split; [done|]. split.
    { unfold attributedIds. by apply (flat_map_insert_perm _ commits i cd). }
    split; [done|]. split; [done|]. split; [done|]. split.
    + intros cd0 [j Hj]%list_elem_of_lookup_1.
      destruct (decide (j = i)) as [->|Hne].
      * assert (cd0 = cd) as -> by congruence.
        exists (process seen cd).2. split; [done|]. split; [done|].
        intros x Hx. rewrite Hp. set_solver.
      * exists cd0. split; [|done].
        eapply list_elem_of_lookup_2. by rewrite list_lookup_insert_ne.
    + exists (process seen cd).2. split; [done|].
      split; [by rewrite H3|]. intros x Hx. rewrite Hp. set_solver.
  - destruct (Hproc seen fresh) as (H1 & H2 & H3).
    destruct (processPanelChats_spec cur
                (deletedPanelChatIdSet (ensureDeletedChats parsed))
                (panelChats parsed) seen (commitPanelChats fresh))
      as (new & Hs & Hp & Hnd & Hnew & Hall).
    rewrite <- H1 in Hs, Hall. rewrite <- H2 in Hp.
    rewrite Hempty in Hp. cbn [messageIds flat_map app] in Hp.
    exists new. unfold Attributes. cbn [fst snd].
    split; [done|]. split.
    { unfold attributedIds. rewrite flat_map_app. cbn [flat_map].
      by rewrite app_nil_r, Hp. }
    split; [done|]. split; [done|]. split; [done|]. split.
    + intros cd0 Hcd0. exists cd0. split; [set_solver|done].
    + exists (process seen fresh).2. split; [set_solver|].
      split; [by rewrite H3|]. intros x Hx. by rewrite Hp.
Qed.

End record_facts.

Section walk_facts.
Import Types PanelGit WalkSpec.

Variable cur : gset string.
Variable step : gset string * list CommitData -> string -> gset string * list CommitData.
Variable snap : string -> option StashedState.

Hypothesis step_skip : forall st line, snap line = None -> step st line = st.
Hypothesis step_record : forall st line parsed,
  snap line = Some parsed ->
  exists new, Attributes cur (hashOf line) parsed st (step st line) new.

Lemma walk_inv_step st line : WalkInv cur st -> WalkInv cur (step st line).
Proof.
  intros [Hnd Hin]. destruct (snap line) as [parsed|] eqn:Hs.
  - destruct (step_record st line parsed Hs)
      as (new & H1 & H2 & H3 & H4 & _).
    split.
    + rewrite H2. apply NoDup_app. split; [done|]. split; [|done].
      intros x Hx%Hin Hx'%H4. tauto.
    + intros x. rewrite H2, H1, elem_of_app.
      intros [Hx%Hin|Hx]; [set_solver|]. specialize (H4 x Hx). set_solver.
  - by rewrite step_skip.
Qed.

Lemma walk_inv_foldl lines : forall st,
  WalkInv cur st -> WalkInv cur (foldl step st lines).
Proof.
  induction lines as [|line lines IH]; intros st H; [done|].
  simpl. by apply IH, walk_inv_step.
Qed.

(** An id that no recorded snapshot shows in a live chat stays unseen. *)
Lemma walk_unseen x lines : forall st,
  x ∉ st.1 ->
  (forall line parsed, line ∈ lines -> snap line = Some parsed ->
                       x ∉ liveMessageIds parsed) ->
  x ∉ (foldl step st lines).1.
Proof.
  induction lines as [|line lines IH]; intros st Hx Hlines; [done|].
  simpl. apply IH; [|intros l p Hl; apply Hlines; set_solver].
  destruct (snap line) as [parsed|] eqn:Hs; [|by rewrite step_skip].
  destruct (step_record st line parsed Hs) as (new & -> & _ & _ & H4 & _).
  intros [Hin|Hin%elem_of_list_to_set]%elem_of_union; [done|].
  apply H4 in Hin as (_ & _ & Hlive).
  apply (Hlines line parsed); [set_solver|done|done].
Qed.

(** Commits stay in the map and never lose a message. *)
Lemma walk_monotone lines : forall st cd,
  cd ∈ st.2 ->
  exists cd', cd' ∈ (foldl step st lines).2
              /\ commitHash cd' = commitHash cd
              /\ messageIds (commitPanelChats cd)
                 ⊆ messageIds (commitPanelChats cd').
Proof.
  induction lines as [|line lines IH]; intros st cd Hcd.
  - exists cd. done.
  - simpl.
    assert (exists cd1, cd1 ∈ (step st line).2
                        /\ commitHash cd1 = commitHash cd
                        /\ messageIds (commitPanelChats cd)
                           ⊆ messageIds (commitPanelChats cd1))
      as (cd1 & Hcd1 & Hh1 & Hsub1).
    { destruct (snap line) as [parsed|] eqn:Hs.
      - destruct (step_record st line parsed Hs)
          as (new & _ & _ & _ & _ & _ & Hmono & _). by apply Hmono.
      - rewrite step_skip by done. by exists cd. }
    destruct (IH _ cd1 Hcd1) as (cd' & Hcd' & Hh' & Hsub').
    exists cd'. split; [done|]. split; [congruence|]. set_solver.
Qed.

(** Earliest attribution, on the state of the walk. *)
Lemma walk_earliest x l1 line1 l2 parsed1 st :
  WalkInv cur st ->
  x ∈ cur ->
  x ∉ st.1 ->
  snap line1 = Some parsed1 ->
  x ∈ liveMessageIds parsed1 ->
  (forall line parsed, line ∈ l1 -> snap line = Some parsed ->
                       x ∉ liveMessageIds parsed) ->
  exists cd1,
    cd1 ∈ (foldl step st (l1 ++ line1 :: l2)).2
    /\ commitHash cd1 = hashOf line1
    /\ x ∈ messageIds (commitPanelChats cd1)
    /\ forall cd, cd ∈ (foldl step st (l1 ++ line1 :: l2)).2 ->
                  x ∈ messageIds (commitPanelChats cd) -> cd = cd1.
Proof.
  intros Hinv Hcur Hx Hs1 Hlive Hl1.
  pose proof (walk_inv_foldl (l1 ++ line1 :: l2) st Hinv) as [Hnd _].
  rewrite foldl_app in *. simpl in *.
  pose proof (walk_unseen x l1 st Hx Hl1) as Hunseen.
  set (st1 := foldl step st l1) in *.
  destruct (step_record st1 line1 parsed1 Hs1)
    as (new & H1 & _ & _ & _ & Hall & _ & (cd0 & Hcd0 & Hh0 & Hsub0)).
  assert (x ∈ new) as Hnew.
  { specialize (Hall x Hlive Hcur). rewrite H1 in Hall. set_solver. }
  destruct (walk_monotone l2 _ cd0 Hcd0) as (cd1 & Hcd1 & Hh1 & Hsub1).
  exists cd1. split; [done|]. split; [congruence|]. split; [set_solver|].
  intros cd Hcd Hxcd.
  apply (NoDup_flat_map_unique _ _ _ _ x Hnd Hcd Hcd1); [done|set_solver].
Qed.

End walk_facts.

(** ** The walk of src/src/extension.ts *)

Section extension_ts_facts.
Import Types PanelGit WalkSpec ExtensionTs.

Variable JSON_parse : string -> option StashedState.
Variable isStashedState : StashedState -> bool.
Variable env : Env.
Variables cur curPC : gset string.

Lemma ext_step_skip st line :
  snapshotAt JSON_parse isStashedState env line = None ->
  commitIteration JSON_parse isStashedState env cur curPC st line = st.
Proof.
  unfold snapshotAt, commitIteration.
  destruct (isDeletionCommit _); [done|].
  destruct (gitShow env _); [|done].
  destruct (JSON_parse _); [|done].
  by destruct (isStashedState _).
Qed.

Lemma ext_step_record st line parsed :
  snapshotAt JSON_parse isStashedState env line = Some parsed ->
  exists new,
    Attributes cur (hashOf line) parsed st
      (commitIteration JSON_parse isStashedState env cur curPC st line) new.
Proof.
  unfold snapshotAt, commitIteration.
  destruct (isDeletionCommit _); [done|].
  destruct (gitShow env _); [|done].
  destruct (JSON_parse _) as [p|]; [|done].
  destruct (isStashedState p); [|done]. intros [= ->]. cbn [negb].
  unfold recordCommit.
  by apply (record_attributes cur parsed
              (fun seen cd => processCommit parsed cur curPC seen cd)).
Qed.

Lemma ext_walk_inv lines :
  WalkInv cur (walk JSON_parse isStashedState env cur curPC lines).
Proof.
  apply (walk_inv_foldl cur _ (snapshotAt JSON_parse isStashedState env)).
  - apply ext_step_skip.
  - apply ext_step_record.
  - split; [constructor|]. intros x Hx. by apply elem_of_nil in Hx.
Qed.

End extension_ts_facts.

(** ** The walk of src/gait_context.md *)

Section gait_context_facts.
Import Types PanelGit WalkSpec GaitContext.

Variable JSON_parse : string -> option StashedState.
Variable isStashedState : StashedState -> bool.
Variable env : Env.
Variables cur curInline : gset string.

Lemma md_step_skip st line :
  snapshotAt JSON_parse isStashedState env line = None ->
  commitIteration JSON_parse isStashedState env cur curInline st line = st.
Proof.
  unfold snapshotAt, commitIteration.
  destruct (gitShow env _); [|done].
  destruct (JSON_parse _); [|done].
  by destruct (isStashedState _).
Qed.

Lemma md_step_record st line parsed :
  snapshotAt JSON_parse isStashedState env line = Some parsed ->
  exists new,
    Attributes cur (hashOf line) parsed st
      (commitIteration JSON_parse isStashedState env cur curInline st line) new.
Proof.
  unfold snapshotAt, commitIteration.
  destruct (gitShow env _); [|done].
  destruct (JSON_parse _) as [p|]; [|done].
  destruct (isStashedState p); [|done]. intros [= ->]. cbn [negb].
  unfold recordCommit.
  by apply (record_attributes cur parsed
              (fun seen cd => processCommit parsed cur curInline seen cd)).
Qed.

Lemma md_walk_inv lines :
  WalkInv cur (walk JSON_parse isStashedState env cur curInline lines).
Proof.
  apply (walk_inv_foldl cur _ (snapshotAt JSON_parse isStashedState env)).
  - apply md_step_skip.
  - apply md_step_record.
  - split; [constructor|]. intros x Hx. by apply elem_of_nil in Hx.
Qed.

End gait_context_facts.

(** ** [getGitHistory]: the ids, the pruning and the surfaced chats *)

Section history_facts.
Import Types PanelGit WalkSpec StashedStateStore.

(** The active message ids avoid the ledger they were computed from. *)
Lemma collectCurrentIds_active s x :
  x ∈ (collectCurrentIds s).2 -> x ∉ deletedMessageIdSet s.
Proof.
  unfold collectCurrentIds.
  generalize (panelChats s). intros chats.
  assert (Hinner : forall msgs (ids : gset string),
    (forall y, y ∈ ids -> y ∉ deletedMessageIdSet s) ->
    forall y,
      y ∈ foldl (fun (ids : gset string) message =>
                   if bool_decide (msg_id message ∈ deletedMessageIdSet s) then ids
                   else {[msg_id message]} ∪ ids) ids msgs ->
      y ∉ deletedMessageIdSet s).
  { induction msgs as [|e msgs IH]; intros ids Hids y; simpl; [apply Hids|].
    apply IH. intros z. destruct (bool_decide _) eqn:E; [apply Hids|].
    apply bool_decide_eq_false in E.
    intros [->%elem_of_singleton|Hz]%elem_of_union; [done|by apply Hids]. }
  assert (Houter : forall (acc : gset string * gset string),
    (forall y, y ∈ acc.2 -> y ∉ deletedMessageIdSet s) ->
    x ∈ (foldl
           (fun (acc : gset string * gset string) panelChat =>
              if bool_decide (chat_id panelChat ∈ deletedPanelChatIdSet s) then acc
              else
                ({[chat_id panelChat]} ∪ acc.1,
                 foldl
                   (fun (ids : gset string) message =>
                      if bool_decide (msg_id message ∈ deletedMessageIdSet s) then ids
                      else {[msg_id message]} ∪ ids)
                   acc.2 (messages panelChat)))
           acc chats).2 ->
    x ∉ deletedMessageIdSet s).
  { induction chats as [|pc chats IH]; intros acc Hacc; simpl; [apply Hacc|].
    apply IH. destruct (bool_decide _); [done|]. cbn [snd].
    by apply Hinner. }
  apply Houter. intros y Hy. by apply not_elem_of_empty in Hy.
Qed.

Lemma messageIds_elem pcs x :
  x ∈ messageIds pcs <-> exists pc, pc ∈ pcs /\ x ∈ map msg_id (messages pc).
Proof.
  unfold messageIds. rewrite list_elem_of_In, in_flat_map.
  split; intros (pc & H1 & H2); exists pc; by rewrite ?list_elem_of_In in *.
Qed.

Lemma hasMessages_of_elem pc x :
  x ∈ map msg_id (messages pc) -> hasMessages pc = true.
Proof.
  unfold hasMessages. destruct (messages pc); [by rewrite elem_of_nil|done].
Qed.

Lemma messageIds_filter_hasMessages pcs :
  messageIds (List.filter hasMessages pcs) = messageIds pcs.
Proof.
  induction pcs as [|pc pcs IH]; [done|]. cbn [List.filter].
  destruct (hasMessages pc) eqn:E.
  - change (messageIds (pc :: ?l)) with (map msg_id (messages pc) ++ messageIds l).
    by rewrite IH.
  - change (messageIds (pc :: pcs)) with (map msg_id (messages pc) ++ messageIds pcs).
    unfold hasMessages in E. destruct (messages pc); [done|discriminate E].
Qed.

Lemma existsb_hasMessages pcs x :
  x ∈ messageIds pcs -> existsb hasMessages pcs = true.
Proof.
  intros (pc & Hpc & Hx)%messageIds_elem. apply existsb_exists.
  exists pc. split; [by apply list_elem_of_In|by eapply hasMessages_of_elem].
Qed.

(** The chats surfaced from a list of chats by a filter on the messages keep
    only messages that pass the filter. *)
Lemma surfaced_ids (keep : MessageEntry -> bool) (pcs : list PanelChat) x :
  x ∈ messageIds
        (List.filter hasMessages
           (map (fun pc => withMessages pc (List.filter keep (messages pc))) pcs)) ->
  exists e, msg_id e = x /\ keep e = true.
Proof.
  rewrite messageIds_filter_hasMessages.
  intros (pc' & Hpc' & Hx)%messageIds_elem.
  apply list_elem_of_fmap in Hpc' as (pc & -> & _).
  cbn [withMessages messages] in Hx.
  apply list_elem_of_fmap in Hx as (e & -> & [_ He]%list_elem_of_In%filter_In).
  by exists e.
Qed.

(** The "added" pass surfaces no message of the current ledger. *)
Lemma addedChat_ids del chats : forall st x,
  x ∈ messageIds (foldl (GaitContext.addedChat del) st chats).2 ->
  x ∈ messageIds st.2 \/ x ∉ del.
Proof.
  induction chats as [|pc chats IH]; intros st x; simpl; [by left|].
  intros [Hx|Hx]%IH; [|by right].
  unfold GaitContext.addedChat in Hx. cbn [snd] in Hx.
  rewrite messageIds_app, messageIds_withMessages in Hx.
  apply elem_of_app in Hx as [Hx|Hx]; [by left|]. right.
  apply list_elem_of_fmap in Hx as (e & -> & [_ He]%list_elem_of_In%filter_In).
  by apply andb_true_iff in He as [He%negb_true_iff%bool_decide_eq_false _].
Qed.

End history_facts.

Section getGitHistory_facts.
Import Types PanelGit WalkSpec StashedStateStore.

Variable JSON_parse : string -> option StashedState.
Variable isStashedState : StashedState -> bool.

(** What a normal return of the later text tells. *)
Lemma md_getGitHistory_Ok context env res :
  GaitContext.getGitHistory JSON_parse isStashedState context env = Ok res ->
  exists inl logData,
    GaitContext.existsSync env = true
    /\ inlineChats (GaitContext.currentSnapshot isStashedState context) = Some inl
    /\ GaitContext.gitLog env = Some logData
    /\ GaitContext.commits res
       = GaitContext.pruneCommits
           (GaitContext.walk JSON_parse isStashedState env
              (collectCurrentIds (GaitContext.currentSnapshot isStashedState context)).2
              (list_to_set (map inline_chat_id inl))
              (logLinesOf logData)).2
    /\ (forall x,
          x ∈ messageIds (GaitContext.uncommittedPanelChats (GaitContext.added res)) ->
          x ∉ deletedMessageIdSet (GaitContext.currentSnapshot isStashedState context))
    /\ (forall x,
          x ∈ messageIds (GaitContext.uncommittedPanelChats (GaitContext.uncommitted res)) ->
          x ∉ deletedMessageIdSet (GaitContext.currentSnapshot isStashedState context)).
Proof.
  unfold GaitContext.getGitHistory.
  destruct (GaitContext.existsSync env); [|done]. cbn [negb].
  destruct (collectCurrentIds _) as [pcIds mIds] eqn:Eids.
  destruct (inlineChats _) as [inl|]; [|done].
  destruct (GaitContext.gitLog env) as [logData|]; [|done].
  assert (forall l,
    Ok (A := GaitContext.GitHistoryData)
      (GaitContext.mkGitHistoryData
         (GaitContext.pruneCommits
            (GaitContext.walk JSON_parse isStashedState env mIds
               (list_to_set (map inline_chat_id inl)) (logLinesOf logData)).2)
         (GaitContext.mkUncommitted
            (List.filter hasMessages
               (foldl
                  (GaitContext.addedChat
                     (deletedMessageIdSet
                        (GaitContext.currentSnapshot isStashedState context)))
                  ((GaitContext.walk JSON_parse isStashedState env mIds
                      (list_to_set (map inline_chat_id inl))
                      (logLinesOf logData)).1, [])
                  (List.filter
                     (fun pc =>
                        negb (bool_decide
                                (chat_id pc
                                 ∈ deletedPanelChatIdSet
                                     (GaitContext.currentSnapshot isStashedState context))))
                     (panelChats (readStashedState context)))).2) [])
         (GaitContext.mkUncommitted l [])) = Ok res ->
    (forall x, x ∈ messageIds l ->
       x ∉ deletedMessageIdSet (GaitContext.currentSnapshot isStashedState context)) ->
    exists inl0 logData0,
      true = true /\ Some inl = Some inl0 /\ Some logData = Some logData0
      /\ GaitContext.commits res
         = GaitContext.pruneCommits
             (GaitContext.walk JSON_parse isStashedState env (pcIds, mIds).2
                (list_to_set (map inline_chat_id inl0)) (logLinesOf logData0)).2
      /\ (forall x,
            x ∈ messageIds (GaitContext.uncommittedPanelChats (GaitContext.added res)) ->
            x ∉ deletedMessageIdSet (GaitContext.currentSnapshot isStashedState context))
      /\ (forall x,
            x ∈ messageIds (GaitContext.uncommittedPanelChats (GaitContext.uncommitted res)) ->
            x ∉ deletedMessageIdSet (GaitContext.currentSnapshot isStashedState context)))
    as Hfinish.
  { intros l [= <-] Hl. exists inl, logData. cbn.
    split; [done|]. split; [done|]. split; [done|]. split; [done|].
    split; [|exact Hl].
    intros x. rewrite messageIds_filter_hasMessages.
    intros [Hx|Hx]%addedChat_ids; [|done].
    by apply elem_of_nil in Hx. }
  destruct (ws_currentPanelChats context) as [| | |l]; try done.
  - intros Hres. refine (Hfinish _ Hres _).
    intros x Hx. by apply elem_of_nil in Hx.
  - intros Hres. refine (Hfinish _ Hres _).
    intros x (e & <- & He)%surfaced_ids.
    by apply andb_true_iff in He as [He%negb_true_iff%bool_decide_eq_false _].
Qed.

(** What a normal return of the earlier text tells. *)
Lemma ext_getGitHistory_Ok env filePath res :
  ExtensionTs.getGitHistory JSON_parse isStashedState env filePath = Ok res ->
  exists logData,
    ExtensionTs.existsSync env = true
    /\ ExtensionTs.gitLog env = Some logData
    /\ ExtensionTs.gitStatus env <> None
    /\ ExtensionTs.commits res
       = List.filter (fun commit => existsb hasMessages (commitPanelChats commit))
           (ExtensionTs.walk JSON_parse isStashedState env
              (collectCurrentIds
                 (ExtensionTs.currentSnapshot JSON_parse isStashedState env)).2
              (collectCurrentIds
                 (ExtensionTs.currentSnapshot JSON_parse isStashedState env)).1
              (logLinesOf logData)).2
    /\ (forall u x,
          ExtensionTs.uncommitted res = Some u ->
          x ∈ messageIds (ExtensionTs.uncommittedPanelChats u) ->
          x ∈ (collectCurrentIds
                 (ExtensionTs.currentSnapshot JSON_parse isStashedState env)).2).
Proof.
  unfold ExtensionTs.getGitHistory.
  destruct (ExtensionTs.existsSync env); [|done]. cbn [negb].
  destruct (collectCurrentIds _) as [pcIds mIds] eqn:Eids.
  destruct (ExtensionTs.gitLog env) as [logData|]; [|done].
  destruct (ExtensionTs.gitStatus env) as [status|]; [|done].
  intros [= <-]. exists logData. cbn [ExtensionTs.commits ExtensionTs.uncommitted fst snd].
  split; [done|]. split; [done|]. split; [done|]. split; [done|].
  intros u x. unfold ExtensionTs.uncommittedChanges.
  destruct (_ || _); [|done]. destruct (0 <? _)%nat; [|done].
  intros [= <-]. cbn [ExtensionTs.uncommittedPanelChats].
  intros (e & <- & He)%surfaced_ids.
  by apply andb_true_iff in He as [_ He%bool_decide_eq_true].
Qed.

End getGitHistory_facts.

(** ** Attribution, deletion and pruning in [getGitHistory] *)

Section history_claims.
Import Types PanelGit WalkSpec StashedStateStore.

Variable JSON_parse : string -> option StashedState.
Variable isStashedState : StashedState -> bool.

Lemma pruneCommits_elem allCommits cd :
  cd ∈ GaitContext.pruneCommits allCommits ->
  exists c, c ∈ allCommits
            /\ cd = withCommitPanelChats c
                      (List.filter hasMessages (commitPanelChats c))
            /\ existsb hasMessages (commitPanelChats cd) = true.
Proof.
  unfold GaitContext.pruneCommits.
  intros [Hin Hex]%list_elem_of_In%filter_In.
  apply list_elem_of_In, list_elem_of_fmap in Hin as (c & -> & Hc).
  by exists c.
Qed.

Lemma pruneCommits_keeps allCommits c x :
  c ∈ allCommits ->
  x ∈ messageIds (commitPanelChats c) ->
  withCommitPanelChats c (List.filter hasMessages (commitPanelChats c))
  ∈ GaitContext.pruneCommits allCommits.
Proof.
  intros Hc Hx. unfold GaitContext.pruneCommits.
  apply list_elem_of_In, filter_In. split.
  - apply list_elem_of_In, list_elem_of_fmap. by exists c.
  - cbn [withCommitPanelChats commitPanelChats].
    apply (existsb_hasMessages _ x). by rewrite messageIds_filter_hasMessages.
Qed.

(** Empty-chat pruning in the later text, which applies both filters after
    the walk: in every commit that [getGitHistory] returns, every chat has at
    least one message and there is at least one chat. *)
Lemma later_text_empty_chat_pruning context env res :
  GaitContext.getGitHistory JSON_parse isStashedState context env = Ok res ->
  forall cd, cd ∈ GaitContext.commits res ->
    (forall pc, pc ∈ commitPanelChats cd -> (0 < List.length (messages pc))%nat)
    /\ (exists pc, pc ∈ commitPanelChats cd).
Proof.
  intros (inl & logData & _ & _ & _ & -> & _)%md_getGitHistory_Ok cd
    (c & Hc & -> & Hex)%pruneCommits_elem.
  split.
  - cbn [withCommitPanelChats commitPanelChats].
    intros pc [_ Hpc]%list_elem_of_In%filter_In.
    by apply Nat.ltb_lt.
  - apply existsb_exists in Hex as (pc & Hpc & _).
    exists pc. by apply list_elem_of_In.
Qed.

(** C2 (deletion monotonicity): a message id of the current ledger is in no
    commit that [getGitHistory] returns and in none of the surfaced chats:
    "added" and "uncommitted" in the later text, "uncommitted" in the
    earlier one. *)
Theorem deletion_monotonicity :
  (forall context env res m,
      GaitContext.getGitHistory JSON_parse isStashedState context env = Ok res ->
      m ∈ deletedMessageIdSet (GaitContext.currentSnapshot isStashedState context) ->
      (forall cd, cd ∈ GaitContext.commits res ->
                  m ∉ messageIds (commitPanelChats cd))
      /\ (m ∉ messageIds (GaitContext.uncommittedPanelChats (GaitContext.added res)))
      /\ m ∉ messageIds
               (GaitContext.uncommittedPanelChats (GaitContext.uncommitted res)))
  /\ (forall env filePath res m,
        ExtensionTs.getGitHistory JSON_parse isStashedState env filePath = Ok res ->
        m ∈ deletedMessageIdSet
              (ExtensionTs.currentSnapshot JSON_parse isStashedState env) ->
        (forall cd, cd ∈ ExtensionTs.commits res ->
                    m ∉ messageIds (commitPanelChats cd))
        /\ (forall u, ExtensionTs.uncommitted res = Some u ->
                      m ∉ messageIds (ExtensionTs.uncommittedPanelChats u))).
Proof.
  split.
  - intros context env res m
      (inl & logData & _ & _ & _ & Hcommits & Hadded & Hunc)%md_getGitHistory_Ok Hm.
    split; [|split; [intros H%Hadded|intros H%Hunc]; done].
    intros cd Hcd Hin. rewrite Hcommits in Hcd.
    apply pruneCommits_elem in Hcd as (c & Hc & -> & _).
    cbn [withCommitPanelChats commitPanelChats] in Hin.
    rewrite messageIds_filter_hasMessages in Hin.
    destruct (md_walk_inv JSON_parse isStashedState env
                (collectCurrentIds (GaitContext.currentSnapshot isStashedState context)).2
                (list_to_set (map inline_chat_id inl)) (logLinesOf logData))
      as [_ Hact].
    destruct (Hact m) as [_ Hcur]; [apply attributedIds_elem; eauto|].
    by apply collectCurrentIds_active in Hcur.
  - intros env filePath res m
      (logData & _ & _ & _ & Hcommits & Hunc)%ext_getGitHistory_Ok Hm.
    split.
    + intros cd Hcd Hin. rewrite Hcommits in Hcd.
      apply list_elem_of_In, filter_In in Hcd as [Hc%list_elem_of_In _].
      destruct (ext_walk_inv JSON_parse isStashedState env
                  (collectCurrentIds
                     (ExtensionTs.currentSnapshot JSON_parse isStashedState env)).2
                  (collectCurrentIds
                     (ExtensionTs.currentSnapshot JSON_parse isStashedState env)).1
                  (logLinesOf logData))
        as [_ Hact].
      destruct (Hact m) as [_ Hcur]; [apply attributedIds_elem; eauto|].
      by apply collectCurrentIds_active in Hcur.
    + intros u Hu Hin. specialize (Hunc u m Hu Hin).
      by apply collectCurrentIds_active in Hunc.
Qed.

(** C1 (earliest attribution): let [m] be active in the current snapshot and
    let [line1] be the first commit of the walk in which [m] appears, that
    is, whose snapshot shows [m] in a chat that [processCommit] visits (one
    that the commit's own ledger does not list as deleted; with a ledger
    that only grows, an active message is in no other chat).  Then the commit
    data of [line1] is returned and has [m], and no other returned commit
    data has [m]; in particular not that of a later commit with another
    hash.  This holds for both texts of [getGitHistory]. *)
Theorem earliest_attribution :
  (forall context env res logData l1 line1 l2 parsed1 m,
      GaitContext.getGitHistory JSON_parse isStashedState context env = Ok res ->
      GaitContext.gitLog env = Some logData ->
      logLinesOf logData = l1 ++ line1 :: l2 ->
      m ∈ (collectCurrentIds (GaitContext.currentSnapshot isStashedState context)).2 ->
      GaitContext.snapshotAt JSON_parse isStashedState env line1 = Some parsed1 ->
      m ∈ liveMessageIds parsed1 ->
      (forall line parsed,
          line ∈ l1 ->
          GaitContext.snapshotAt JSON_parse isStashedState env line = Some parsed ->
          m ∉ liveMessageIds parsed) ->
      exists cd1,
        cd1 ∈ GaitContext.commits res
        /\ commitHash cd1 = hashOf line1
        /\ m ∈ messageIds (commitPanelChats cd1)
        /\ (forall cd, cd ∈ GaitContext.commits res ->
                       m ∈ messageIds (commitPanelChats cd) -> cd = cd1)
        /\ (forall line2 cd2,
              line2 ∈ l2 -> hashOf line2 <> hashOf line1 ->
              cd2 ∈ GaitContext.commits res -> commitHash cd2 = hashOf line2 ->
              m ∉ messageIds (commitPanelChats cd2)))
  /\ (forall env filePath res logData l1 line1 l2 parsed1 m,
        ExtensionTs.getGitHistory JSON_parse isStashedState env filePath = Ok res ->
        ExtensionTs.gitLog env = Some logData ->
        logLinesOf logData = l1 ++ line1 :: l2 ->
        m ∈ (collectCurrentIds
               (ExtensionTs.currentSnapshot JSON_parse isStashedState env)).2 ->
        ExtensionTs.snapshotAt JSON_parse isStashedState env line1 = Some parsed1 ->
        m ∈ liveMessageIds parsed1 ->
        (forall line parsed,
            line ∈ l1 ->
            ExtensionTs.snapshotAt JSON_parse isStashedState env line = Some parsed ->
            m ∉ liveMessageIds parsed) ->
        exists cd1,
          cd1 ∈ ExtensionTs.commits res
          /\ commitHash cd1 = hashOf line1
          /\ m ∈ messageIds (commitPanelChats cd1)
          /\ (forall cd, cd ∈ ExtensionTs.commits res ->
                         m ∈ messageIds (commitPanelChats cd) -> cd = cd1)
          /\ (forall line2 cd2,
                line2 ∈ l2 -> hashOf line2 <> hashOf line1 ->
                cd2 ∈ ExtensionTs.commits res -> commitHash cd2 = hashOf line2 ->
                m ∉ messageIds (commitPanelChats cd2))).
Proof.
  split.
  - intros context env res logData l1 line1 l2 parsed1 m
      (inl & logData' & _ & _ & Hlog & Hcommits & _)%md_getGitHistory_Ok
      Hlog' Hlines Hcur Hs1 Hlive Hl1.
    assert (logData' = logData) as -> by congruence.
    rewrite Hcommits. unfold GaitContext.walk. rewrite Hlines.
    destruct (walk_earliest
                (collectCurrentIds (GaitContext.currentSnapshot isStashedState context)).2
                (GaitContext.commitIteration JSON_parse isStashedState env
                   (collectCurrentIds (GaitContext.currentSnapshot isStashedState context)).2
                   (list_to_set (map inline_chat_id inl)))
                (GaitContext.snapshotAt JSON_parse isStashedState env)
                (md_step_skip _ _ _ _ _) (md_step_record _ _ _ _ _)
                m l1 line1 l2 parsed1 (∅, []))
      as (c1 & Hc1 & Hh1 & Hm1 & Huniq); try done.
    { split; [constructor|]. intros x Hx. by apply elem_of_nil in Hx. }
    set (W := foldl _ _ _) in *.
    assert (Hmain : forall cd, cd ∈ GaitContext.pruneCommits W.2 ->
              m ∈ messageIds (commitPanelChats cd) ->
              cd = withCommitPanelChats c1
                     (List.filter hasMessages (commitPanelChats c1))).
    { intros cd (c & Hc & -> & _)%pruneCommits_elem Hin.
      cbn [withCommitPanelChats commitPanelChats] in Hin.
      rewrite messageIds_filter_hasMessages in Hin.
      by rewrite (Huniq c Hc Hin). }
    exists (withCommitPanelChats c1 (List.filter hasMessages (commitPanelChats c1))).
    split; [by eapply pruneCommits_keeps|]. split; [done|].
    split; [cbn [withCommitPanelChats commitPanelChats];
            by rewrite messageIds_filter_hasMessages|].
    split; [exact Hmain|].
    intros line2 cd2 _ Hne Hcd2 Hh2 Hin.
    rewrite (Hmain cd2 Hcd2 Hin) in Hh2.
    cbn [withCommitPanelChats commitHash] in Hh2. congruence.
  - intros env filePath res logData l1 line1 l2 parsed1 m
      (logData' & _ & Hlog & _ & Hcommits & _)%ext_getGitHistory_Ok
      Hlog' Hlines Hcur Hs1 Hlive Hl1.
    assert (logData' = logData) as -> by congruence.
    rewrite Hcommits. unfold ExtensionTs.walk. rewrite Hlines.
    destruct (walk_earliest
                (collectCurrentIds
                   (ExtensionTs.currentSnapshot JSON_parse isStashedState env)).2
                (ExtensionTs.commitIteration JSON_parse isStashedState env
                   (collectCurrentIds
                      (ExtensionTs.currentSnapshot JSON_parse isStashedState env)).2
                   (collectCurrentIds
                      (ExtensionTs.currentSnapshot JSON_parse isStashedState env)).1)
                (ExtensionTs.snapshotAt JSON_parse isStashedState env)
                (ext_step_skip _ _ _ _ _) (ext_step_record _ _ _ _ _)
                m l1 line1 l2 parsed1 (∅, []))
      as (c1 & Hc1 & Hh1 & Hm1 & Huniq); try done.
    { split; [constructor|]. intros x Hx. by apply elem_of_nil in Hx. }
    set (W := foldl _ _ _) in *.
    assert (Hmain : forall cd,
              cd ∈ List.filter
                     (fun commit => existsb hasMessages (commitPanelChats commit)) W.2 ->
              m ∈ messageIds (commitPanelChats cd) -> cd = c1).
    { intros cd [Hc%list_elem_of_In _]%list_elem_of_In%filter_In Hin.
      by apply Huniq. }
    exists c1. split.
    { apply list_elem_of_In, filter_In. split; [by apply list_elem_of_In|].
      by eapply existsb_hasMessages. }
    split; [done|]. split; [done|]. split; [exact Hmain|].
    intros line2 cd2 _ Hne Hcd2 Hh2 Hin.
    rewrite (Hmain cd2 Hcd2 Hin) in Hh2. congruence.
Qed.

End history_claims.

(** ** Failure boundary and schema tolerance (src/src/extension.ts) *)

Section boundary_facts.
Import Types PanelGit WalkSpec.

Variable JSON_parse : string -> option StashedState.
Variable isStashedState : StashedState -> bool.

(** The earlier text (src/src/extension.ts) throws exactly when the tracked
    file is missing, the commit list cannot be retrieved, or [git status],
    asked after the walk, fails.  A commit whose content cannot be read, does
    not parse or does not validate is skipped: the walk ends as it does on
    the log without that line. *)
Lemma earlier_text_failure_boundary env filePath :
  ((exists e, ExtensionTs.getGitHistory JSON_parse isStashedState env filePath
              = Throw e)
   <-> (ExtensionTs.existsSync env = false
        \/ ExtensionTs.gitLog env = None
        \/ ExtensionTs.gitStatus env = None))
  /\ (forall line,
        (ExtensionTs.gitShow env (hashOf line) = None
         \/ exists fileContent,
              ExtensionTs.gitShow env (hashOf line) = Some fileContent
              /\ (JSON_parse fileContent = None
                  \/ exists parsed,
                       JSON_parse fileContent = Some parsed
                       /\ isStashedState parsed = false)) ->
        forall cur curPC l1 l2,
          ExtensionTs.walk JSON_parse isStashedState env cur curPC (l1 ++ line :: l2)
          = ExtensionTs.walk JSON_parse isStashedState env cur curPC (l1 ++ l2)).
Proof.
  split.
  - unfold ExtensionTs.getGitHistory.
    destruct (ExtensionTs.existsSync env); cbn [negb].
    2:{ split; [by left|]. by exists FileNotFound. }
    destruct (collectCurrentIds _) as [pcIds mIds].
    destruct (ExtensionTs.gitLog env).
    2:{ split; [by right; left|]. by exists GitLogFailed. }
    destruct (ExtensionTs.gitStatus env).
    2:{ split; [by right; right|]. by exists GitStatusFailed. }
    split; [by intros [e He]|]. by intros [?|[?|?]].
  - intros line Hfail cur curPC l1 l2.
    unfold ExtensionTs.walk. rewrite !foldl_app. cbn [foldl]. f_equal.
    apply ext_step_skip. unfold ExtensionTs.snapshotAt. fold (hashOf line).
    destruct (ExtensionTs.isDeletionCommit _); [done|].
    destruct Hfail as [->|(c & -> & [->|(p & -> & ->)])]; done.
Qed.

(** The loop of the later text (src/gait_context.md) skips a failing commit
    in the same way. *)
Lemma later_text_failure_boundary env line :
  GaitContext.snapshotAt JSON_parse isStashedState env line = None ->
  forall cur curInline l1 l2,
    GaitContext.walk JSON_parse isStashedState env cur curInline
      (l1 ++ line :: l2)
    = GaitContext.walk JSON_parse isStashedState env cur curInline (l1 ++ l2).
Proof.
  intros Hskip cur curInline l1 l2.
  unfold GaitContext.walk. rewrite !foldl_app. cbn [foldl]. f_equal.
  by apply md_step_skip.
Qed.


(** The earlier text filters commits only: each returned commit has a chat
    with a message (its other chats may be empty, see
    [earlier_text_history]). *)
Lemma earlier_text_commit_pruning env filePath res :
  ExtensionTs.getGitHistory JSON_parse isStashedState env filePath = Ok res ->
  forall cd, cd ∈ ExtensionTs.commits res ->
    exists pc, pc ∈ commitPanelChats cd /\ (0 < List.length (messages pc))%nat.
Proof.
  intros (logData & _ & _ & _ & -> & _)%ext_getGitHistory_Ok cd
    [_ (pc & Hpc & Hm)%existsb_exists]%list_elem_of_In%filter_In.
  exists pc. split; [by apply list_elem_of_In|by apply Nat.ltb_lt].
Qed.

Lemma ensureDeletedChats_missing parsed :
  missingLedger parsed -> ensureDeletedChats parsed = withEmptyLedger parsed.
Proof.
  unfold ensureDeletedChats, withEmptyLedger. by intros [->| ->].
Qed.

Lemma ensureDeletedChats_withEmptyLedger parsed :
  ensureDeletedChats (withEmptyLedger parsed) = withEmptyLedger parsed.
Proof. reflexivity. Qed.


End boundary_facts.

(** ** Examples, witnesses and the counterexample to the failure boundary *)

Section history_examples.
Import Types PanelGit WalkSpec StashedStateStore HistoryExamples.

(** The later text on the example history: h0 is skipped, m1 goes to h1
    only, m2 to h2, the deleted m3 and its chat B appear nowhere. *)
Example later_text_history :
  (fun res =>
     match res with
     | Ok r =>
         Some (map (fun cd => (commitHash cd,
                               map (fun pc => (chat_id pc, map msg_id (messages pc)))
                                 (commitPanelChats cd)))
                 (GaitContext.commits r))
     | Throw _ => None
     end)
    (GaitContext.getGitHistory exampleParse exampleValid laterContext laterEnv)
  = Some [("h1", [("A", ["m1"])]); ("h2", [("A", ["m2"])])].
Proof. vm_compute. reflexivity. Qed.

(** The earlier text on the same history: same attribution, but it has no
    filter on the chats of a commit, so the shell of chat B stays in both
    commits. *)
Example earlier_text_history :
  (fun res =>
     match res with
     | Ok r =>
         Some (map (fun cd => (commitHash cd,
                               map (fun pc => (chat_id pc, map msg_id (messages pc)))
                                 (commitPanelChats cd)))
                 (ExtensionTs.commits r))
     | Throw _ => None
     end)
    (ExtensionTs.getGitHistory exampleParse exampleValid earlierEnv "stashedPanelChats.json")
  = Some [("h1", [("A", ["m1"]); ("B", [])]); ("h2", [("A", ["m2"]); ("B", [])])].
Proof. vm_compute. reflexivity. Qed.

Lemma earliest_attribution_witness :
  exists res cd1,
    GaitContext.getGitHistory exampleParse exampleValid laterContext laterEnv = Ok res
    /\ cd1 ∈ GaitContext.commits res
    /\ commitHash cd1 = hashOf line_h1
    /\ "m1" ∈ messageIds (commitPanelChats cd1)
    /\ (forall cd, cd ∈ GaitContext.commits res ->
                   "m1" ∈ messageIds (commitPanelChats cd) -> cd = cd1).
Proof.
  eexists.
  assert (Hres : GaitContext.getGitHistory exampleParse exampleValid
                   laterContext laterEnv = Ok _) by (vm_compute; reflexivity).
  destruct (proj1 (earliest_attribution exampleParse exampleValid)
              laterContext laterEnv _ exampleLog [] line_h1 [line_h0; line_h2]
              snapshot1 "m1" Hres)
    as (cd1 & H1 & H2 & H3 & H4 & _).
  - reflexivity.
  - vm_compute. reflexivity.
  - apply (bool_decide_unpack _). vm_compute. exact I.
  - vm_compute. reflexivity.
  - apply (bool_decide_unpack _). vm_compute. exact I.
  - intros line parsed Hline. by apply elem_of_nil in Hline.
  - exists cd1. auto.
Defined.

Lemma deletion_monotonicity_witness :
  exists res,
    GaitContext.getGitHistory exampleParse exampleValid laterContext laterEnv = Ok res
    /\ "m3" ∈ deletedMessageIdSet (GaitContext.currentSnapshot exampleValid laterContext)
    /\ (forall cd, cd ∈ GaitContext.commits res ->
                   "m3" ∉ messageIds (commitPanelChats cd))
    /\ ("m3" ∉ messageIds (GaitContext.uncommittedPanelChats (GaitContext.added res)))
    /\ "m3" ∉ messageIds
                (GaitContext.uncommittedPanelChats (GaitContext.uncommitted res)).
Proof.
  eexists.
  assert (Hres : GaitContext.getGitHistory exampleParse exampleValid
                   laterContext laterEnv = Ok _) by (vm_compute; reflexivity).
  assert (Hm : "m3" ∈ deletedMessageIdSet
                        (GaitContext.currentSnapshot exampleValid laterContext))
    by (apply (bool_decide_unpack _); vm_compute; exact I).
  split; [exact Hres|]. split; [exact Hm|].
  exact (proj1 (deletion_monotonicity exampleParse exampleValid)
           laterContext laterEnv _ "m3" Hres Hm).
Defined.

Example later_text_prunes_example :
  exists res,
    GaitContext.getGitHistory exampleParse exampleValid laterContext laterEnv = Ok res
    /\ forall cd, cd ∈ GaitContext.commits res ->
         (forall pc, pc ∈ commitPanelChats cd -> (0 < List.length (messages pc))%nat)
         /\ (exists pc, pc ∈ commitPanelChats cd).
Proof.
  eexists. split; [vm_compute; reflexivity|].
  by apply (later_text_empty_chat_pruning exampleParse exampleValid
              laterContext laterEnv).
Qed.

(** C3 (empty-chat pruning) at an input where the earlier text breaks it:
    chat B of commit h1 holds only m3, which the working copy's ledger lists
    as deleted; [getGitHistory] of src/src/extension.ts, which filters the
    commits but not the chats of a commit, returns commit h1 with chat B in
    it and no message in chat B. *)
Theorem earlier_text_keeps_empty_chat :
  exists res cd pc,
    ExtensionTs.getGitHistory exampleParse exampleValid earlierEnv
      "stashedPanelChats.json" = Ok res
    /\ ExtensionTs.commits res !! 0%nat = Some cd
    /\ commitHash cd = "h1"
    /\ commitPanelChats cd !! 1%nat = Some pc
    /\ chat_id pc = "B"
    /\ messages pc = [].
Proof.
  eexists _, _, _.
  split; [vm_compute; reflexivity|].
  split; [reflexivity|]. split; [reflexivity|].
  split; [reflexivity|]. split; reflexivity.
Qed.




End history_examples.

(** ** More about the range matcher *)

Section matcher_order_facts.
Import JsString InlineDecoration MatcherSpec MatcherExamples Decoration.

Lemma StronglySorted_seqZ m (n : nat) :
  StronglySorted Z.lt (seqZ m (Z.of_nat n)).
Proof.
  revert m. induction n as [|n IH]; intros m; [constructor|].
  rewrite seqZ_cons by lia.
  replace (Z.pred (Z.of_nat (S n))) with (Z.of_nat n) by lia.
  constructor; [apply IH|].
  apply Forall_forall. intros x Hx%elem_of_seqZ. lia.
Qed.

Lemma StronglySorted_seqZ_any m n : StronglySorted Z.lt (seqZ m n).
Proof.
  destruct (Z.le_gt_cases 0 n).
  - rewrite <- (Z2Nat.id n) by done. apply StronglySorted_seqZ.
  - rewrite seqZ_nil by lia. constructor.
Qed.

Lemma StronglySorted_List_filter {A} (R : relation A) (P : A -> bool) l :
  StronglySorted R l -> StronglySorted R (List.filter P l).
Proof.
  induction 1 as [|x l Hl IH Hx]; simpl; [constructor|].
  destruct (P x); [|done]. constructor; [done|].
  rewrite Forall_forall in *. intros y [Hy _]%list_elem_of_In%filter_In.
  by apply Hx, list_elem_of_In.
Qed.

Lemma map_startLine_lineRange doc l :
  map startLine (map (lineRange doc) l) = l.
Proof. induction l as [|j l IH]; simpl; [done|]. by rewrite IH. Qed.

Lemma closeRun_sorted doc occ s e :
  StronglySorted Z.lt (map startLine (closeRun doc occ s e)).
Proof.
  unfold closeRun. destruct (_ <=? _)%nat.
  - rewrite map_startLine_lineRange. apply StronglySorted_seqZ_any.
  - destruct (_ =? _)%nat; [|constructor].
    destruct (_ && _); repeat constructor.
Qed.

(** The loop pushes the ranges in increasing order of line. *)
Lemma groupRuns_sorted doc occ ms : forall start acc,
  StronglySorted Z.lt ms ->
  (forall c, c ∈ ms -> 0 <= c) ->
  (start = -1 \/ (0 <= start /\ forall c, c ∈ ms -> start <= c)) ->
  StronglySorted Z.lt (map startLine acc) ->
  (start <> -1 -> forall r, r ∈ acc -> startLine r < start) ->
  (start = -1 -> forall r c, r ∈ acc -> c ∈ ms -> startLine r < c) ->
  StronglySorted Z.lt (map startLine (groupRuns doc occ ms start acc)).
Proof.
  induction ms as [|c rest IH]; intros start acc Hms Hpos Hstart Hacc H1 H2;
    [done|].
  rewrite groupRuns_cons.
  apply StronglySorted_inv in Hms as [Hrest Hc]. rewrite Forall_forall in Hc.
  assert (Hc0 : 0 <= c) by (apply Hpos; set_solver).
  set (start' := if start =? -1 then c else start).
  assert (Hs' : 0 <= start' <= c).
  { subst start'. destruct (Z.eqb_spec start (-1)); [lia|].
    destruct Hstart as [?|[? Hle]]; [done|]. split; [done|]. apply Hle. set_solver. }
  assert (Hlow : forall r, r ∈ acc -> startLine r < start').
  { intros r Hr. subst start'. destruct (Z.eqb_spec start (-1)) as [E|E].
    - apply H2; [done|done|set_solver].
    - by apply H1. }
  destruct (match rest with [] => true | nextLine :: _ => negb (nextLine =? c + 1) end).
  - apply IH.
    + done.
    + intros c' Hc'. apply Hpos. set_solver.
    + by left.
    + rewrite map_app. apply StronglySorted_app_2; [|done|apply closeRun_sorted].
      intros x1 x2 (r1 & -> & Hr1)%list_elem_of_fmap
        (r2 & -> & (j & -> & Hj)%closeRun_elem)%list_elem_of_fmap.
      apply Hlow in Hr1. simpl. lia.
    + done.
    + intros _ r c' [Hr|(j & -> & Hj)%closeRun_elem]%elem_of_app Hc'.
      * apply Hlow in Hr. apply Hc in Hc'. lia.
      * apply Hc in Hc'. simpl. lia.
  - apply IH.
    + done.
    + intros c' Hc'. apply Hpos. set_solver.
    + right. split; [lia|]. intros c' Hc'%Hc. lia.
    + done.
    + intros Hne r Hr. by apply Hlow.
    + intros Hne. lia.
Qed.

Lemma matchDiff_sorted text diff :
  StronglySorted Z.lt (map startLine (matchDiffToCurrentFile text diff)).
Proof.
  destruct (Nat.lt_ge_cases (size (addedLinesSet diff)) 5) as [Hlt|Hge].
  - destruct (Nat.eq_dec (size (addedLinesSet diff)) 0%nat) as [H0|H0].
    + unfold matchDiffToCurrentFile. rewrite H0. constructor.
    + rewrite matchDiff_small by lia. cbv zeta.
      rewrite map_startLine_lineRange, scanLines_all.
      apply StronglySorted_List_filter, StronglySorted_List_filter,
        StronglySorted_seqZ.
  - rewrite matchDiff_large by done. cbv zeta. rewrite scanLines_all.
    apply groupRuns_sorted.
    + apply StronglySorted_List_filter, StronglySorted_seqZ.
    + intros c [Hc%list_elem_of_In%elem_of_seqZ _]%list_elem_of_In%filter_In. lia.
    + by left.
    + constructor.
    + intros _ r Hr. by apply elem_of_nil in Hr.
    + intros _ r c Hr. by apply elem_of_nil in Hr.
Qed.

Lemma StronglySorted_lt_NoDup (l : list Z) : StronglySorted Z.lt l -> NoDup l.
Proof.
  induction 1 as [|x l Hl IH Hx]; [constructor|].
  apply NoDup_cons. split; [|done]. rewrite Forall_forall in Hx.
  intros Hin%Hx. lia.
Qed.

(** X1: The ranges come back in strictly increasing order of line, so no line
    of the document is returned twice, and there are at most as many ranges
    as the document has lines. *)
Theorem matcher_ranges_increasing text diff :
  StronglySorted Z.lt (map startLine (matchDiffToCurrentFile text diff))
  /\ NoDup (matchDiffToCurrentFile text diff)
  /\ (List.length (matchDiffToCurrentFile text diff)
      <= List.length (split LF text))%nat.
Proof.
  pose proof (matchDiff_sorted text diff) as Hsorted.
  pose proof (StronglySorted_lt_NoDup _ Hsorted) as Hnd.
  split; [done|]. split; [by eapply NoDup_fmap_1|].
  rewrite <- (length_map startLine), <- (Nat2Z.id (List.length (split LF text))).
  rewrite <- (length_seqZ 0).
  apply submseteq_length, NoDup_submseteq; [done|].
  intros j (r & -> & (j0 & -> & Hj0)%matchDiff_elem)%list_elem_of_fmap.
  apply scanLines_in_range in Hj0 as [Hj0 _]. apply elem_of_seqZ. simpl. lia.
Qed.

(** X2: The matcher looks only at the added fragments, and at them as a set: two
    diffs with the same added fragments, in any order and with any
    repetition, and with any removed or unchanged fragments besides, give
    the same ranges. *)
Theorem matcher_depends_on_added_set text diff diff' :
  (forall change, added change = true -> (change ∈ diff <-> change ∈ diff')) ->
  matchDiffToCurrentFile text diff = matchDiffToCurrentFile text diff'.
Proof.
  intros H.
  assert (addedLinesSet diff = addedLinesSet diff') as Hset.
  { apply set_eq. intros t. rewrite !addedLinesSet_elem.
    split; intros [(change & l & Hc & Ha & Hl) Hlen]; (split; [|done]);
      exists change, l; (split; [by apply (H change Ha)|done]). }
  unfold matchDiffToCurrentFile. by rewrite Hset.
Qed.

Lemma matcher_depends_on_added_set_witness :
  matchDiffToCurrentFile twoRunDocument sixLineChange
  = matchDiffToCurrentFile twoRunDocument
      (mkChange "alpha" false true :: sixLineChange ++ sixLineChange).
Proof.
  apply matcher_depends_on_added_set.
  intros change Ha. rewrite elem_of_cons, elem_of_app.
  split; [intros H; right; by left|].
  intros [->|[H|H]]; [discriminate Ha|done|done].
Defined.

(** X3: A maximal run with exactly one alphanumeric line gives the range of its
    first line when that first line is the alphanumeric one, is no import
    statement and occurs once in the file, and gives nothing otherwise: in
    particular nothing when the alphanumeric line is not the first of the
    run. *)
Theorem one_meaningful_line_run text diff s e r :
  (5 <= size (addedLinesSet diff))%nat ->
  maximalRun (addedLinesSet diff) (split LF text) s e ->
  countAlnumLines (split LF text) s e = 1%nat ->
  (r ∈ matchDiffToCurrentFile text diff /\ s <= startLine r <= e)
  <-> (r = lineRange (split LF text) s
       /\ testAlnum (trim (lineAt (split LF text) s)) = true
       /\ startsWith (trim (lineAt (split LF text) s)) "import " = false
       /\ occurrences (split LF text) (trim (lineAt (split LF text) s)) = 1).
Proof.
  intros Hsize Hrun Hk. rewrite matchDiff_large by done. cbv zeta.
  set (doc := split LF text) in *. set (aset := addedLinesSet diff) in *.
  set (occ := (scanLines aset doc 0 ([], ∅)).2).
  destruct (groupRuns_maximalRun aset doc occ s e Hrun)
    as (before & after & -> & Hbefore & Hafter).
  assert (Hs : trim (lineAt doc s) ∈ aset).
  { destruct Hrun as (Hse & Hall & _).
    by apply (matchesLine_range aset doc s), Hall. }
  assert (Hclose : closeRun doc occ s e
                   = if testAlnum (trim (lineAt doc s))
                        && negb (startsWith (trim (lineAt doc s)) "import ")
                        && (occurrences doc (trim (lineAt doc s)) =? 1)
                     then [lineRange doc s] else []).
  { unfold closeRun. rewrite Hk. cbn [Nat.leb Nat.eqb].
    rewrite isMeaningfulLine_trim. unfold isMeaningfulLine.
    replace (bool_decide (occ !! trim (lineAt doc s) = Some 1))
      with (occurrences doc (trim (lineAt doc s)) =? 1).
    2:{ apply eq_true_iff_eq. rewrite bool_decide_eq_true, Z.eqb_eq.
        symmetry. by apply scanLines_once. }
    by rewrite andb_comm. }
  rewrite Hclose. split.
  - intros [[Hr|[Hr|Hr]%elem_of_app]%elem_of_app Hin].
    + apply Hbefore in Hr. lia.
    + destruct (_ && _ && _) eqn:Hc; [|by apply elem_of_nil in Hr].
      apply list_elem_of_singleton in Hr as ->.
      apply andb_true_iff in Hc as [[? ?%negb_true_iff]%andb_true_iff ?%Z.eqb_eq].
      done.
    + apply Hafter in Hr. lia.
  - intros (-> & H1 & H2 & H3). rewrite H1, H2, H3. cbn.
    split; [set_solver|]. destruct Hrun as (Hse & _). lia.
Qed.

Lemma twoRunDocument_second_run :
  maximalRun (addedLinesSet sixLineChange) (split LF twoRunDocument) 3 5.
Proof.
  split; [lia|]. split; [|split; vm_compute; reflexivity].
  intros j Hj. assert (j = 3 \/ j = 4 \/ j = 5) as [->|[->| ->]] by lia;
    vm_compute; reflexivity.
Defined.

Lemma one_meaningful_line_run_witness :
  (lineRange (split LF twoRunDocument) 3
     ∈ matchDiffToCurrentFile twoRunDocument sixLineChange
   /\ 3 <= startLine (lineRange (split LF twoRunDocument) 3) <= 5)
  <-> (lineRange (split LF twoRunDocument) 3 = lineRange (split LF twoRunDocument) 3
       /\ testAlnum (trim (lineAt (split LF twoRunDocument) 3)) = true
       /\ startsWith (trim (lineAt (split LF twoRunDocument) 3)) "import " = false
       /\ occurrences (split LF twoRunDocument)
            (trim (lineAt (split LF twoRunDocument) 3)) = 1).
Proof.
  apply one_meaningful_line_run.
  - vm_compute. lia.
  - exact twoRunDocument_second_run.
  - vm_compute. reflexivity.
Defined.


End matcher_order_facts.

(** ** The stashed state: removals and what a write keeps *)

Section removal_facts.
Import Types StashedStateStore StashedStateRemoval StoreExamples RemovalExamples.

Lemma readStashedState_written s chats :
  readStashedState (mkContext (Some s) chats) = s.
Proof. reflexivity. Qed.

Lemma list_find_split {A} (P : A -> Prop) `{!forall x, Decision (P x)}
    (l : list A) i x :
  list_find P l = Some (i, x) ->
  exists l1 l2, l = l1 ++ x :: l2 /\ List.length l1 = i
                /\ Forall (fun y => ~ P y) l1 /\ P x.
Proof.
  intros (Hi & Hx & Hbefore)%list_find_Some.
  exists (take i l), (drop (S i) l).
  pose proof (lookup_lt_Some _ _ _ Hi) as Hlt.
  split; [by rewrite take_drop_middle|].
  split; [rewrite length_take; lia|]. split; [|done].
  apply Forall_forall. intros y (j & Hj)%list_elem_of_lookup_1.
  pose proof (lookup_lt_Some _ _ _ Hj) as Hjlt. rewrite length_take in Hjlt.
  rewrite lookup_take_lt in Hj by lia. apply (Hbefore j); [done|lia].
Qed.

Lemma insert_at_split {A} (l1 l2 : list A) x y :
  <[List.length l1 := y]> (l1 ++ x :: l2) = l1 ++ y :: l2.
Proof.
  rewrite insert_app_r_alt by lia. by rewrite Nat.sub_diag.
Qed.

Lemma list_find_snd_filter {A} (P : A -> Prop) `{!forall x, Decision (P x)}
    (Q : A -> bool) (l : list A) :
  (forall x, P x -> Q x = true) ->
  snd <$> list_find P (List.filter Q l) = snd <$> list_find P l.
Proof.
  intros HPQ. induction l as [|x l IH]; [done|].
  cbn [List.filter]. destruct (Q x) eqn:HQ.
  - cbn [list_find]. destruct (decide (P x)); [done|].
    destruct (list_find P (List.filter Q l)) as [[]|],
      (list_find P l) as [[]|]; simpl in *; congruence.
  - rewrite IH. cbn [list_find]. destruct (decide (P x)) as [HP|HP].
    + apply HPQ in HP. congruence.
    + by destruct (list_find P l) as [[]|].
Qed.

Lemma filter_other_ids m (l : list MessageEntry) :
  existsb (fun message => bool_decide (msg_id message = m)) l = false ->
  List.filter (fun message => negb (bool_decide (msg_id message = m))) l = l.
Proof.
  induction l as [|e l IH]; [done|]. cbn [existsb List.filter].
  intros [He Hl]%orb_false_iff. rewrite He. cbn. by rewrite IH.
Qed.

Lemma filter_messages_not_held m (l : list PanelChat) :
  Forall (fun chat => holdsMessage m chat <> true) l ->
  List.filter (fun message => negb (bool_decide (msg_id message = m)))
    (flat_map messages l)
  = flat_map messages l.
Proof.
  induction 1 as [|pc l Hpc Hl IH]; [done|]. cbn [flat_map].
  rewrite List.filter_app, IH, filter_other_ids; [done|].
  unfold holdsMessage in Hpc. by destruct (existsb _ _).
Qed.

Lemma no_other_holder m (l : list PanelChat) :
  List.filter (holdsMessage m) l = [] ->
  Forall (fun chat => holdsMessage m chat <> true) l.
Proof.
  induction l as [|pc l IH]; [constructor|]. cbn [List.filter].
  destruct (holdsMessage m pc) eqn:E; [done|].
  intros H. constructor; [congruence|by apply IH].
Qed.

(** X5: When at most one chat of the store holds a message with the id,
    [removeMessageFromStashedState] leaves the store with exactly the other
    messages, in their order, whether or not the file write succeeds; the
    chats stay, an emptied one too, and the ledger of deleted chats is not
    touched. *)
Theorem remove_message_clears_id context disk m :
  (List.length
     (List.filter (holdsMessage m) (panelChats (readStashedState context)))
   <= 1)%nat ->
  storedMessages (removeMessageFromStashedState context disk m).1.1
  = List.filter (fun message => negb (bool_decide (msg_id message = m)))
      (storedMessages context)
  /\ map chat_id
       (panelChats
          (readStashedState (removeMessageFromStashedState context disk m).1.1))
     = map chat_id (panelChats (readStashedState context))
  /\ deletedChats
       (readStashedState (removeMessageFromStashedState context disk m).1.1)
     = deletedChats (readStashedState context).
Proof.
  intros Hone. unfold removeMessageFromStashedState, storedMessages.
  destruct (list_find _ _) as [[i chat]|] eqn:Hfind.
  - rewrite writeStashedState_context, !readStashedState_written.
    cbn [withPanelChats panelChats deletedChats].
    apply list_find_split in Hfind as (l1 & l2 & Hl & <- & Hl1 & Hchat).
    rewrite Hl in *. rewrite insert_at_split.
    rewrite !List.filter_app in Hone. cbn [List.filter] in Hone.
    rewrite Hchat in Hone. rewrite length_app in Hone. cbn [List.length] in Hone.
    assert (Hl2 : List.filter (holdsMessage m) l2 = []).
    { apply length_zero_iff_nil. lia. }
    apply no_other_holder in Hl2.
    split; [|split; [|done]].
    + rewrite !flat_map_app. cbn [flat_map withMessages messages].
      rewrite !List.filter_app, !filter_messages_not_held; [done|done|].
      apply Forall_forall. rewrite Forall_forall in Hl1. intros y Hy. by apply Hl1.
    + rewrite !map_app. done.
  - cbn [fst]. split; [|done].
    apply list_find_None in Hfind. by rewrite filter_messages_not_held.
Qed.

Lemma remove_message_clears_id_witness :
  storedMessages
    (removeMessageFromStashedState twoChatContext writableDisk "m1").1.1
  = List.filter (fun message => negb (bool_decide (msg_id message = "m1")))
      (storedMessages twoChatContext)
  /\ map chat_id
       (panelChats
          (readStashedState
             (removeMessageFromStashedState twoChatContext writableDisk "m1").1.1))
     = map chat_id (panelChats (readStashedState twoChatContext))
  /\ deletedChats
       (readStashedState
          (removeMessageFromStashedState twoChatContext writableDisk "m1").1.1)
     = deletedChats (readStashedState twoChatContext).
Proof.
  apply remove_message_clears_id. vm_compute. lia.
Defined.

(** Only the first chat that holds the id is cleaned: when two chats hold
    it, the second still does afterwards. *)
Example remove_message_leaves_second_holder :
  map msg_id
    (storedMessages
       (removeMessageFromStashedState sharedMessageContext writableDisk "m1").1.1)
  = ["m1"; "m2"].
Proof. vm_compute. reflexivity. Qed.

End removal_facts.

Section store_write_facts.
Import Types StashedStateStore StashedStateRemoval StoreExamples RemovalExamples.

(** X6: After [removePanelChatFromStashedState] the store holds no chat
    with the id, every chat with another id is stored as before, and the
    chats that stay keep their order; this holds whether or not the file
    write succeeds. *)
Theorem remove_panel_chat_effect context disk id :
  storedChat (removePanelChatFromStashedState context disk id).1.1 id = None
  /\ (forall id', id' <> id ->
        storedChat (removePanelChatFromStashedState context disk id).1.1 id'
        = storedChat context id')
  /\ panelChats
       (readStashedState (removePanelChatFromStashedState context disk id).1.1)
     `sublist_of` panelChats (readStashedState context).
Proof.
  unfold removePanelChatFromStashedState, storedChat.
  rewrite writeStashedState_context, !readStashedState_written.
  cbn [withPanelChats panelChats].
  split; [|split].
  - match goal with |- snd <$> ?f = None => assert (f = None) as ->; [|done] end.
    apply list_find_None, Forall_forall.
    intros chat [_ Hc]%list_elem_of_In%filter_In.
    apply negb_true_iff, bool_decide_eq_false in Hc. done.
  - intros id' Hne. apply list_find_snd_filter.
    intros chat Hc. apply negb_true_iff, bool_decide_eq_false.
    unfold sameChat in Hc. congruence.
  - generalize (panelChats (readStashedState context)).
    induction l as [|chat l IH]; [done|]. cbn [List.filter].
    destruct (negb _); by constructor.
Qed.

Lemma remove_panel_chat_effect_witness :
  storedChat (removePanelChatFromStashedState twoChatContext readOnlyDisk "A").1.1
    "A" = None
  /\ storedChat (removePanelChatFromStashedState twoChatContext readOnlyDisk "A").1.1
       "B" = Some otherChat.
Proof.
  destruct (remove_panel_chat_effect twoChatContext readOnlyDisk "A")
    as (Hgone & Hother & _).
  split; [exact Hgone|]. rewrite (Hother "B"); [reflexivity|discriminate].
Defined.

(** X7: Writing a chat whose id the store does not hold and then removing
    that id gives back the chats the store had. *)
Theorem write_then_remove_restores context disk disk' newChat :
  storedChat context (chat_id newChat) = None ->
  panelChats
    (readStashedState
       (removePanelChatFromStashedState
          (writeChatToStashedState context disk newChat).1.1 disk'
          (chat_id newChat)).1.1)
  = panelChats (readStashedState context).
Proof.
  intros Hnone. destruct (store_absent context disk newChat Hnone) as [_ Hw].
  unfold removePanelChatFromStashedState.
  rewrite writeStashedState_context, readStashedState_written.
  cbn [withPanelChats panelChats]. rewrite Hw.
  rewrite List.filter_app. cbn [List.filter].
  rewrite bool_decide_eq_true_2 by done. cbn [negb]. rewrite app_nil_r.
  unfold storedChat in Hnone.
  destruct (list_find _ _) as [[]|] eqn:Hfind; [done|].
  apply list_find_None in Hfind. clear -Hfind.
  induction Hfind as [|chat l Hc Hl IH]; [done|]. cbn [List.filter].
  rewrite bool_decide_eq_false_2 by done. cbn [negb]. by rewrite IH.
Qed.

Lemma write_then_remove_restores_witness :
  storedChat twoChatContext (chat_id (mkPanelChat "vscode" "C" "" None "" [] []))
  = None
  /\ panelChats
       (readStashedState
          (removePanelChatFromStashedState
             (writeChatToStashedState twoChatContext writableDisk
                (mkPanelChat "vscode" "C" "" None "" [] [])).1.1
             readOnlyDisk "C").1.1)
     = panelChats (readStashedState twoChatContext).
Proof.
  split; [reflexivity|].
  apply (write_then_remove_restores twoChatContext writableDisk readOnlyDisk
           (mkPanelChat "vscode" "C" "" None "" [] [])).
  reflexivity.
Defined.

Lemma writeStashedState_in_step context disk s :
  match (writeStashedState context disk s).2 with
  | Ok _ =>
      stashedFile (writeStashedState context disk s).1.2
      = ws_stashedState (writeStashedState context disk s).1.1
  | Throw e =>
      (writeStashedState context disk s).1.2 = disk
      /\ ws_stashedState (writeStashedState context disk s).1.1 = Some s
      /\ (e = NoWorkspaceFolder \/ e = ErrorWritingStashedState)
  end
  /\ ws_currentPanelChats (writeStashedState context disk s).1.1
     = ws_currentPanelChats context.
Proof.
  unfold writeStashedState, writeStashedStateToFile.
  destruct (hasWorkspaceFolder disk), (canWrite disk); cbn; auto.
Qed.

(** X8: Each of the three functions that change the store either writes
    nothing and returns, or hands one new state, the same whatever the disk,
    to the memento and then to the file.  The memento then holds this new
    state; when the call returns, the file holds it too; when the call
    throws, it is for a missing workspace folder or a failed write, and the
    file is as it was.  The stored ['currentPanelChats'] is never touched. *)
Theorem store_calls_keep_file_in_step context disk call :
  match stateWritten context call with
  | None => runStoreCall context disk call = (context, disk, Ok tt)
  | Some s =>
      ws_stashedState (runStoreCall context disk call).1.1 = Some s
      /\ match (runStoreCall context disk call).2 with
         | Ok _ => stashedFile (runStoreCall context disk call).1.2 = Some s
         | Throw e =>
             (runStoreCall context disk call).1.2 = disk
             /\ (e = NoWorkspaceFolder \/ e = ErrorWritingStashedState)
         end
  end
  /\ ws_currentPanelChats (runStoreCall context disk call).1.1
     = ws_currentPanelChats context.
Proof.
  assert (Hw : forall s,
    stashedFile (writeStashedState context (mkDisk true true None) s).1.2
    = Some s
    /\ (ws_stashedState (writeStashedState context disk s).1.1 = Some s
        /\ match (writeStashedState context disk s).2 with
           | Ok _ => stashedFile (writeStashedState context disk s).1.2 = Some s
           | Throw e =>
               (writeStashedState context disk s).1.2 = disk
               /\ (e = NoWorkspaceFolder \/ e = ErrorWritingStashedState)
           end)
    /\ ws_currentPanelChats (writeStashedState context disk s).1.1
       = ws_currentPanelChats context).
  { intros s. unfold writeStashedState, writeStashedStateToFile.
    destruct (hasWorkspaceFolder disk), (canWrite disk); cbn;
      repeat split; auto. }
  assert (Hcall :
    (exists s, forall d, runStoreCall context d call = writeStashedState context d s)
    \/ forall d, runStoreCall context d call = (context, d, Ok tt)).
  { destruct call as [newChat|m|id]; cbn [runStoreCall].
    - left. eexists. intros d. unfold writeChatToStashedState. reflexivity.
    - unfold removeMessageFromStashedState.
      destruct (list_find _ _) as [[i chat]|].
      + left. eexists. intros d. reflexivity.
      + right. intros d. reflexivity.
    - left. eexists. intros d. unfold removePanelChatFromStashedState.
      reflexivity. }
  unfold stateWritten.
  destruct Hcall as [[s Hs]|Hnone].
  - rewrite !Hs. destruct (Hw s) as (-> & H1 & H2). done.
  - rewrite !Hnone. done.
Qed.

(** A failed write: the memento holds the new chat, the file does not. *)
Example failed_write_memento_ahead :
  let newChat := mkPanelChat "vscode" "C" "" None "" [] [] in
  exists s,
    stateWritten twoChatContext (WriteChat newChat) = Some s
    /\ map chat_id (panelChats s) = ["A"; "B"; "C"]
    /\ ws_stashedState
         (runStoreCall twoChatContext readOnlyDisk (WriteChat newChat)).1.1
       = Some s
    /\ (runStoreCall twoChatContext readOnlyDisk (WriteChat newChat)).1.2
       = readOnlyDisk
    /\ (runStoreCall twoChatContext readOnlyDisk (WriteChat newChat)).2
       = Throw ErrorWritingStashedState.
Proof.
  eexists. split; [vm_compute; reflexivity|].
  repeat split; vm_compute; reflexivity.
Qed.

(** X9: [writeChatToStashedState] only appends: every chat of the store is
    still at its place afterwards, with its id, and with the messages it had
    as the first of its messages; a chat with another id than the written
    one is unchanged. *)
Theorem write_chat_append_only context disk newChat j pc :
  panelChats (readStashedState context) !! j = Some pc ->
  exists pc',
    panelChats (readStashedState (writeChatToStashedState context disk newChat).1.1)
      !! j = Some pc'
    /\ chat_id pc' = chat_id pc
    /\ messages pc `prefix_of` messages pc'
    /\ (chat_id pc <> chat_id newChat -> pc' = pc).
Proof.
  intros Hj. unfold writeChatToStashedState.
  rewrite writeStashedState_context, readStashedState_written.
  destruct (list_find _ _) as [[i existing]|] eqn:Hfind;
    cbn [withPanelChats panelChats].
  - apply list_find_Some in Hfind as (Hi & Hsame & _).
    destruct (decide (i = j)) as [->|Hne].
    + rewrite list_lookup_insert_eq by (by eapply lookup_lt_Some).
      assert (existing = pc) as -> by congruence.
      eexists. split; [done|]. cbn [withMessages chat_id messages].
      split; [done|]. split; [by eexists|]. intros Hid. by destruct Hid.
    + rewrite list_lookup_insert_ne by done. exists pc. by repeat split.
  - rewrite lookup_app_l by (by eapply lookup_lt_Some).
    exists pc. by repeat split.
Qed.

Lemma write_chat_append_only_witness :
  exists pc',
    panelChats
      (readStashedState
         (writeChatToStashedState twoChatContext writableDisk helloAgainChat).1.1)
      !! 0%nat = Some pc'
    /\ chat_id pc' = chat_id helloChat
    /\ messages helloChat `prefix_of` messages pc'
    /\ (chat_id helloChat <> chat_id helloAgainChat -> pc' = helloChat).
Proof.
  apply (write_chat_append_only twoChatContext writableDisk helloAgainChat 0
           helloChat).
  reflexivity.
Defined.

(** X10: After [writeChatToStashedState] the store holds a chat with the
    written id, and the message ids of that chat are those the store had
    under the id together with those of the written chat: no message of the
    written chat is lost, and no id comes from anywhere else. *)
Theorem write_chat_merges_ids context disk newChat :
  exists pc',
    storedChat (writeChatToStashedState context disk newChat).1.1
      (chat_id newChat) = Some pc'
    /\ forall m,
         m ∈ map msg_id (messages pc')
         <-> m ∈ map msg_id (messages newChat)
             \/ exists pc, storedChat context (chat_id newChat) = Some pc
                           /\ m ∈ map msg_id (messages pc).
Proof.
  destruct (storedChat context (chat_id newChat)) as [pc|] eqn:Hs.
  - eexists. split; [by apply store_existing|]. intros m.
    cbn [withMessages messages]. rewrite map_app, elem_of_app.
    rewrite !list_elem_of_fmap. split.
    + intros [H|(e & -> & [He _]%list_elem_of_In%filter_In)].
      * right. exists pc. split; [done|]. by apply list_elem_of_fmap.
      * left. exists e. split; [done|]. by apply list_elem_of_In.
    + intros [(e & -> & He)|(pc0 & [= <-] & H%list_elem_of_fmap)]; [|by left].
      destruct (existsb (fun existingMessage =>
                  bool_decide (msg_id existingMessage = msg_id e)) (messages pc))
        eqn:Hex.
      * left. apply existsb_exists in Hex as (e0 & He0 & Heq).
        apply bool_decide_eq_true in Heq. exists e0.
        split; [done|]. by apply list_elem_of_In.
      * right. exists e. split; [done|].
        apply list_elem_of_In, filter_In. split; [by apply list_elem_of_In|].
        by rewrite Hex.
  - destruct (store_absent context disk newChat Hs) as [H _].
    exists newChat. split; [done|]. intros m. split; [by left|].
    intros [H'|(pc & [=] & _)]. done.
Qed.

End store_write_facts.

(** ** What [getGitHistory] returns, as a whole *)

Section pruning_lemmas.
Import Types PanelGit.

(** Commits without a message hold no id. *)
Lemma attributedIds_filter_nonempty allCommits :
  attributedIds
    (List.filter (fun commit => existsb hasMessages (commitPanelChats commit))
       allCommits)
  = attributedIds allCommits.
Proof.
  induction allCommits as [|cd l IH]; [done|]. cbn [List.filter].
  destruct (existsb hasMessages (commitPanelChats cd)) eqn:E.
  - unfold attributedIds in *. cbn [flat_map]. by rewrite IH.
  - unfold attributedIds in *. cbn [flat_map]. rewrite IH.
    destruct (messageIds (commitPanelChats cd)) as [|x ids] eqn:Hids; [done|].
    assert (Hx : x ∈ messageIds (commitPanelChats cd)) by (rewrite Hids; set_solver).
    apply existsb_hasMessages in Hx. congruence.
Qed.

Lemma attributedIds_pruneCommits allCommits :
  attributedIds (GaitContext.pruneCommits allCommits) = attributedIds allCommits.
Proof.
  unfold GaitContext.pruneCommits. rewrite attributedIds_filter_nonempty.
  unfold attributedIds. induction allCommits as [|cd l IH]; [done|].
  cbn [map flat_map withCommitPanelChats commitPanelChats].
  by rewrite messageIds_filter_hasMessages, IH.
Qed.

End pruning_lemmas.

Section returned_history_facts.
Import Types PanelGit WalkSpec StashedStateStore HistoryExamples.
Variable JSON_parse : string -> option StashedState.
Variable isStashedState : StashedState -> bool.

Lemma later_text_returned_ids context env res :
  GaitContext.getGitHistory JSON_parse isStashedState context env = Ok res ->
  NoDup (attributedIds (GaitContext.commits res))
  /\ forall m, m ∈ attributedIds (GaitContext.commits res) ->
       m ∈ (collectCurrentIds
              (GaitContext.currentSnapshot isStashedState context)).2.
Proof.
  intros (inl & logData & _ & _ & _ & -> & _)%md_getGitHistory_Ok.
  rewrite attributedIds_pruneCommits.
  match goal with |- context [GaitContext.walk _ _ ?e ?c ?ci ?ls] =>
    destruct (md_walk_inv JSON_parse isStashedState e c ci ls) as [Hnd Hin] end.
  split; [done|]. intros m Hm. by apply Hin.
Qed.

Lemma earlier_text_returned_ids env filePath res :
  ExtensionTs.getGitHistory JSON_parse isStashedState env filePath = Ok res ->
  NoDup (attributedIds (ExtensionTs.commits res))
  /\ forall m, m ∈ attributedIds (ExtensionTs.commits res) ->
       m ∈ (collectCurrentIds
              (ExtensionTs.currentSnapshot JSON_parse isStashedState env)).2.
Proof.
  intros (logData & _ & _ & _ & -> & _)%ext_getGitHistory_Ok.
  rewrite attributedIds_filter_nonempty.
  match goal with |- context [ExtensionTs.walk _ _ ?e ?c ?cp ?ls] =>
    destruct (ext_walk_inv JSON_parse isStashedState e c cp ls) as [Hnd Hin] end.
  split; [done|]. intros m Hm. by apply Hin.
Qed.

End returned_history_facts.

Section index_lemmas.
Import Types PanelGit CommitIndex.

Lemma foldl_insert_lookup {A B} (f : A -> string) (v : B) (l : list A) :
  forall (m : gmap string B) k,
    foldl (fun (m : gmap string B) x => <[f x := v]> m) m l !! k
    = if bool_decide (k ∈ map f l) then Some v else m !! k.
Proof.
  induction l as [|x l IH]; intros m k; [done|]. cbn [foldl map].
  rewrite IH. destruct (decide (k ∈ map f l)) as [Hin|Hin].
  - rewrite !bool_decide_eq_true_2; [done|set_solver|done].
  - rewrite (bool_decide_eq_false_2 (k ∈ map f l)) by done.
    destruct (decide (f x = k)) as [<-|Hne].
    + rewrite lookup_insert_eq, bool_decide_eq_true_2; [done|set_solver].
    + rewrite lookup_insert_ne by done.
      rewrite bool_decide_eq_false_2; [done|set_solver].
Qed.

Lemma index_chats_lookup (commit : CommitData) (chats : list PanelChat) :
  forall (m : gmap string CommitData) k,
    foldl
      (fun (idToCommitInfo : gmap string CommitData) panelChat =>
         foldl
           (fun (idToCommitInfo : gmap string CommitData) message =>
              <[msg_id message := commit]> idToCommitInfo)
           idToCommitInfo (messages panelChat))
      m chats !! k
    = if bool_decide (k ∈ messageIds chats) then Some commit else m !! k.
Proof.
  induction chats as [|pc chats IH]; intros m k; [done|]. cbn [foldl].
  rewrite IH, foldl_insert_lookup. unfold messageIds. cbn [flat_map].
  fold (messageIds chats).
  destruct (decide (k ∈ messageIds chats)) as [Hin|Hin].
  - rewrite !bool_decide_eq_true_2; [done|set_solver|done].
  - rewrite (bool_decide_eq_false_2 (k ∈ messageIds chats)) by done.
    destruct (decide (k ∈ map msg_id (messages pc))) as [Hin'|Hin'].
    + rewrite !bool_decide_eq_true_2; [done|set_solver|done].
    + rewrite !bool_decide_eq_false_2; [done|set_solver|done].
Qed.

(** The last holder wins. *)
Lemma indexMessages_last commits k :
  indexMessages commits !! k = last (holdersOf k commits).
Proof.
  unfold indexMessages.
  assert (H : forall (m : gmap string CommitData),
    foldl
      (fun (idToCommitInfo : gmap string CommitData) commit =>
         foldl
           (fun (idToCommitInfo : gmap string CommitData) panelChat =>
              foldl
                (fun (idToCommitInfo : gmap string CommitData) message =>
                   <[msg_id message := commit]> idToCommitInfo)
                idToCommitInfo (messages panelChat))
           idToCommitInfo (commitPanelChats commit))
      m commits !! k
    = match last (holdersOf k commits) with
      | Some cd => Some cd
      | None => m !! k
      end).
  { induction commits as [|cd l IH]; intros m; [done|]. cbn [foldl].
    rewrite IH, index_chats_lookup. unfold holdersOf. cbn [List.filter].
    fold (holdersOf k l).
    destruct (bool_decide (k ∈ messageIds (commitPanelChats cd)));
      [|done].
    rewrite last_cons. by destruct (last (holdersOf k l)). }
  rewrite H. by destruct (last _).
Qed.

Lemma indexInlineChats_last commits k :
  indexInlineChats commits !! k = last (inlineHoldersOf k commits).
Proof.
  unfold indexInlineChats.
  assert (H : forall (m : gmap string CommitData),
    foldl
      (fun (idToCommitInfo : gmap string CommitData) commit =>
         foldl
           (fun (idToCommitInfo : gmap string CommitData) inlineChat =>
              <[inline_chat_id inlineChat := commit]> idToCommitInfo)
           idToCommitInfo (commitInlineChats commit))
      m commits !! k
    = match last (inlineHoldersOf k commits) with
      | Some cd => Some cd
      | None => m !! k
      end).
  { induction commits as [|cd l IH]; intros m; [done|]. cbn [foldl].
    rewrite IH, foldl_insert_lookup. unfold inlineHoldersOf. cbn [List.filter].
    fold (inlineHoldersOf k l).
    destruct (bool_decide (k ∈ map inline_chat_id (commitInlineChats cd)));
      [|done].
    rewrite last_cons. by destruct (last (inlineHoldersOf k l)). }
  rewrite H. by destruct (last _).
Qed.

End index_lemmas.

Section index_facts.
Import Types PanelGit WalkSpec StashedStateStore CommitIndex HistoryExamples.
Variable JSON_parse : string -> option StashedState.
Variable isStashedState : StashedState -> bool.

(** X11: In both texts of [getGitHistory], no message id is held twice by the
    returned commits, be it in two commits, in two chats of a commit or
    twice in a chat, and every id they hold is an active id of the current
    snapshot: the id of a message that the current ledger does not list, in
    a chat of the current snapshot that it does not list either. *)
Theorem returned_ids_unique_and_active :
  (forall context env res,
      GaitContext.getGitHistory JSON_parse isStashedState context env = Ok res ->
      NoDup (attributedIds (GaitContext.commits res))
      /\ forall m, m ∈ attributedIds (GaitContext.commits res) ->
           m ∈ (collectCurrentIds
                  (GaitContext.currentSnapshot isStashedState context)).2)
  /\ (forall env filePath res,
        ExtensionTs.getGitHistory JSON_parse isStashedState env filePath = Ok res ->
        NoDup (attributedIds (ExtensionTs.commits res))
        /\ forall m, m ∈ attributedIds (ExtensionTs.commits res) ->
             m ∈ (collectCurrentIds
                    (ExtensionTs.currentSnapshot JSON_parse isStashedState env)).2).
Proof.
  split.
  - intros context env res. apply later_text_returned_ids.
  - intros env filePath res. apply earlier_text_returned_ids.
Qed.

(** X12: [getIdToCommitInfo] maps a message id to a commit exactly when that
    commit is one of those [getGitHistory] returns and holds the id; by the
    uniqueness of ids in the returned commits there is one such commit at
    most, so nothing is overwritten. *)
Theorem message_index_exact context env idx :
  getIdToCommitInfo JSON_parse isStashedState context env = Ok idx ->
  exists res,
    GaitContext.getGitHistory JSON_parse isStashedState context env = Ok res
    /\ forall m cd,
         idx !! m = Some cd
         <-> cd ∈ GaitContext.commits res
             /\ m ∈ messageIds (commitPanelChats cd).
Proof.
  unfold getIdToCommitInfo.
  destruct (GaitContext.getGitHistory _ _ _ _) as [res|e] eqn:Hres; [|done].
  intros [= <-]. exists res. split; [done|]. intros m cd.
  rewrite indexMessages_last.
  destruct (later_text_returned_ids _ _ _ _ _ Hres) as [Hnd _].
  assert (Hholders : forall c, c ∈ holdersOf m (GaitContext.commits res)
            <-> c ∈ GaitContext.commits res
                /\ m ∈ messageIds (commitPanelChats c)).
  { intros c. unfold holdersOf.
    rewrite list_elem_of_In, filter_In, bool_decide_eq_true.
    by rewrite <- list_elem_of_In. }
  split.
  - intros Hlast%last_Some_elem_of. by apply Hholders.
  - intros [Hcd Hm].
    destruct (last (holdersOf m (GaitContext.commits res))) as [c|] eqn:Hlast.
    + apply last_Some_elem_of, Hholders in Hlast as [Hc Hmc]. f_equal.
      by apply (NoDup_flat_map_unique
                  (fun cd => messageIds (commitPanelChats cd))
                  (GaitContext.commits res) c cd m).
    + apply last_None in Hlast.
      assert (cd ∈ holdersOf m (GaitContext.commits res)) as Hin
        by (by apply Hholders).
      rewrite Hlast in Hin. by apply elem_of_nil in Hin.
Qed.

End index_facts.

Section index_examples.
Import Types PanelGit WalkSpec StashedStateStore CommitIndex HistoryExamples.

Lemma message_index_exact_witness :
  exists idx res,
    getIdToCommitInfo exampleParse exampleValid laterContext laterEnv = Ok idx
    /\ GaitContext.getGitHistory exampleParse exampleValid laterContext laterEnv
       = Ok res
    /\ forall m cd,
         idx !! m = Some cd
         <-> cd ∈ GaitContext.commits res
             /\ m ∈ messageIds (commitPanelChats cd).
Proof.
  assert (exists res0,
            GaitContext.getGitHistory exampleParse exampleValid laterContext
              laterEnv = Ok res0) as [res0 Hres0]
    by (eexists; vm_compute; reflexivity).
  exists (indexMessages (GaitContext.commits res0)).
  assert (Hidx : getIdToCommitInfo exampleParse exampleValid laterContext laterEnv
                 = Ok (indexMessages (GaitContext.commits res0)))
    by (unfold getIdToCommitInfo; rewrite Hres0; reflexivity).
  destruct (message_index_exact exampleParse exampleValid laterContext laterEnv
              _ Hidx) as (res & Hres & H).
  exists res. split; [exact Hidx|]. split; [exact Hres|exact H].
Defined.

End index_examples.

(** ** Inline chats in the later text, and the three parts of its result *)

Section later_text_lemmas.
Import Types PanelGit.

Lemma md_processCommit_inline parsed cur curInline seen cd ic :
  ic ∈ commitInlineChats
         (GaitContext.processCommit parsed cur curInline seen cd).2 ->
  ic ∈ commitInlineChats cd \/ inline_chat_id ic ∈ curInline.
Proof.
  unfold GaitContext.processCommit. cbn [snd commitInlineChats].
  cbn [ensureDeletedChats withDeletedChats inlineChats].
  destruct (inlineChats parsed) as [l|]; [|by left].
  intros [H|[_ H]%list_elem_of_In%filter_In]%elem_of_app; [by left|].
  right. by apply bool_decide_eq_true in H.
Qed.

Lemma addedChat_fold del chats : forall st,
  st.1 ⊆ (foldl (GaitContext.addedChat del) st chats).1
  /\ forall x, x ∈ messageIds (foldl (GaitContext.addedChat del) st chats).2 ->
       x ∈ messageIds st.2
       \/ ((x ∉ st.1) /\ x ∈ (foldl (GaitContext.addedChat del) st chats).1).
Proof.
  induction chats as [|pc chats IH]; intros st; [by split; [|left]|].
  cbn [foldl]. destruct (IH (GaitContext.addedChat del st pc)) as [Hsub Hids].
  cbn [GaitContext.addedChat fst snd] in Hsub, Hids.
  split; [set_solver|]. intros x Hx. apply Hids in Hx as [Hx|[Hx1 Hx2]].
  - unfold messageIds in Hx. rewrite flat_map_app in Hx. cbn [flat_map] in Hx.
    rewrite app_nil_r in Hx. apply elem_of_app in Hx as [Hx|Hx]; [by left|].
    right. cbn [withMessages messages] in Hx.
    apply list_elem_of_fmap in Hx as (e & -> & [He Hk]%list_elem_of_In%filter_In).
    apply andb_true_iff in Hk as [_ Hk%negb_true_iff%bool_decide_eq_false].
    split; [done|]. apply Hsub, elem_of_union_l, elem_of_list_to_set.
    apply list_elem_of_fmap. exists e. split; [done|]. by apply list_elem_of_In.
  - right. split; [set_solver|done].
Qed.

End later_text_lemmas.

Section later_text_parts.
Import Types PanelGit WalkSpec StashedStateStore CommitIndex.
Variable JSON_parse : string -> option StashedState.
Variable isStashedState : StashedState -> bool.

Lemma md_step_inline env cur curInline st line :
  (forall cd ic, cd ∈ st.2 -> ic ∈ commitInlineChats cd ->
                 inline_chat_id ic ∈ curInline) ->
  forall cd ic,
    cd ∈ (GaitContext.commitIteration JSON_parse isStashedState env cur curInline
            st line).2 ->
    ic ∈ commitInlineChats cd -> inline_chat_id ic ∈ curInline.
Proof.
  intros Hst. unfold GaitContext.commitIteration.
  destruct (GaitContext.gitShow env _); [|done].
  destruct (JSON_parse _) as [p|]; [|done].
  destruct (isStashedState p); [|done]. cbn [negb].
  unfold GaitContext.recordCommit.
  destruct (list_find _ _) as [[i cd0]|] eqn:Hfind; cbn [snd].
  - apply list_find_split in Hfind as (l1 & l2 & Hl & <- & _ & _).
    rewrite Hl, insert_at_split. rewrite Hl in Hst.
    intros cd ic [Hcd|[->|Hcd]%elem_of_cons]%elem_of_app Hic.
    + apply (Hst cd); [set_solver|done].
    + apply md_processCommit_inline in Hic as [Hic|Hic]; [|done].
      apply (Hst cd0); [set_solver|done].
    + apply (Hst cd); [set_solver|done].
  - intros cd ic [Hcd|Hcd%list_elem_of_singleton]%elem_of_app Hic.
    + by apply (Hst cd).
    + subst cd. apply md_processCommit_inline in Hic as [Hic|Hic]; [|done].
      by apply elem_of_nil in Hic.
Qed.

Lemma md_walk_inline env cur curInline lines :
  forall cd ic,
    cd ∈ (GaitContext.walk JSON_parse isStashedState env cur curInline lines).2 ->
    ic ∈ commitInlineChats cd -> inline_chat_id ic ∈ curInline.
Proof.
  unfold GaitContext.walk.
  assert (H : forall st,
    (forall cd ic, cd ∈ st.2 -> ic ∈ commitInlineChats cd ->
                   inline_chat_id ic ∈ curInline) ->
    forall cd ic,
      cd ∈ (foldl (GaitContext.commitIteration JSON_parse isStashedState env cur
                     curInline) st lines).2 ->
      ic ∈ commitInlineChats cd -> inline_chat_id ic ∈ curInline).
  { induction lines as [|line lines IH]; intros st Hst; [done|].
    cbn [foldl]. apply IH. by apply md_step_inline. }
  apply H. intros cd ic Hcd. by apply elem_of_nil in Hcd.
Qed.

(** X13: [getInlineChatIdToCommitInfo] maps an inline chat id to the last of the
    returned commits that holds it: inline chats are not deduplicated across
    commits, so a later commit overwrites an earlier one.  An id it maps is
    the id of an inline chat of the current snapshot, and the commit it is
    mapped to has a panel chat message: a commit with inline chats only is
    not in the history and so not in the index. *)
Theorem inline_index_last_commit_wins context env idx :
  getInlineChatIdToCommitInfo JSON_parse isStashedState context env = Ok idx ->
  exists res inl,
    GaitContext.getGitHistory JSON_parse isStashedState context env = Ok res
    /\ inlineChats (GaitContext.currentSnapshot isStashedState context) = Some inl
    /\ forall id,
         idx !! id = last (inlineHoldersOf id (GaitContext.commits res))
         /\ forall cd, idx !! id = Some cd ->
              cd ∈ GaitContext.commits res
              /\ id ∈ map inline_chat_id (commitInlineChats cd)
              /\ id ∈ map inline_chat_id inl
              /\ existsb hasMessages (commitPanelChats cd) = true.
Proof.
  unfold getInlineChatIdToCommitInfo.
  destruct (GaitContext.getGitHistory _ _ _ _) as [res|e] eqn:Hres; [|done].
  intros [= <-].
  destruct (md_getGitHistory_Ok _ _ _ _ _ Hres)
    as (inl & logData & _ & Hinl & _ & Hcommits & _).
  exists res, inl. split; [done|]. split; [done|]. intros id.
  rewrite indexInlineChats_last. split; [done|].
  intros cd [Hcd Hid]%last_Some_elem_of%list_elem_of_In%filter_In.
  apply list_elem_of_In in Hcd. apply bool_decide_eq_true in Hid.
  split; [done|]. split; [done|].
  rewrite Hcommits in Hcd.
  apply pruneCommits_elem in Hcd as (c & Hc & -> & Hmsg). split; [|done].
  cbn [withCommitPanelChats commitInlineChats] in Hid.
  apply list_elem_of_fmap in Hid as (ic & -> & Hic).
  pose proof (md_walk_inline _ _ _ _ c ic Hc Hic) as Hcur.
  apply elem_of_list_to_set in Hcur. done.
Qed.

(** The three parts of the result of the later text, written out. *)
Lemma md_getGitHistory_parts context env res :
  GaitContext.getGitHistory JSON_parse isStashedState context env = Ok res ->
  exists inl logData l,
    let parsedCurrent := GaitContext.currentSnapshot isStashedState context in
    let w := GaitContext.walk JSON_parse isStashedState env
               (collectCurrentIds parsedCurrent).2
               (list_to_set (map inline_chat_id inl)) (logLinesOf logData) in
    let a := foldl (GaitContext.addedChat (deletedMessageIdSet parsedCurrent))
               (w.1, [])
               (List.filter
                  (fun pc =>
                     negb (bool_decide
                             (chat_id pc ∈ deletedPanelChatIdSet parsedCurrent)))
                  (panelChats (readStashedState context))) in
    GaitContext.gitLog env = Some logData
    /\ GaitContext.commits res = GaitContext.pruneCommits w.2
    /\ GaitContext.uncommittedPanelChats (GaitContext.added res)
       = List.filter hasMessages a.2
    /\ GaitContext.uncommittedPanelChats (GaitContext.uncommitted res)
       = List.filter hasMessages
           (map
              (fun pc =>
                 withMessages pc
                   (List.filter
                      (fun msg =>
                         negb (bool_decide
                                 (msg_id msg ∈ deletedMessageIdSet parsedCurrent))
                         && negb (bool_decide (msg_id msg ∈ a.1)))
                      (messages pc)))
              (List.filter
                 (fun pc =>
                    negb (bool_decide
                            (chat_id pc ∈ deletedPanelChatIdSet parsedCurrent)))
                 l)).
Proof.
  unfold GaitContext.getGitHistory.
  destruct (GaitContext.existsSync env); [|done]. cbn [negb].
  destruct (collectCurrentIds _) as [pcIds mIds] eqn:Eids.
  destruct (inlineChats _) as [inl|]; [|done].
  destruct (GaitContext.gitLog env) as [logData|]; [|done].
  destruct (ws_currentPanelChats context) as [| | |l]; try done.
  - intros [= <-]. by exists inl, logData, [].
  - intros [= <-]. by exists inl, logData, l.
Qed.

(** X14: In the later text the three parts of the result share no message id: an
    id held by a returned commit is in neither [added] nor [uncommitted],
    and an id in [added] is not in [uncommitted]. *)
Theorem history_sections_disjoint context env res m :
  GaitContext.getGitHistory JSON_parse isStashedState context env = Ok res ->
  (m ∈ attributedIds (GaitContext.commits res) ->
     (m ∉ messageIds (GaitContext.uncommittedPanelChats (GaitContext.added res)))
     /\ m ∉ messageIds
              (GaitContext.uncommittedPanelChats (GaitContext.uncommitted res)))
  /\ (m ∈ messageIds (GaitContext.uncommittedPanelChats (GaitContext.added res)) ->
      m ∉ messageIds
            (GaitContext.uncommittedPanelChats (GaitContext.uncommitted res))).
Proof.
  intros (inl & logData & l & _ & Hc & Ha & Hu)%md_getGitHistory_parts.
  cbv zeta in Hc, Ha, Hu. rewrite Hc, Ha, Hu. clear Hc Ha Hu.
  rewrite attributedIds_pruneCommits, messageIds_filter_hasMessages.
  set (parsedCurrent := GaitContext.currentSnapshot isStashedState context).
  set (w := GaitContext.walk _ _ _ _ _ _).
  set (chats := List.filter _ (panelChats (readStashedState context))).
  destruct (addedChat_fold (deletedMessageIdSet parsedCurrent) chats (w.1, []))
    as [Hsub Hids]. cbn [fst snd] in Hsub, Hids.
  destruct (md_walk_inv JSON_parse isStashedState env
              (collectCurrentIds parsedCurrent).2
              (list_to_set (map inline_chat_id inl)) (logLinesOf logData))
    as [_ Hseen]. fold w in Hseen.
  assert (Hunc : forall x,
    x ∈ messageIds
          (List.filter hasMessages
             (map
                (fun pc =>
                   withMessages pc
                     (List.filter
                        (fun msg =>
                           negb (bool_decide
                                   (msg_id msg ∈ deletedMessageIdSet parsedCurrent))
                           && negb
                                (bool_decide
                                   (msg_id msg
                                    ∈ (foldl
                                         (GaitContext.addedChat
                                            (deletedMessageIdSet parsedCurrent))
                                         (w.1, []) chats).1)))
                        (messages pc)))
                (List.filter
                   (fun pc =>
                      negb (bool_decide
                              (chat_id pc ∈ deletedPanelChatIdSet parsedCurrent)))
                   l))) ->
    x ∉ (foldl (GaitContext.addedChat (deletedMessageIdSet parsedCurrent))
           (w.1, []) chats).1).
  { intros x (e & <- & He)%surfaced_ids.
    by apply andb_true_iff in He as [_ He%negb_true_iff%bool_decide_eq_false]. }
  split.
  - intros [Hm _]%Hseen. split.
    + intros [Hx|[Hx _]]%Hids; [by apply elem_of_nil in Hx|done].
    + intros Hx%Hunc. apply Hx, Hsub, Hm.
  - intros [Hx|[_ Hx]]%Hids; [by apply elem_of_nil in Hx|].
    intros Hx'%Hunc. done.
Qed.

End later_text_parts.

(** ** The commits of the history and the lines of the log *)

Section commit_record_lemmas.
Import Types PanelGit WalkSpec CommitRecordSpec.

(** Find-or-create keeps the hashes distinct and the first record of a
    hash. *)
Lemma record_keeps_hashes (f : CommitData -> CommitData) (line : string)
    (origin : CommitData -> Prop) (st2 : list CommitData) :
  (forall cd, commitHash (f cd) = commitHash cd /\ date (f cd) = date cd
              /\ commitMessage (f cd) = commitMessage cd
              /\ author (f cd) = author cd) ->
  (forall cd, recordedFrom line cd -> origin cd) ->
  (forall cd cd', origin cd -> commitHash cd' = commitHash cd ->
                  date cd' = date cd -> commitMessage cd' = commitMessage cd ->
                  author cd' = author cd -> origin cd') ->
  NoDup (map commitHash st2) ->
  Forall origin st2 ->
  NoDup (map commitHash
           (match list_find (hasHash (log_commitHash (parseLogLine line))) st2 with
            | Some (i, cd) => <[i := f cd]> st2
            | None =>
                st2 ++ [f (mkCommitData (log_commitHash (parseLogLine line))
                             (log_dateStr (parseLogLine line))
                             (log_commitMessage (parseLogLine line))
                             (log_authorName (parseLogLine line)) [] [])]
            end))
  /\ Forall origin
       (match list_find (hasHash (log_commitHash (parseLogLine line))) st2 with
        | Some (i, cd) => <[i := f cd]> st2
        | None =>
            st2 ++ [f (mkCommitData (log_commitHash (parseLogLine line))
                         (log_dateStr (parseLogLine line))
                         (log_commitMessage (parseLogLine line))
                         (log_authorName (parseLogLine line)) [] [])]
        end).
Proof.
  intros Hf Hline Hext Hnd Hall.
  destruct (list_find _ _) as [[i cd]|] eqn:Hfind.
  - apply list_find_split in Hfind as (l1 & l2 & -> & <- & _ & Hcd).
    rewrite insert_at_split. destruct (Hf cd) as (H1 & H2 & H3 & H4). split.
    + rewrite map_app in *. cbn [map] in *. by rewrite H1.
    + apply Forall_app in Hall as [Hl1 [Hc Hl2]%Forall_cons].
      apply Forall_app. split; [done|]. constructor; [|done].
      by apply (Hext cd).
  - apply list_find_None in Hfind.
    set (fresh := mkCommitData _ _ _ _ _ _).
    destruct (Hf fresh) as (H1 & H2 & H3 & H4). split.
    + rewrite map_app. cbn [map]. rewrite H1. cbn [fresh commitHash].
      apply NoDup_app. split; [done|]. split; [|apply NoDup_singleton].
      intros h (cd & -> & Hcd)%list_elem_of_fmap Heq%list_elem_of_singleton.
      rewrite Forall_forall in Hfind. by apply (Hfind cd).
    + apply Forall_app. split; [done|]. constructor; [|done].
      apply Hline. unfold recordedFrom, hashOf. by rewrite H1, H2, H3, H4.
Qed.

End commit_record_lemmas.

Section commit_record_facts.
Import Types PanelGit WalkSpec StashedStateStore CommitRecordSpec.
Variable JSON_parse : string -> option StashedState.
Variable isStashedState : StashedState -> bool.

Lemma fromLines_ext snap lines cd cd' :
  fromLines snap lines cd -> commitHash cd' = commitHash cd ->
  date cd' = date cd -> commitMessage cd' = commitMessage cd ->
  author cd' = author cd -> fromLines snap lines cd'.
Proof.
  intros (line & Hl & Hs & H1 & H2 & H3 & H4) E1 E2 E3 E4.
  exists line. unfold recordedFrom. by rewrite E1, E2, E3, E4.
Qed.

Lemma fromLines_mono snap lines line cd :
  fromLines snap lines cd -> fromLines snap (lines ++ [line]) cd.
Proof. intros (l & Hl & H). exists l. split; [set_solver|done]. Qed.

Lemma md_walk_records env cur curInline lines :
  NoDup (map commitHash
           (GaitContext.walk JSON_parse isStashedState env cur curInline lines).2)
  /\ Forall (fromLines (GaitContext.snapshotAt JSON_parse isStashedState env) lines)
       (GaitContext.walk JSON_parse isStashedState env cur curInline lines).2.
Proof.
  unfold GaitContext.walk.
  induction lines as [|line lines IH] using rev_ind; [by split; constructor|].
  rewrite foldl_app. cbn [foldl].
  set (st := foldl _ _ lines) in *. destruct IH as [Hnd Hall].
  assert (Hall' : Forall (fromLines (GaitContext.snapshotAt JSON_parse
                                       isStashedState env) (lines ++ [line])) st.2).
  { eapply Forall_impl; [exact Hall|]. intros cd. apply fromLines_mono. }
  unfold GaitContext.commitIteration.
  destruct (GaitContext.gitShow env _) as [content|] eqn:Hshow; [|done].
  destruct (JSON_parse content) as [p|] eqn:Hparse; [|done].
  destruct (isStashedState p) eqn:Hvalid; [|done]. cbn [negb].
  unfold GaitContext.recordCommit.
  pose proof (record_keeps_hashes
    (fun cd => (GaitContext.processCommit p cur curInline st.1 cd).2) line
    (fromLines (GaitContext.snapshotAt JSON_parse isStashedState env)
       (lines ++ [line])) st.2) as H.
  destruct (list_find _ _) as [[i cd]|]; cbn [snd]; apply H; try done.
  all: try (intros cd0 Hcd0; exists line; split; [set_solver|]; split; [|done];
            unfold GaitContext.snapshotAt; by rewrite Hshow, Hparse, Hvalid).
  all: intros cd1 cd2; apply fromLines_ext.
Qed.

Lemma ext_walk_records env cur curPC lines :
  NoDup (map commitHash
           (ExtensionTs.walk JSON_parse isStashedState env cur curPC lines).2)
  /\ Forall (fromLines (ExtensionTs.snapshotAt JSON_parse isStashedState env) lines)
       (ExtensionTs.walk JSON_parse isStashedState env cur curPC lines).2.
Proof.
  unfold ExtensionTs.walk.
  induction lines as [|line lines IH] using rev_ind; [by split; constructor|].
  rewrite foldl_app. cbn [foldl].
  set (st := foldl _ _ lines) in *. destruct IH as [Hnd Hall].
  assert (Hall' : Forall (fromLines (ExtensionTs.snapshotAt JSON_parse
                                       isStashedState env) (lines ++ [line])) st.2).
  { eapply Forall_impl; [exact Hall|]. intros cd. apply fromLines_mono. }
  unfold ExtensionTs.commitIteration.
  destruct (ExtensionTs.isDeletionCommit _) eqn:Hdel; [done|].
  destruct (ExtensionTs.gitShow env _) as [content|] eqn:Hshow; [|done].
  destruct (JSON_parse content) as [p|] eqn:Hparse; [|done].
  destruct (isStashedState p) eqn:Hvalid; [|done]. cbn [negb].
  unfold ExtensionTs.recordCommit.
  pose proof (record_keeps_hashes
    (fun cd => (ExtensionTs.processCommit p cur curPC st.1 cd).2) line
    (fromLines (ExtensionTs.snapshotAt JSON_parse isStashedState env)
       (lines ++ [line])) st.2) as H.
  destruct (list_find _ _) as [[i cd]|]; cbn [snd]; apply H; try done.
  all: try (intros cd0 Hcd0; exists line; split; [set_solver|]; split; [|done];
            unfold ExtensionTs.snapshotAt; by rewrite Hdel, Hshow, Hparse, Hvalid).
  all: intros cd1 cd2; apply fromLines_ext.
Qed.

End commit_record_facts.

Section sublist_lemmas.

Lemma map_filter_sublist {A B} (f : A -> B) (P : A -> bool) (l : list A) :
  map f (List.filter P l) `sublist_of` map f l.
Proof.
  induction l as [|x l IH]; [done|]. cbn [List.filter map].
  destruct (P x); by constructor.
Qed.

End sublist_lemmas.

Section returned_commits_facts.
Import Types PanelGit WalkSpec StashedStateStore CommitRecordSpec.
Variable JSON_parse : string -> option StashedState.
Variable isStashedState : StashedState -> bool.

(** X15: In both texts of [getGitHistory] the returned commits have distinct
    hashes, also when the log lists a hash more than once, and each of them
    carries the hash, date, subject and author of a line of the log that
    the loop did not skip.  In the earlier text, which skips the deletion
    commits, the subject of a returned commit therefore never starts with
    the words of a deletion commit. *)
Theorem returned_commits_from_log :
  (forall context env res,
      GaitContext.getGitHistory JSON_parse isStashedState context env = Ok res ->
      exists logData,
        GaitContext.gitLog env = Some logData
        /\ NoDup (map commitHash (GaitContext.commits res))
        /\ forall cd, cd ∈ GaitContext.commits res ->
             fromLines (GaitContext.snapshotAt JSON_parse isStashedState env)
               (logLinesOf logData) cd)
  /\ (forall env filePath res,
        ExtensionTs.getGitHistory JSON_parse isStashedState env filePath = Ok res ->
        exists logData,
          ExtensionTs.gitLog env = Some logData
          /\ NoDup (map commitHash (ExtensionTs.commits res))
          /\ forall cd, cd ∈ ExtensionTs.commits res ->
               fromLines (ExtensionTs.snapshotAt JSON_parse isStashedState env)
                 (logLinesOf logData) cd
               /\ ExtensionTs.isDeletionCommit (commitMessage cd) = false).
Proof.
  split.
  - intros context env res
      (inl & logData & _ & _ & Hlog & Hcommits & _)%md_getGitHistory_Ok.
    exists logData. split; [done|]. rewrite Hcommits.
    match goal with |- context [GaitContext.walk _ _ ?e ?c ?ci ?ls] =>
      destruct (md_walk_records JSON_parse isStashedState e c ci ls)
        as [Hnd Hall] end.
    split.
    + eapply sublist_NoDup; [exact Hnd|].
      unfold GaitContext.pruneCommits.
      etrans; [apply map_filter_sublist|].
      rewrite map_map. cbn [withCommitPanelChats commitHash]. done.
    + intros cd (c & Hc & -> & _)%pruneCommits_elem.
      rewrite Forall_forall in Hall. by eapply fromLines_ext; [apply Hall|..].
  - intros env filePath res
      (logData & _ & Hlog & _ & Hcommits & _)%ext_getGitHistory_Ok.
    exists logData. split; [done|]. rewrite Hcommits.
    match goal with |- context [ExtensionTs.walk _ _ ?e ?c ?cp ?ls] =>
      destruct (ext_walk_records JSON_parse isStashedState e c cp ls)
        as [Hnd Hall] end.
    split.
    + eapply sublist_NoDup; [exact Hnd|].
      apply (map_filter_sublist commitHash).
    + intros cd [Hcd _]%list_elem_of_In%filter_In. apply list_elem_of_In in Hcd.
      rewrite Forall_forall in Hall. specialize (Hall cd Hcd).
      split; [done|].
      destruct Hall as (line & _ & Hsnap & _ & _ & -> & _).
      unfold ExtensionTs.snapshotAt in Hsnap.
      by destruct (ExtensionTs.isDeletionCommit _).
Qed.

End returned_commits_facts.

Section returned_history_examples.
Import Types PanelGit WalkSpec StashedStateStore CommitIndex CommitRecordSpec
  HistoryExamples.

Lemma later_example_result :
  exists res,
    GaitContext.getGitHistory exampleParse exampleValid laterContext laterEnv
    = Ok res.
Proof. eexists. vm_compute. reflexivity. Defined.

Lemma earlier_example_result :
  exists res,
    ExtensionTs.getGitHistory exampleParse exampleValid earlierEnv
      "stashedPanelChats.json" = Ok res.
Proof. eexists. vm_compute. reflexivity. Defined.

Lemma returned_ids_unique_and_active_witness :
  exists res,
    GaitContext.getGitHistory exampleParse exampleValid laterContext laterEnv
    = Ok res
    /\ NoDup (attributedIds (GaitContext.commits res))
    /\ forall m, m ∈ attributedIds (GaitContext.commits res) ->
         m ∈ (collectCurrentIds
                (GaitContext.currentSnapshot exampleValid laterContext)).2.
Proof.
  destruct later_example_result as [res Hres]. exists res. split; [exact Hres|].
  exact (proj1 (returned_ids_unique_and_active exampleParse exampleValid)
           laterContext laterEnv res Hres).
Defined.

Lemma inline_index_last_commit_wins_witness :
  exists idx res inl cd,
    getInlineChatIdToCommitInfo InlineIndexExamples.inlineParse exampleValid
      InlineIndexExamples.inlineContext InlineIndexExamples.inlineEnv
    = Ok idx
    /\ GaitContext.getGitHistory InlineIndexExamples.inlineParse exampleValid
         InlineIndexExamples.inlineContext InlineIndexExamples.inlineEnv
       = Ok res
    /\ inlineChats
         (GaitContext.currentSnapshot exampleValid
            InlineIndexExamples.inlineContext)
       = Some inl
    /\ map commitHash (GaitContext.commits res) = ["h1"; "h2"]
    /\ map commitHash (inlineHoldersOf "i1" (GaitContext.commits res))
       = ["h1"; "h2"]
    /\ idx !! "i1" = last (inlineHoldersOf "i1" (GaitContext.commits res))
    /\ idx !! "i1" = Some cd
    /\ commitHash cd = "h2"
    /\ cd ∈ GaitContext.commits res
    /\ "i1" ∈ map inline_chat_id (commitInlineChats cd)
    /\ "i1" ∈ map inline_chat_id inl
    /\ existsb hasMessages (commitPanelChats cd) = true
    /\ idx !! "i2" = None.
Proof.
  assert (Hex : exists res0,
            GaitContext.getGitHistory InlineIndexExamples.inlineParse
              exampleValid InlineIndexExamples.inlineContext
              InlineIndexExamples.inlineEnv = Ok res0
            /\ map commitHash (GaitContext.commits res0) = ["h1"; "h2"]
            /\ map commitHash (inlineHoldersOf "i1" (GaitContext.commits res0))
               = ["h1"; "h2"]
            /\ inlineHoldersOf "i2" (GaitContext.commits res0) = [])
    by (eexists; split; [vm_compute; reflexivity|];
        repeat split; vm_compute; reflexivity).
  destruct Hex as (res0 & Hres0 & Hall & Hholders & Hnone).
  exists (indexInlineChats (GaitContext.commits res0)).
  assert (Hidx : getInlineChatIdToCommitInfo InlineIndexExamples.inlineParse
                   exampleValid InlineIndexExamples.inlineContext
                   InlineIndexExamples.inlineEnv
                 = Ok (indexInlineChats (GaitContext.commits res0)))
    by (unfold getInlineChatIdToCommitInfo; rewrite Hres0; reflexivity).
  destruct (inline_index_last_commit_wins InlineIndexExamples.inlineParse
              exampleValid InlineIndexExamples.inlineContext
              InlineIndexExamples.inlineEnv _ Hidx)
    as (res & inl & Hres & Hinl & H).
  assert (res = res0) as -> by congruence.
  destruct (H "i1") as [Hlast Hcd]. destruct (H "i2") as [Hlast2 _].
  destruct (inlineHoldersOf "i1" (GaitContext.commits res0))
    as [|c1 [|c2 [|c3 cs]]] eqn:Hlist; try discriminate Hholders.
  injection Hholders as Hh1 Hh2.
  change (last [c1; c2]) with (Some c2) in Hlast.
  destruct (Hcd c2 Hlast) as (H1 & H2 & H3 & H4).
  exists res0, inl, c2.
  split; [exact Hidx|]. split; [exact Hres|]. split; [exact Hinl|].
  split; [exact Hall|]. split; [rewrite Hlist; cbn; congruence|].
  split; [rewrite Hlist; exact Hlast|].
  split; [exact Hlast|]. split; [exact Hh2|]. split; [exact H1|].
  split; [exact H2|]. split; [exact H3|]. split; [exact H4|].
  rewrite Hlast2, Hnone. reflexivity.
Defined.

Lemma history_sections_disjoint_witness :
  exists res,
    GaitContext.getGitHistory exampleParse exampleValid laterContext laterEnv
    = Ok res
    /\ "m1" ∈ attributedIds (GaitContext.commits res)
    /\ ("m1" ∉ messageIds
                 (GaitContext.uncommittedPanelChats (GaitContext.added res)))
    /\ "m1" ∉ messageIds
                (GaitContext.uncommittedPanelChats (GaitContext.uncommitted res)).
Proof.
  eexists.
  assert (Hres : GaitContext.getGitHistory exampleParse exampleValid
                   laterContext laterEnv = Ok _) by (vm_compute; reflexivity).
  split; [exact Hres|].
  lazymatch type of Hres with
  | _ = Ok ?r =>
      assert (Hin : "m1" ∈ attributedIds (GaitContext.commits r))
        by (apply (bool_decide_unpack _); vm_compute; exact I);
      split; [exact Hin|];
      exact (proj1 (history_sections_disjoint exampleParse exampleValid
                      laterContext laterEnv r "m1" Hres) Hin)
  end.
Defined.

Lemma returned_commits_from_log_witness :
  exists res logData,
    ExtensionTs.getGitHistory exampleParse exampleValid earlierEnv
      "stashedPanelChats.json" = Ok res
    /\ ExtensionTs.gitLog earlierEnv = Some logData
    /\ NoDup (map commitHash (ExtensionTs.commits res))
    /\ forall cd, cd ∈ ExtensionTs.commits res ->
         fromLines (ExtensionTs.snapshotAt exampleParse exampleValid earlierEnv)
           (logLinesOf logData) cd
         /\ ExtensionTs.isDeletionCommit (commitMessage cd) = false.
Proof.
  destruct earlier_example_result as [res Hres]. exists res.
  destruct (proj2 (returned_commits_from_log exampleParse exampleValid)
              earlierEnv "stashedPanelChats.json" res Hres)
    as (logData & Hlog & H).
  exists logData. split; [exact Hres|]. split; [exact Hlog|exact H].
Defined.

End returned_history_examples.

(** ** Reading a line of the log *)

Section log_line_facts.
Import JsString Types PanelGit LogFormat.

Lemma split_cons_shape sep s : exists h t, split sep s = h :: t.
Proof.
  induction s as [|c r IH]; [by eexists _, _|]. cbn [split].
  destruct (Ascii.eqb c sep); [by eexists _, _|].
  destruct IH as (h & t & ->). by eexists _, _.
Qed.

Lemma join_cons sep p q rest :
  join sep (p :: q :: rest) = p +:+ sep +:+ join sep (q :: rest).
Proof. reflexivity. Qed.

(** Joining what [split] gives, with the separator, restores the string. *)
Lemma join_split sep s : join (String sep EmptyString) (split sep s) = s.
Proof.
  induction s as [|c r IH]; [done|]. cbn [split].
  destruct (Ascii.eqb_spec c sep) as [->|Hne].
  - destruct (split_cons_shape sep r) as (h & t & E). rewrite E in *.
    rewrite join_cons, IH. reflexivity.
  - destruct (split_cons_shape sep r) as (h & t & E). rewrite E in *.
    rewrite <- IH. by destruct t.
Qed.

Lemma split_field sep a r :
  hasChar sep a = false ->
  split sep (a +:+ String sep r) = a :: split sep r.
Proof.
  induction a as [|c a IH]; simpl.
  - intros _. by rewrite Ascii.eqb_refl.
  - intros [Hc Ha]%orb_false_iff. rewrite Hc, IH by done. done.
Qed.

(** X16: A line of the log gives back the four fields git printed, when hash,
    author and date hold no tab; the subject may hold tabs, it is put
    together again from the remaining parts. *)
Theorem log_line_round_trip H an ad s :
  hasChar TAB H = false -> hasChar TAB an = false -> hasChar TAB ad = false ->
  parseLogLine (formatLogLine H an ad s) = mkLogEntry H (Some an) (Some ad) s.
Proof.
  intros HH Han Had. unfold parseLogLine, formatLogLine.
  rewrite !split_field by done.
  change (drop 3 (H :: an :: ad :: split TAB s)) with (split TAB s).
  by rewrite join_split.
Qed.

Lemma log_line_round_trip_witness :
  parseLogLine
    (formatLogLine "9fceb02" "Ada L" "Mon Oct 2 2024"
       ("fix" +:+ String TAB "tabs" +:+ String TAB "kept"))
  = mkLogEntry "9fceb02" (Some "Ada L") (Some "Mon Oct 2 2024")
      ("fix" +:+ String TAB "tabs" +:+ String TAB "kept").
Proof. apply log_line_round_trip; reflexivity. Defined.

End log_line_facts.

(** ** Colours, line decorations and panel ranges *)

Section color_facts.
Import Decoration.

(** X17: Two indexes from 0 on get the same colour exactly when they agree
    modulo 4: the colours cycle through four hues, so neighbours differ and
    the fifth decoration is coloured like the first. *)
Theorem colors_cycle_of_four i j :
  0 <= i -> 0 <= j ->
  (generateColors i = generateColors j <-> i mod 4 = j mod 4).
Proof.
  intros Hi Hj. unfold generateColors, hueOf.
  rewrite !Z.rem_mod_nonneg by lia.
  pose proof (Z.mod_pos_bound i 4 ltac:(lia)) as Bi.
  pose proof (Z.mod_pos_bound j 4 ltac:(lia)) as Bj.
  assert (i mod 4 = 0 \/ i mod 4 = 1 \/ i mod 4 = 2 \/ i mod 4 = 3)
    as [-> | [-> | [-> | ->]]] by lia;
  assert (j mod 4 = 0 \/ j mod 4 = 1 \/ j mod 4 = 2 \/ j mod 4 = 3)
    as [-> | [-> | [-> | ->]]] by lia;
  (split; [intros H; try reflexivity; vm_compute in H; discriminate H
          |intros H; try reflexivity; lia]).
Qed.

Lemma colors_cycle_of_four_witness :
  generateColors 1 = generateColors 5 <-> 1 mod 4 = 5 mod 4.
Proof. apply colors_cycle_of_four; lia. Defined.

End color_facts.

Section decoration_table_facts.
Import Types InlineDecoration PanelDecoration.
Variable documentLines : list string.

Lemma applyCalls_snoc active calls c m :
  applyCalls documentLines active (calls ++ [c]) m
  = addDecorationType documentLines active (call_color c) (call_line c)
      (call_timestamp c) (call_type c) (applyCalls documentLines active calls m).
Proof. unfold applyCalls. by rewrite foldl_app. Qed.

Lemma addDecorationType_other active color line ts type m line' :
  line <> line' ->
  addDecorationType documentLines active color line ts type m !! line'
  = m !! line'.
Proof.
  intros Hne. unfold addDecorationType. destruct (negb active); [done|].
  destruct (m !! line) as [d|]; [destruct (numberLt _ _)|];
    by rewrite ?lookup_insert_ne.
Qed.

(** X18: The entry of a line in the table is the decoration of the first call
    with the least timestamp among the calls for that line (timestamps that
    are numbers): an earlier call with the same timestamp is not replaced.
    With decorations switched off the table stays empty. *)
Theorem earliest_decoration_wins calls line :
  (forall c, c ∈ calls -> call_timestamp c <> None) ->
  match applyCalls documentLines true calls ∅ !! line with
  | None => forall c, c ∈ calls -> call_line c <> line
  | Some d =>
      exists pre c post,
        calls = pre ++ c :: post
        /\ call_line c = line
        /\ d = decorationOf documentLines c
        /\ (forall c', c' ∈ pre -> call_line c' = line ->
              default 0 (call_timestamp c) < default 0 (call_timestamp c'))
        /\ (forall c', c' ∈ post -> call_line c' = line ->
              default 0 (call_timestamp c) <= default 0 (call_timestamp c'))
  end
  /\ applyCalls documentLines false calls ∅ = ∅.
Proof.
  intros Hnum. split.
  2:{ clear. induction calls as [|c calls IH] using rev_ind; [done|].
      by rewrite applyCalls_snoc, IH. }
  induction calls as [|c0 calls IH] using rev_ind.
  { cbn. rewrite lookup_empty. intros c Hc. by apply elem_of_nil in Hc. }
  rewrite applyCalls_snoc.
  assert (Hnum' : forall c, c ∈ calls -> call_timestamp c <> None)
    by (intros c Hc; apply Hnum; set_solver).
  specialize (IH Hnum').
  destruct (decide (call_line c0 = line)) as [Hline|Hline].
  2:{ rewrite addDecorationType_other by done.
      destruct (applyCalls documentLines true calls ∅ !! line) as [d|].
      - destruct IH as (pre & c & post & -> & H1 & H2 & H3 & H4).
        exists pre, c, (post ++ [c0]). rewrite <- app_assoc. split; [done|].
        split; [done|]. split; [done|]. split; [done|].
        intros c' [Hc'|Hc'%list_elem_of_singleton]%elem_of_app Hl;
          [by apply H4|]. by subst.
      - intros c [Hc|Hc%list_elem_of_singleton]%elem_of_app;
          [by apply IH|by subst]. }
  unfold addDecorationType. cbn [negb]. rewrite Hline.
  destruct (applyCalls documentLines true calls ∅ !! line) as [d|] eqn:Hm.
  - destruct IH as (pre & c & post & -> & H1 & -> & H3 & H4).
    cbn [decorationOf ld_timestamp].
    assert (exists t0, call_timestamp c0 = Some t0) as [t0 Ht0].
    { destruct (call_timestamp c0) eqn:E; [by eexists|].
      exfalso. apply (Hnum c0); [set_solver|done]. }
    assert (exists t, call_timestamp c = Some t) as [t Ht].
    { destruct (call_timestamp c) eqn:E; [by eexists|].
      exfalso. apply (Hnum c); [set_solver|done]. }
    rewrite Ht0, Ht in *. cbn [numberLt default] in *. unfold id in *.
    destruct (Z.ltb_spec t0 t) as [Hlt|Hge].
    + rewrite lookup_insert_eq.
      exists (pre ++ c :: post), c0, []. split; [done|]. split; [done|].
      split; [unfold decorationOf; by rewrite ?Ht0, ?Hline|].
      cbn [default]. rewrite ?Ht0. cbn. unfold id.
      split; [|intros c' Hc'; by apply elem_of_nil in Hc'].
      intros c' [Hc'|[->|Hc']%elem_of_cons]%elem_of_app Hl.
      * specialize (H3 c' Hc' Hl). lia.
      * rewrite Ht. cbn. unfold id. lia.
      * specialize (H4 c' Hc' Hl). lia.
    + rewrite Hm. exists pre, c, (post ++ [c0]). rewrite <- app_assoc.
      split; [done|]. split; [done|]. split; [done|].
      rewrite Ht. cbn [default]. unfold id. split; [done|].
      intros c' [Hc'|Hc'%list_elem_of_singleton]%elem_of_app Hl;
        [by apply H4|]. subst c'. rewrite Ht0. cbn. unfold id. lia.
  - rewrite lookup_insert_eq. exists calls, c0, []. split; [done|].
    split; [done|]. split; [by rewrite <- Hline|].
    split; [|intros c' Hc'; by apply elem_of_nil in Hc'].
    intros c' Hc' Hl. by destruct (IH c' Hc').
Qed.

End decoration_table_facts.

Section panel_range_facts.
Import JsString Types InlineDecoration PanelDecoration.
Variable documentLines : list string.
Variable decorations_active : bool.
Variable dateTime : string -> option Z.
Variable color : string.
Variable panelChat : PanelChat.
Variable message : MessageEntry.

Local Abbreviation panelCall :=
  (PanelDecoration.panelCall dateTime color panelChat).
Local Abbreviation panelEntry :=
  (PanelDecoration.panelEntry documentLines panelChat message).

(** On a range of one line the loop adds the range of that line of the
    editor when the line is not yet claimed, and nothing otherwise. *)
Lemma claimRange_single_line st r :
  endLine r = startLine r ->
  claimRange documentLines decorations_active dateTime color panelChat message
    st r
  = if lineInRangesToPanel st.1 (startLine r) then st
    else addRange documentLines decorations_active dateTime color panelChat
           message (lineRange documentLines (startLine r)) st.
Proof.
  intros Hr. unfold claimRange. rewrite Hr.
  generalize (startLine r) as j. intros j.
  replace (j - j + 1) with 1 by lia.
  change (seqZ j 1) with [j]. cbn [foldl splitStep].
  destruct (lineInRangesToPanel st.1 j).
  - rewrite Z.eqb_refl. cbn [negb].
    destruct (Z.leb_spec (j + 1) j); [lia|done].
  - by rewrite Z.leb_refl.
Qed.

Lemma claimRanges_cons st r rs :
  claimRanges documentLines decorations_active dateTime color panelChat message
    st (r :: rs)
  = claimRanges documentLines decorations_active dateTime color panelChat message
      (claimRange documentLines decorations_active dateTime color panelChat
         message st r) rs.
Proof. reflexivity. Qed.

Lemma lineInRangesToPanel_app l1 l2 line :
  lineInRangesToPanel (l1 ++ l2) line
  = lineInRangesToPanel l1 line || lineInRangesToPanel l2 line.
Proof. apply existsb_app. Qed.

Lemma lineInRangesToPanel_entries js line :
  lineInRangesToPanel (map panelEntry js) line = bool_decide (line ∈ js).
Proof.
  induction js as [|j js IH]; [done|]. cbn [map lineInRangesToPanel existsb].
  fold (lineInRangesToPanel (map panelEntry js) line). rewrite IH.
  cbn [panelEntry pm_range lineRange startLine endLine].
  destruct (decide (line = j)) as [->|Hne].
  - rewrite !Z.leb_refl. cbn. symmetry. apply bool_decide_eq_true.
    apply elem_of_cons. by left.
  - replace ((j <=? line) && (line <=? j)) with false
      by (symmetry; apply andb_false_iff; lia).
    cbn. apply bool_decide_ext. rewrite elem_of_cons.
    split; [by right|]. by intros [?|?].
Qed.

Lemma claimRanges_lines js : forall st,
  NoDup js ->
  claimRanges documentLines decorations_active dateTime color panelChat message
    st (map (lineRange documentLines) js)
  = (st.1
     ++ map panelEntry
          (List.filter (fun j => negb (lineInRangesToPanel st.1 j)) js),
     applyCalls documentLines decorations_active
       (map panelCall
          (List.filter (fun j => negb (lineInRangesToPanel st.1 j)) js))
       st.2).
Proof.
  induction js as [|j js IH]; intros st Hnd.
  { cbn. rewrite app_nil_r. by destruct st. }
  apply NoDup_cons in Hnd as [Hj Hnd].
  cbn [map]. rewrite claimRanges_cons.
  rewrite claimRange_single_line, IH by done.
  change (startLine (lineRange documentLines j)) with j. cbn [List.filter].
  destruct (lineInRangesToPanel st.1 j) eqn:Hc; cbn [negb]; [done|].
  cbn [addRange fst snd map applyCalls foldl].
  fold (applyCalls documentLines decorations_active).
  assert (Hfilter :
    List.filter
      (fun j0 =>
         negb (lineInRangesToPanel
                 (st.1 ++ [mkPanelMatchedRange (lineRange documentLines j)
                             panelChat (msg_id message)]) j0)) js
    = List.filter (fun j0 => negb (lineInRangesToPanel st.1 j0)) js).
  { apply filter_ext_in. intros j0 Hj0. f_equal.
    rewrite lineInRangesToPanel_app.
    change [mkPanelMatchedRange (lineRange documentLines j) panelChat
              (msg_id message)] with (map panelEntry [j]).
    rewrite lineInRangesToPanel_entries, bool_decide_eq_false_2, orb_false_r;
      [done|].
    intros ->%list_elem_of_singleton. by apply Hj, list_elem_of_In. }
  rewrite Hfilter, <- app_assoc. done.
Qed.

(** The loop reads of a single-line range its line only. *)
Lemma claimRanges_startLines rs : forall st,
  (forall r, r ∈ rs -> endLine r = startLine r) ->
  claimRanges documentLines decorations_active dateTime color panelChat message
    st rs
  = claimRanges documentLines decorations_active dateTime color panelChat message
      st (map (lineRange documentLines) (map startLine rs)).
Proof.
  induction rs as [|r rs IH]; intros st Hrs; [done|].
  cbn [map]. rewrite !claimRanges_cons.
  rewrite (claimRange_single_line st r)
    by (apply Hrs, elem_of_cons; by left).
  rewrite (claimRange_single_line st (lineRange documentLines (startLine r)))
    by done.
  change (startLine (lineRange documentLines (startLine r))) with (startLine r).
  apply IH. intros r' Hr'. apply Hrs, elem_of_cons. by right.
Qed.

End panel_range_facts.

Section panel_claim_facts.
Import JsString Types InlineDecoration PanelDecoration.
Variable decorations_active : bool.
Variable dateTime : string -> option Z.
Variable color : string.
Variable panelChat : PanelChat.
Variable message : MessageEntry.


End panel_claim_facts.

(** ** The live messages of [decorateActive] *)

Section current_messages_facts.
Import Types PanelDecoration.

Lemma pushMessage_Some del pc acc m :
  pushMessage (Some del) pc (Some acc) m
  = Some (if bool_decide (msg_id m ∈ del) then acc
          else if bool_decide (msg_id m ∈ map (fun item => msg_id item.1) acc)
               then acc
               else acc ++ [(m, pc)]).
Proof.
  unfold pushMessage. cbn [mbind option_bind].
  destruct (bool_decide (msg_id m ∈ del)); [done|].
  destruct (list_find _ acc) as [[i item]|] eqn:Hfind.
  - apply list_find_Some in Hfind as (Hi & Hid & _).
    rewrite bool_decide_eq_true_2; [done|].
    apply list_elem_of_fmap. exists item. split; [done|].
    by eapply list_elem_of_lookup_2.
  - apply list_find_None in Hfind. rewrite bool_decide_eq_false_2; [done|].
    intros (item & Hid & Hin)%list_elem_of_fmap.
    rewrite Forall_forall in Hfind. by apply (Hfind item).
Qed.

(** The two nested loops, on the messages of the chats in the order they
    are visited. *)
Lemma pushMessages_spec del (chats : list PanelChat) : forall acc,
  NoDup (map (fun item => msg_id item.1) acc) ->
  exists acc',
    foldl
      (fun a panelChat =>
         foldl (pushMessage (Some del) panelChat) a (messages panelChat))
      (Some acc) chats = Some acc'
    /\ NoDup (map (fun item => msg_id item.1) acc')
    /\ (forall item, item ∈ acc' ->
          item ∈ acc
          \/ (item.2 ∈ chats /\ item.1 ∈ messages item.2
              /\ msg_id item.1 ∉ del))
    /\ (forall item, item ∈ acc -> item ∈ acc')
    /\ (forall pc m, pc ∈ chats -> m ∈ messages pc -> msg_id m ∉ del ->
          msg_id m ∈ map (fun item => msg_id item.1) acc').
Proof.
  assert (Hinner : forall pc (msgs : list MessageEntry) acc,
    NoDup (map (fun item => msg_id item.1) acc) ->
    exists acc',
      foldl (pushMessage (Some del) pc) (Some acc) msgs = Some acc'
      /\ NoDup (map (fun item => msg_id item.1) acc')
      /\ (forall item, item ∈ acc' ->
            item ∈ acc
            \/ (item.2 = pc /\ item.1 ∈ msgs /\ msg_id item.1 ∉ del))
      /\ (forall item, item ∈ acc -> item ∈ acc')
      /\ (forall m, m ∈ msgs -> msg_id m ∉ del ->
            msg_id m ∈ map (fun item => msg_id item.1) acc')).
  { intros pc msgs. induction msgs as [|m msgs IH]; intros acc Hnd.
    - exists acc. split; [done|]. split; [done|]. split; [by left|].
      split; [done|]. intros m Hm. by apply elem_of_nil in Hm.
    - cbn [foldl]. rewrite pushMessage_Some.
      set (acc1 := if bool_decide (msg_id m ∈ del) then acc
                   else if bool_decide
                             (msg_id m ∈ map (fun item => msg_id item.1) acc)
                        then acc else acc ++ [(m, pc)]).
      assert (Hnd1 : NoDup (map (fun item => msg_id item.1) acc1)).
      { subst acc1. destruct (bool_decide (msg_id m ∈ del)); [done|].
        destruct (bool_decide_reflect
                    (msg_id m ∈ map (fun item => msg_id item.1) acc)); [done|].
        rewrite map_app. apply NoDup_app. split; [done|].
        split; [|apply NoDup_singleton].
        intros x Hx Hx'%list_elem_of_singleton. by subst x. }
      assert (H1 : forall item, item ∈ acc1 ->
                item ∈ acc \/ (item = (m, pc) /\ msg_id m ∉ del)).
      { subst acc1. intros item.
        destruct (bool_decide_reflect (msg_id m ∈ del)); [by left|].
        destruct (bool_decide _); [by left|].
        intros [?|Hi%list_elem_of_singleton]%elem_of_app; [by left|by right]. }
      assert (H2 : forall item, item ∈ acc -> item ∈ acc1).
      { subst acc1. intros item Hitem. destruct (bool_decide _); [done|].
        destruct (bool_decide _); [done|]. apply elem_of_app. by left. }
      assert (H3 : msg_id m ∉ del ->
                   msg_id m ∈ map (fun item => msg_id item.1) acc1).
      { subst acc1. intros Hm. rewrite (bool_decide_eq_false_2 _ Hm).
        destruct (bool_decide_reflect
                    (msg_id m ∈ map (fun item => msg_id item.1) acc)); [done|].
        rewrite map_app. apply elem_of_app. right. cbn.
        apply list_elem_of_singleton. done. }
      destruct (IH acc1 Hnd1) as (acc' & -> & Hnd' & Ha & Hb & Hc).
      exists acc'. split; [done|]. split; [done|]. split; [|split].
      + intros item [Hitem|(Hpc & Hin & Hdel)]%Ha.
        * apply H1 in Hitem as [?|[-> ?]]; [by left|].
          right. cbn. split; [done|]. split; [apply elem_of_cons; by left|done].
        * right. split; [done|]. split; [apply elem_of_cons; by right|done].
      + intros item Hitem. by apply Hb, H2.
      + intros m' [->|Hm']%elem_of_cons Hdel; [|by apply Hc].
        apply H3 in Hdel.
        apply list_elem_of_fmap in Hdel as (item & -> & Hitem).
        apply list_elem_of_fmap. exists item. split; [done|]. by apply Hb. }
  induction chats as [|pc chats IH]; intros acc Hnd.
  - exists acc. split; [done|]. split; [done|]. split; [by left|].
    split; [done|]. intros pc m Hpc. by apply elem_of_nil in Hpc.
  - cbn [foldl].
    destruct (Hinner pc (messages pc) acc Hnd)
      as (acc1 & -> & Hnd1 & Ha1 & Hb1 & Hc1).
    destruct (IH acc1 Hnd1) as (acc' & -> & Hnd' & Ha & Hb & Hc).
    exists acc'. split; [done|]. split; [done|]. split; [|split].
    + intros item [Hitem|(Hpc & Hin & Hdel)]%Ha.
      * apply Ha1 in Hitem as [?|(E & ? & ?)]; [by left|].
        right. rewrite E. split; [apply elem_of_cons; by left|].
        split; [done|done].
      * right. split; [apply elem_of_cons; by right|done].
    + intros item Hitem. by apply Hb, Hb1.
    + intros pc' m [->|Hpc']%elem_of_cons Hm Hdel; [|by eapply Hc].
      specialize (Hc1 m Hm Hdel).
      apply list_elem_of_fmap in Hc1 as (item & -> & Hitem).
      apply list_elem_of_fmap. exists item. split; [done|]. by apply Hb.
Qed.

(** X20: With both ledger arrays present, [currentMessages] is computed, holds
    every message id once, only holds messages that are not deleted, each
    with a chat it belongs to that is not deleted, and holds the id of every
    such message of the stashed state and of the stored chats. *)
Theorem current_messages_live_once stashedState stored deletedMessages deletedPanelChats :
  deletedChats stashedState
  = Some (mkDeletedChats (Some deletedMessages) (Some deletedPanelChats)) ->
  exists acc,
    currentMessages stashedState stored = Some acc
    /\ NoDup (map (fun item => msg_id item.1) acc)
    /\ (forall item, item ∈ acc ->
          item.2 ∈ allPanelChats stashedState stored
          /\ item.1 ∈ messages item.2
          /\ (chat_id item.2 ∉ deletedPanelChats)
          /\ msg_id item.1 ∉ deletedMessages)
    /\ (forall pc m,
          pc ∈ allPanelChats stashedState stored -> m ∈ messages pc ->
          chat_id pc ∉ deletedPanelChats -> msg_id m ∉ deletedMessages ->
          msg_id m ∈ map (fun item => msg_id item.1) acc).
Proof.
  intros Hledger. unfold currentMessages.
  assert (Hchats : currentPanelChats stashedState stored
                   = Some (List.filter
                             (fun chat =>
                                negb (bool_decide (chat_id chat ∈ deletedPanelChats)))
                             (allPanelChats stashedState stored))).
  { unfold currentPanelChats. rewrite Hledger.
    by destruct (allPanelChats stashedState stored). }
  rewrite Hchats, Hledger. cbn [mbind option_bind deletedMessageIDs].
  destruct (pushMessages_spec deletedMessages
              (List.filter
                 (fun chat => negb (bool_decide (chat_id chat ∈ deletedPanelChats)))
                 (allPanelChats stashedState stored)) [])
    as (acc & -> & Hnd & Ha & _ & Hc); [constructor|].
  exists acc. split; [done|]. split; [done|]. split.
  - intros item [Hitem|(Hpc & Hm & Hdel)]%Ha; [by apply elem_of_nil in Hitem|].
    apply list_elem_of_In, filter_In in Hpc as [Hpc Hlive].
    apply negb_true_iff, bool_decide_eq_false in Hlive.
    by rewrite <- list_elem_of_In in Hpc.
  - intros pc m Hpc Hm Hlive Hdel. apply (Hc pc m); [|done|done].
    apply list_elem_of_In, filter_In. split; [by apply list_elem_of_In|].
    by apply negb_true_iff, bool_decide_eq_false.
Qed.

End current_messages_facts.

(** ** [getGitHistoryThatTouchesFile] (earlier text) *)

Section touches_lemmas.

Lemma foldl_filter_step {A B} (f : A -> B -> A) (P : B -> bool) (l : list B) :
  forall a,
    foldl (fun a x => if P x then f a x else a) a l
    = foldl f a (List.filter P l).
Proof.
  induction l as [|x l IH]; intros a; [done|]. cbn [foldl List.filter].
  destruct (P x); cbn [foldl]; apply IH.
Qed.

End touches_lemmas.

Section touches_file_facts.
Import JsString Types PanelGit WalkSpec CommitRecordSpec.
Variable JSON_parse : string -> option StashedState.
Variable isStashedState : StashedState -> bool.
Variable env : ExtensionTs.Env.
Variable tenv : TouchesFile.TargetEnv.
Variable targetFilePath : string.

Lemma touches_step cur curPC st line :
  TouchesFile.commitIteration JSON_parse isStashedState env tenv targetFilePath
    cur curPC st line
  = if TouchesFile.touchesTarget tenv targetFilePath line
    then ExtensionTs.commitIteration JSON_parse isStashedState env cur curPC st line
    else st.
Proof.
  unfold TouchesFile.commitIteration, TouchesFile.touchesTarget,
    ExtensionTs.commitIteration.
  destruct (ExtensionTs.isDeletionCommit _);
    [by destruct (TouchesFile.modifiesTargetFile _ _ _) as [[|]|]|].
  by destruct (TouchesFile.modifiesTargetFile _ _ _) as [[|]|].
Qed.

(** The walk is the walk of [getGitHistory] over the lines of the commits
    that list the target file. *)
Lemma touches_walk cur curPC lines :
  TouchesFile.walk JSON_parse isStashedState env tenv targetFilePath cur curPC lines
  = ExtensionTs.walk JSON_parse isStashedState env cur curPC
      (List.filter (TouchesFile.touchesTarget tenv targetFilePath) lines).
Proof.
  unfold TouchesFile.walk, ExtensionTs.walk.
  rewrite <- foldl_filter_step.
  generalize (∅ : gset string, [] : list CommitData).
  induction lines as [|line lines IH]; intros st; [done|].
  cbn [foldl]. by rewrite touches_step, IH.
Qed.

Lemma touches_Returned filePath res :
  TouchesFile.getGitHistoryThatTouchesFile JSON_parse isStashedState env tenv
    targetFilePath filePath = TouchesFile.Returned res ->
  exists logData,
    ExtensionTs.existsSync env = true
    /\ TouchesFile.targetExistsSync tenv = true
    /\ ExtensionTs.gitLog env = Some logData
    /\ ExtensionTs.commits res
       = List.filter (fun commit => existsb hasMessages (commitPanelChats commit))
           (ExtensionTs.walk JSON_parse isStashedState env
              (collectCurrentIds
                 (ExtensionTs.currentSnapshot JSON_parse isStashedState env)).2
              (collectCurrentIds
                 (ExtensionTs.currentSnapshot JSON_parse isStashedState env)).1
              (List.filter (TouchesFile.touchesTarget tenv targetFilePath)
                 (logLinesOf logData))).2.
Proof.
  unfold TouchesFile.getGitHistoryThatTouchesFile.
  destruct (ExtensionTs.existsSync env); [|done].
  destruct (TouchesFile.targetExistsSync tenv); [|done]. cbn [negb].
  destruct (collectCurrentIds _) as [pcIds mIds] eqn:Eids.
  destruct (ExtensionTs.gitLog env) as [logData|]; [|done].
  destruct (ExtensionTs.gitStatus env) as [status|]; [|done].
  intros [= <-]. exists logData. rewrite touches_walk. done.
Qed.

(** X21: When the target file exists, the log is retrieved and every commit of
    it that is no deletion commit lists the target file,
    [getGitHistoryThatTouchesFile] returns what [getGitHistory] returns, or
    throws as it does when [git status] fails; both throw 'File not found'
    when the tracked file is missing.  When the log cannot be retrieved both
    throw, each with a message of its own.  Without the target file the
    function throws once the tracked file is found. *)
Theorem touches_file_coincides filePath :
  (forall logData,
      TouchesFile.targetExistsSync tenv = true ->
      ExtensionTs.gitLog env = Some logData ->
      (forall line,
          line ∈ logLinesOf logData ->
          ExtensionTs.isDeletionCommit (log_commitMessage (parseLogLine line))
          = false ->
          TouchesFile.touchesTarget tenv targetFilePath line = true) ->
      TouchesFile.getGitHistoryThatTouchesFile JSON_parse isStashedState env tenv
        targetFilePath filePath
      = TouchesFile.ofHistory
          (ExtensionTs.getGitHistory JSON_parse isStashedState env filePath))
  /\ (ExtensionTs.existsSync env = false ->
      TouchesFile.getGitHistoryThatTouchesFile JSON_parse isStashedState env tenv
        targetFilePath filePath
      = TouchesFile.Thrown (TouchesFile.HistoryThrown FileNotFound)
      /\ ExtensionTs.getGitHistory JSON_parse isStashedState env filePath
         = Throw FileNotFound)
  /\ (ExtensionTs.existsSync env = true ->
      TouchesFile.targetExistsSync tenv = true ->
      ExtensionTs.gitLog env = None ->
      TouchesFile.getGitHistoryThatTouchesFile JSON_parse isStashedState env tenv
        targetFilePath filePath
      = TouchesFile.Thrown TouchesFile.TargetLogFailed
      /\ ExtensionTs.getGitHistory JSON_parse isStashedState env filePath
         = Throw GitLogFailed)
  /\ (TouchesFile.targetExistsSync tenv = false ->
      ExtensionTs.existsSync env = true ->
      TouchesFile.getGitHistoryThatTouchesFile JSON_parse isStashedState env tenv
        targetFilePath filePath
      = TouchesFile.Thrown TouchesFile.TargetFileNotFound).
Proof.
  split; [|split; [|split]].
  - intros logData Htarget Hlog Hall.
    unfold TouchesFile.getGitHistoryThatTouchesFile, ExtensionTs.getGitHistory.
    rewrite Htarget, Hlog.
    destruct (ExtensionTs.existsSync env); [|done]. cbn [negb].
    destruct (collectCurrentIds _) as [pcIds mIds] eqn:Eids.
    assert (Hwalk : TouchesFile.walk JSON_parse isStashedState env tenv
                      targetFilePath mIds pcIds (logLinesOf logData)
                    = ExtensionTs.walk JSON_parse isStashedState env mIds pcIds
                        (logLinesOf logData)).
    { unfold TouchesFile.walk, ExtensionTs.walk.
      revert Hall.
      generalize (∅ : gset string, [] : list CommitData).
      induction (logLinesOf logData) as [|line lines IH]; intros st Hall;
        [done|].
      cbn [foldl].
      rewrite IH by (intros l Hl; apply Hall; apply elem_of_cons; by right).
      f_equal. rewrite touches_step.
      destruct (ExtensionTs.isDeletionCommit
                  (log_commitMessage (parseLogLine line))) eqn:Hdel.
      - unfold ExtensionTs.commitIteration. rewrite Hdel.
        by destruct (TouchesFile.touchesTarget _ _ _).
      - rewrite Hall; [done|apply elem_of_cons; by left|done]. }
    rewrite Hwalk. by destruct (ExtensionTs.gitStatus env).
  - intros Hfile.
    unfold TouchesFile.getGitHistoryThatTouchesFile, ExtensionTs.getGitHistory.
    by rewrite Hfile.
  - intros Hfile Htarget Hlog.
    unfold TouchesFile.getGitHistoryThatTouchesFile, ExtensionTs.getGitHistory.
    rewrite Hfile, Htarget, Hlog. cbn [negb].
    by destruct (collectCurrentIds _).
  - intros Htarget Hfile. unfold TouchesFile.getGitHistoryThatTouchesFile.
    by rewrite Hfile, Htarget.
Qed.

(** X22: The commits [getGitHistoryThatTouchesFile] returns have distinct hashes
    and each is recorded from a line of the log whose commit lists the
    target file, is no deletion commit and has a readable snapshot. *)
Theorem touches_file_returns_touching_commits filePath res :
  TouchesFile.getGitHistoryThatTouchesFile JSON_parse isStashedState env tenv
    targetFilePath filePath = TouchesFile.Returned res ->
  exists logData,
    ExtensionTs.gitLog env = Some logData
    /\ NoDup (map commitHash (ExtensionTs.commits res))
    /\ forall cd, cd ∈ ExtensionTs.commits res ->
         exists line,
           line ∈ logLinesOf logData
           /\ TouchesFile.touchesTarget tenv targetFilePath line = true
           /\ ExtensionTs.snapshotAt JSON_parse isStashedState env line <> None
           /\ recordedFrom line cd.
Proof.
  intros (logData & _ & _ & Hlog & Hcommits)%touches_Returned.
  exists logData. split; [done|]. rewrite Hcommits.
  match goal with |- context [ExtensionTs.walk _ _ ?e ?c ?cp ?ls] =>
    destruct (ext_walk_records JSON_parse isStashedState e c cp ls)
      as [Hnd Hall] end.
  split.
  - eapply sublist_NoDup; [exact Hnd|]. apply (map_filter_sublist commitHash).
  - intros cd [Hcd _]%list_elem_of_In%filter_In. apply list_elem_of_In in Hcd.
    rewrite Forall_forall in Hall.
    destruct (Hall cd Hcd) as (line & Hline & Hsnap & Hrec).
    apply list_elem_of_In, filter_In in Hline as [Hline Htouch].
    exists line. by rewrite list_elem_of_In.
Qed.

(** X23: Among the commits that list the target file, the first whose snapshot
    shows an active message in a live chat is the one returned with it, and
    no other returned commit holds the message: commits that do not list the
    target file are passed over, whatever they hold. *)
Theorem touches_file_earliest_attribution filePath res logData l1 line1 l2
    parsed1 m :
  TouchesFile.getGitHistoryThatTouchesFile JSON_parse isStashedState env tenv
    targetFilePath filePath = TouchesFile.Returned res ->
  ExtensionTs.gitLog env = Some logData ->
  logLinesOf logData = l1 ++ line1 :: l2 ->
  m ∈ (collectCurrentIds
         (ExtensionTs.currentSnapshot JSON_parse isStashedState env)).2 ->
  TouchesFile.touchesTarget tenv targetFilePath line1 = true ->
  ExtensionTs.snapshotAt JSON_parse isStashedState env line1 = Some parsed1 ->
  m ∈ liveMessageIds parsed1 ->
  (forall line parsed,
      line ∈ l1 ->
      TouchesFile.touchesTarget tenv targetFilePath line = true ->
      ExtensionTs.snapshotAt JSON_parse isStashedState env line = Some parsed ->
      m ∉ liveMessageIds parsed) ->
  exists cd1,
    cd1 ∈ ExtensionTs.commits res
    /\ commitHash cd1 = hashOf line1
    /\ m ∈ messageIds (commitPanelChats cd1)
    /\ forall cd, cd ∈ ExtensionTs.commits res ->
                  m ∈ messageIds (commitPanelChats cd) -> cd = cd1.
Proof.
  intros (logData' & _ & _ & Hlog & Hcommits)%touches_Returned
    Hlog' Hlines Hcur Htouch Hs1 Hlive Hl1.
  assert (logData' = logData) as -> by congruence.
  rewrite Hcommits, Hlines, List.filter_app. cbn [List.filter]. rewrite Htouch.
  unfold ExtensionTs.walk.
  destruct (walk_earliest
              (collectCurrentIds
                 (ExtensionTs.currentSnapshot JSON_parse isStashedState env)).2
              (ExtensionTs.commitIteration JSON_parse isStashedState env
                 (collectCurrentIds
                    (ExtensionTs.currentSnapshot JSON_parse isStashedState env)).2
                 (collectCurrentIds
                    (ExtensionTs.currentSnapshot JSON_parse isStashedState env)).1)
              (ExtensionTs.snapshotAt JSON_parse isStashedState env)
              (ext_step_skip _ _ _ _ _) (ext_step_record _ _ _ _ _)
              m (List.filter (TouchesFile.touchesTarget tenv targetFilePath) l1)
              line1
              (List.filter (TouchesFile.touchesTarget tenv targetFilePath) l2)
              parsed1 (∅, []))
    as (c1 & Hc1 & Hh1 & Hm1 & Huniq); try done.
  { split; [constructor|]. intros x Hx. by apply elem_of_nil in Hx. }
  { intros line parsed [Hl Ht]%list_elem_of_In%filter_In.
    apply Hl1; [by apply list_elem_of_In|done]. }
  exists c1. split.
  { apply list_elem_of_In, filter_In. split; [by apply list_elem_of_In|].
    by eapply existsb_hasMessages. }
  split; [done|]. split; [done|].
  intros cd [Hc%list_elem_of_In _]%list_elem_of_In%filter_In Hin.
  by apply Huniq.
Qed.

End touches_file_facts.

Section more_examples.
Import JsString Types PanelGit WalkSpec StashedStateStore CommitRecordSpec
  InlineDecoration PanelDecoration HistoryExamples StoreExamples
  TouchesExamples DecorationExamples.


Lemma earliest_decoration_wins_witness :
  match applyCalls ["x"] true threeCalls ∅ !! 0 with
  | None => forall c, c ∈ threeCalls -> call_line c <> 0
  | Some d =>
      exists pre c post,
        threeCalls = pre ++ c :: post
        /\ call_line c = 0
        /\ d = decorationOf ["x"] c
        /\ (forall c', c' ∈ pre -> call_line c' = 0 ->
              default 0 (call_timestamp c) < default 0 (call_timestamp c'))
        /\ (forall c', c' ∈ post -> call_line c' = 0 ->
              default 0 (call_timestamp c) <= default 0 (call_timestamp c'))
  end
  /\ applyCalls ["x"] false threeCalls ∅ = ∅.
Proof.
  apply (earliest_decoration_wins ["x"] threeCalls 0).
  intros c Hc. unfold threeCalls in Hc.
  repeat (apply elem_of_cons in Hc as [->|Hc]; [discriminate|]).
  by apply elem_of_nil in Hc.
Defined.

(** The entry kept is the second call: the first is later, the third not
    earlier. *)
Example earliest_decoration_example :
  ld_color <$> (applyCalls ["x"] true threeCalls ∅ !! 0) = Some "green".
Proof. vm_compute. reflexivity. Qed.

Lemma current_messages_live_once_witness :
  exists acc,
    currentMessages ledgerState [helloChat] = Some acc
    /\ NoDup (map (fun item => msg_id item.1) acc)
    /\ (forall item, item ∈ acc ->
          item.2 ∈ allPanelChats ledgerState [helloChat]
          /\ item.1 ∈ messages item.2
          /\ (chat_id item.2 ∉ ([] : list string))
          /\ msg_id item.1 ∉ ["m2"])
    /\ (forall pc m,
          pc ∈ allPanelChats ledgerState [helloChat] -> m ∈ messages pc ->
          chat_id pc ∉ ([] : list string) -> msg_id m ∉ ["m2"] ->
          msg_id m ∈ map (fun item => msg_id item.1) acc).
Proof.
  apply (current_messages_live_once ledgerState [helloChat] ["m2"] []).
  reflexivity.
Defined.

Lemma touches_file_coincides_witness :
  (exists data,
     ExtensionTs.getGitHistory exampleParse exampleValid earlierEnv
       "stashedPanelChats.json" = Ok data
     /\ TouchesFile.getGitHistoryThatTouchesFile exampleParse exampleValid
          earlierEnv everyCommitTouches "src/app.ts" "stashedPanelChats.json"
        = TouchesFile.Returned data)
  /\ (TouchesFile.getGitHistoryThatTouchesFile exampleParse exampleValid
        logFailsEnv everyCommitTouches "src/app.ts" "stashedPanelChats.json"
      = TouchesFile.Thrown TouchesFile.TargetLogFailed
      /\ ExtensionTs.getGitHistory exampleParse exampleValid logFailsEnv
           "stashedPanelChats.json" = Throw GitLogFailed).
Proof.
  split.
  - eexists.
    assert (Hres : ExtensionTs.getGitHistory exampleParse exampleValid
                     earlierEnv "stashedPanelChats.json" = Ok _)
      by (vm_compute; reflexivity).
    split; [exact Hres|].
    rewrite (proj1 (touches_file_coincides exampleParse exampleValid earlierEnv
                      everyCommitTouches "src/app.ts" "stashedPanelChats.json")
               exampleLog).
    + by rewrite Hres.
    + reflexivity.
    + reflexivity.
    + intros line _ _. vm_compute. reflexivity.
  - apply (proj1 (proj2 (proj2 (touches_file_coincides exampleParse exampleValid
                                  logFailsEnv everyCommitTouches "src/app.ts"
                                  "stashedPanelChats.json"))));
      reflexivity.
Defined.

Lemma touches_file_returns_touching_commits_witness :
  exists res logData,
    TouchesFile.getGitHistoryThatTouchesFile exampleParse exampleValid earlierEnv
      onlySecondTouches "src/app.ts" "stashedPanelChats.json"
    = TouchesFile.Returned res
    /\ ExtensionTs.gitLog earlierEnv = Some logData
    /\ NoDup (map commitHash (ExtensionTs.commits res))
    /\ forall cd, cd ∈ ExtensionTs.commits res ->
         exists line,
           line ∈ logLinesOf logData
           /\ TouchesFile.touchesTarget onlySecondTouches "src/app.ts" line = true
           /\ ExtensionTs.snapshotAt exampleParse exampleValid earlierEnv line
              <> None
           /\ recordedFrom line cd.
Proof.
  eexists.
  assert (Hres : TouchesFile.getGitHistoryThatTouchesFile exampleParse
                   exampleValid earlierEnv onlySecondTouches "src/app.ts"
                   "stashedPanelChats.json" = TouchesFile.Returned _)
    by (vm_compute; reflexivity).
  destruct (touches_file_returns_touching_commits exampleParse exampleValid
              earlierEnv onlySecondTouches "src/app.ts"
              "stashedPanelChats.json" _ Hres) as (logData & Hlog & H).
  exists logData. split; [exact Hres|]. split; [exact Hlog|exact H].
Defined.

Lemma touches_file_earliest_attribution_witness :
  exists res cd1,
    TouchesFile.getGitHistoryThatTouchesFile exampleParse exampleValid earlierEnv
      onlySecondTouches "src/app.ts" "stashedPanelChats.json"
    = TouchesFile.Returned res
    /\ cd1 ∈ ExtensionTs.commits res
    /\ commitHash cd1 = hashOf line_h2
    /\ "m1" ∈ messageIds (commitPanelChats cd1)
    /\ forall cd, cd ∈ ExtensionTs.commits res ->
                  "m1" ∈ messageIds (commitPanelChats cd) -> cd = cd1.
Proof.
  eexists.
  assert (Hres : TouchesFile.getGitHistoryThatTouchesFile exampleParse
                   exampleValid earlierEnv onlySecondTouches "src/app.ts"
                   "stashedPanelChats.json" = TouchesFile.Returned _)
    by (vm_compute; reflexivity).
  destruct (touches_file_earliest_attribution exampleParse exampleValid
              earlierEnv onlySecondTouches "src/app.ts"
              "stashedPanelChats.json" _ exampleLog [line_h1; line_h0] line_h2 []
              snapshot2 "m1" Hres)
    as (cd1 & H1 & H2 & H3 & H4).
  - reflexivity.
  - vm_compute. reflexivity.
  - apply (bool_decide_unpack _). vm_compute. exact I.
  - vm_compute. reflexivity.
  - vm_compute. reflexivity.
  - apply (bool_decide_unpack _). vm_compute. exact I.
  - intros line parsed Hline Htouch.
    apply elem_of_cons in Hline as [->|Hline]; [vm_compute in Htouch; discriminate|].
    apply elem_of_cons in Hline as [->|Hline]; [vm_compute in Htouch; discriminate|].
    by apply elem_of_nil in Hline.
  - exists cd1. auto.
Defined.

End more_examples.

(** ** The files of the workspace *)

Section includes_facts.
Import JsString LogFormat GaitFiles.

Lemma append_cons x (a b : string) : String x a +:+ b = String x (a +:+ b).
Proof. reflexivity. Qed.

Lemma append_assoc (a b c : string) : (a +:+ b) +:+ c = a +:+ (b +:+ c).
Proof.
  induction a as [|x a IH]; [done|]. rewrite !append_cons. by rewrite IH.
Qed.

Lemma append_nil_r (a : string) : a +:+ EmptyString = a.
Proof.
  induction a as [|x a IH]; [done|]. rewrite append_cons. by rewrite IH.
Qed.

Lemma prefix_nil s : String.prefix EmptyString s = true.
Proof. by destruct s. Qed.

Lemma prefix_append p b : String.prefix p (p +:+ b) = true.
Proof.
  induction p as [|c p IH]; [apply prefix_nil|]. rewrite append_cons.
  cbn [String.prefix].
  destruct (ascii_dec c c); [done|congruence].
Qed.

Lemma prefix_append_l p a b :
  String.prefix p a = true -> String.prefix p (a +:+ b) = true.
Proof.
  revert a. induction p as [|c p IH]; intros a; [intros _; apply prefix_nil|].
  destruct a as [|x a]; [intros H; discriminate H|].
  rewrite append_cons. cbn [String.prefix].
  destruct (ascii_dec c x); [apply IH|done].
Qed.

Lemma includes_prefix s p : String.prefix p s = true -> includes s p = true.
Proof. intros H. destruct s; cbn [includes]; by rewrite H. Qed.

Lemma includes_append_r a b p : includes b p = true -> includes (a +:+ b) p = true.
Proof.
  intros H. induction a as [|x a IH]; [done|].
  rewrite append_cons. cbn [includes]. rewrite IH. apply orb_true_r.
Qed.

Lemma includes_append_l a b p : includes a p = true -> includes (a +:+ b) p = true.
Proof.
  induction a as [|x a IH].
  - cbn [includes]. rewrite orb_false_r. intros H. apply includes_prefix.
    by apply (prefix_append_l p EmptyString b).
  - cbn [includes]. intros [H|H]%orb_true_iff.
    + apply includes_prefix. by apply prefix_append_l.
    + rewrite append_cons. cbn [includes]. rewrite IH by done. apply orb_true_r.
Qed.

(** [includes] finds the text somewhere in the string. *)
Lemma includes_spec s p :
  includes s p = true <-> exists a b, s = a +:+ (p +:+ b).
Proof.
  assert (Hprefix : forall p s, String.prefix p s = true -> exists b, s = p +:+ b).
  { clear. induction p as [|c p IH]; intros s H; [by exists s|].
    destruct s as [|y s]; [done|]. cbn [String.prefix] in H.
    destruct (ascii_dec c y) as [->|]; [|done].
    destruct (IH s H) as [b ->]. by exists b. }
  split.
  - induction s as [|x s IH]; cbn [includes].
    + rewrite orb_false_r. intros [b Hb]%Hprefix. by exists EmptyString, b.
    + intros [[b Hb]%Hprefix|H]%orb_true_iff.
      * by exists EmptyString, b.
      * destruct (IH H) as (a & b & ->). by exists (String x a), b.
  - intros (a & b & ->). apply includes_append_r, includes_prefix, prefix_append.
Qed.

Lemma includes_trans s p q :
  includes s p = true -> includes p q = true -> includes s q = true.
Proof.
  intros (a & b & ->)%includes_spec (a' & b' & ->)%includes_spec.
  apply includes_spec. exists (a +:+ a'), (b' +:+ b).
  by rewrite !append_assoc.
Qed.

Lemma prefix_across t p a b :
  hasChar t p = false ->
  String.prefix p (a +:+ String t b) = String.prefix p a.
Proof.
  revert a. induction p as [|c p IH]; intros a;
    [intros _; by rewrite !prefix_nil|]. cbn [hasChar].
  intros [Hc Hp]%orb_false_iff. destruct a as [|x a].
  - change (EmptyString +:+ String t b) with (String t b). cbn [String.prefix].
    destruct (ascii_dec c t) as [->|]; [|done].
    by rewrite Ascii.eqb_refl in Hc.
  - rewrite append_cons. cbn [String.prefix].
    destruct (ascii_dec c x); [by apply IH|done].
Qed.

(** A text without the character [t] is found in [a t b] exactly when it
    is found in [a] or in [b]. *)
Lemma includes_across t p a b :
  hasChar t p = false ->
  includes (a +:+ String t b) p = includes a p || includes b p.
Proof.
  intros Ht. induction a as [|x a IH].
  - change (EmptyString +:+ String t b) with (String t b).
    cbn [includes]. rewrite orb_false_r.
    by rewrite <- (prefix_across t p EmptyString b Ht).
  - change (String x a +:+ String t b) with (String x (a +:+ String t b)).
    cbn [includes]. rewrite IH.
    change (String x (a +:+ String t b)) with (String x a +:+ String t b).
    rewrite (prefix_across t p (String x a) b Ht). by rewrite orb_assoc.
Qed.

Lemma isLineTerminator_not_gait c :
  isLineTerminator c = true -> hasChar c "gait" = false.
Proof.
  unfold isLineTerminator.
  intros [->%Ascii.eqb_eq| ->%Ascii.eqb_eq]%orb_true_iff; reflexivity.
Qed.

(** Nothing that [removeGaitLines] leaves has [gait] in it. *)
Lemma removeGaitLines_clean content : forall line,
  includes (removeGaitLines content line) "gait" = false.
Proof.
  induction content as [|c r IH]; intros line; cbn [removeGaitLines].
  - by destruct (includes line "gait") eqn:E.
  - destruct (isLineTerminator c) eqn:Hc; [|apply IH].
    destruct (includes line "gait") eqn:E.
    + destruct (Ascii.eqb c LF); [apply IH|].
      change (String c (removeGaitLines r EmptyString))
        with (EmptyString +:+ String c (removeGaitLines r EmptyString)).
      rewrite includes_across by (by apply isLineTerminator_not_gait).
      by rewrite IH.
    + rewrite includes_across by (by apply isLineTerminator_not_gait).
      by rewrite E, IH.
Qed.

(** A text without [gait] is left as it is, whatever follows a line feed
    after it. *)
Lemma removeGaitLines_keep content : forall line rest,
  includes (line +:+ content) "gait" = false ->
  removeGaitLines (content +:+ String LF rest) line
  = line +:+ (content +:+ String LF (removeGaitLines rest EmptyString)).
Proof.
  induction content as [|c r IH]; intros line rest Hno.
  - rewrite append_nil_r in Hno.
    change (EmptyString +:+ String LF rest) with (String LF rest).
    cbn [removeGaitLines]. by rewrite Hno.
  - change (String c r +:+ String LF rest) with (String c (r +:+ String LF rest)).
    cbn [removeGaitLines].
    assert (Hline : includes line "gait" = false).
    { destruct (includes line "gait") eqn:E; [|done].
      by rewrite (includes_append_l line (String c r) "gait" E) in Hno. }
    assert (Hr : includes r "gait" = false).
    { destruct (includes r "gait") eqn:E; [|done].
      rewrite (includes_append_r line (String c r) "gait") in Hno; [done|].
      apply (includes_append_r (String c EmptyString) r "gait" E). }
    destruct (isLineTerminator c).
    + rewrite Hline. by rewrite (IH EmptyString rest Hr).
    + rewrite IH by (by rewrite append_assoc). by rewrite append_assoc.
Qed.

Lemma removeGaitLines_whole content :
  includes content "gait" = false -> removeGaitLines content EmptyString = content.
Proof.
  assert (H : forall content line,
            includes (line +:+ content) "gait" = false ->
            removeGaitLines content line = line +:+ content).
  { clear. induction content as [|c r IH]; intros line Hno.
    - rewrite append_nil_r in *. cbn [removeGaitLines]. by rewrite Hno.
    - cbn [removeGaitLines].
      assert (Hline : includes line "gait" = false).
      { destruct (includes line "gait") eqn:E; [|done].
        by rewrite (includes_append_l line (String c r) "gait" E) in Hno. }
      assert (Hr : includes r "gait" = false).
      { destruct (includes r "gait") eqn:E; [|done].
        rewrite (includes_append_r line (String c r) "gait") in Hno; [done|].
        apply (includes_append_r (String c EmptyString) r "gait" E). }
      destruct (isLineTerminator c).
      + rewrite Hline. by rewrite (IH EmptyString Hr).
      + rewrite IH by (by rewrite append_assoc). by rewrite append_assoc. }
  intros Hno. by apply (H content EmptyString).
Qed.

(** A line that has [gait] goes with its line feed. *)
Lemma removeGaitLines_drop l : forall line rest,
  hasChar LF l = false -> hasChar CR l = false ->
  includes (line +:+ l) "gait" = true ->
  removeGaitLines (l +:+ String LF rest) line = removeGaitLines rest EmptyString.
Proof.
  induction l as [|c l IH]; intros line rest HLF HCR Hin.
  - rewrite append_nil_r in Hin.
    change (EmptyString +:+ String LF rest) with (String LF rest).
    cbn [removeGaitLines]. by rewrite Hin.
  - cbn [hasChar] in HLF, HCR. apply orb_false_iff in HLF as [H1 HLF].
    apply orb_false_iff in HCR as [H2 HCR].
    change (String c l +:+ String LF rest) with (String c (l +:+ String LF rest)).
    cbn [removeGaitLines]. unfold isLineTerminator. rewrite H1, H2. cbn [orb].
    apply IH; [done|done|by rewrite append_assoc].
Qed.

End includes_facts.

Section gait_files_facts.
Import JsString LogFormat GaitFiles.

Lemma hasChar_append c a b : hasChar c (a +:+ b) = hasChar c a || hasChar c b.
Proof.
  induction a as [|x a IH]; [done|]. rewrite append_cons. cbn [hasChar].
  by rewrite IH, orb_assoc.
Qed.

Lemma testAlnum_append a b : testAlnum (a +:+ b) = testAlnum a || testAlnum b.
Proof.
  induction a as [|x a IH]; [done|]. rewrite append_cons. cbn [testAlnum].
  by rewrite IH, orb_assoc.
Qed.

Lemma whitespace_not_alnum x : isWhiteSpace x = true -> isAlnumChar x = false.
Proof.
  destruct x as [[] [] [] [] [] [] [] []]; vm_compute; congruence.
Qed.

Lemma testAlnum_trimStart s : testAlnum (trimStart s) = testAlnum s.
Proof.
  induction s as [|x s IH]; [done|]. cbn [trimStart testAlnum].
  destruct (isWhiteSpace x) eqn:E; [|done].
  by rewrite IH, (whitespace_not_alnum x E).
Qed.

Lemma testAlnum_trimEnd s : testAlnum (trimEnd s) = testAlnum s.
Proof.
  induction s as [|x s IH]; [done|]. cbn [trimEnd testAlnum].
  rewrite <- IH. destruct (trimEnd s) as [|y r]; [|done].
  cbn [testAlnum]. rewrite orb_false_r.
  destruct (isWhiteSpace x) eqn:E; [|by cbn; rewrite orb_false_r].
  by rewrite (whitespace_not_alnum x E).
Qed.

Lemma testAlnum_trim s : testAlnum (trim s) = testAlnum s.
Proof. unfold trim. by rewrite testAlnum_trimEnd, testAlnum_trimStart. Qed.

Lemma trimStart_append s b :
  testAlnum s = true -> trimStart (s +:+ b) = trimStart s +:+ b.
Proof.
  induction s as [|x s IH]; [done|]. rewrite append_cons.
  cbn [trimStart testAlnum]. destruct (isWhiteSpace x) eqn:E; [|done].
  rewrite (whitespace_not_alnum x E). apply IH.
Qed.

Lemma trimEnd_append_LF s :
  trimEnd (s +:+ String LF EmptyString) = trimEnd s.
Proof.
  induction s as [|x s IH]; [reflexivity|]. rewrite append_cons.
  cbn [trimEnd]. by rewrite IH.
Qed.

Lemma trim_append_LF s :
  testAlnum s = true -> trim (s +:+ String LF EmptyString) = trim s.
Proof.
  intros H. unfold trim. by rewrite trimStart_append, trimEnd_append_LF.
Qed.

(** A substring of a text without [gait] has no [gait]. *)
Lemma trim_clean s : includes s "gait" = false -> includes (trim s) "gait" = false.
Proof.
  assert (Hstart : forall s, exists a, s = a +:+ trimStart s).
  { clear. induction s as [|x s [a IH]]; [by exists EmptyString|].
    cbn [trimStart]. destruct (isWhiteSpace x); [|by exists EmptyString].
    exists (String x a). rewrite append_cons. by rewrite <- IH. }
  assert (Hend : forall s, exists b, s = trimEnd s +:+ b).
  { clear. induction s as [|x s [b IH]]; [by exists EmptyString|].
    cbn [trimEnd]. destruct (trimEnd s) as [|y r] eqn:E.
    - destruct (isWhiteSpace x).
      + by exists (String x s).
      + exists s. reflexivity.
    - exists b. rewrite append_cons. by rewrite <- IH. }
  intros Hno. unfold trim.
  destruct (includes (trimEnd (trimStart s)) "gait") eqn:E; [|done].
  destruct (Hend (trimStart s)) as [b Hb]. destruct (Hstart s) as [a Ha].
  rewrite Ha, Hb in Hno.
  by rewrite (includes_append_r a _ "gait"
                (includes_append_l _ b "gait" E)) in Hno.
Qed.

Lemma withoutGait_result file c :
  withoutGait file = Some c ->
  includes c "gait" = false /\ testAlnum c = true /\ trim c = c.
Proof.
  destruct file as [content|]; [|done]. cbn [withoutGait].
  destruct (testAlnum (removeGaitLines content EmptyString)) eqn:E; [|done].
  cbn [negb]. intros [= <-].
  split; [apply trim_clean, removeGaitLines_clean|].
  split; [by rewrite testAlnum_trim|apply trim_idem].
Qed.

Lemma withoutGait_clean c :
  includes c "gait" = false ->
  withoutGait (Some c) = if testAlnum c then Some (trim c) else None.
Proof.
  intros Hno. cbn [withoutGait]. rewrite removeGaitLines_whole by done.
  by destruct (testAlnum c).
Qed.

Lemma withoutGait_idem file : withoutGait (withoutGait file) = withoutGait file.
Proof.
  destruct (withoutGait file) as [c|] eqn:E; [|done].
  apply withoutGait_result in E as (Hno & Halnum & Htrim).
  by rewrite withoutGait_clean, Halnum, Htrim.
Qed.

(** X24: [removeGait] removes the folder and leaves no [gait] in the two files:
    a file that stays has alphanumeric text, no surrounding white space and
    no occurrence of [gait]; a file without [gait] keeps its text, trimmed,
    or goes when it has no alphanumeric character; and running it again
    changes nothing. *)
Theorem remove_gait_effect w :
  gaitFolder (removeGait w) = false
  /\ (forall c,
        gitAttributes (removeGait w) = Some c \/ gitignore (removeGait w) = Some c ->
        includes c "gait" = false /\ testAlnum c = true /\ trim c = c)
  /\ (forall c,
        gitAttributes w = Some c -> includes c "gait" = false ->
        gitAttributes (removeGait w) = if testAlnum c then Some (trim c) else None)
  /\ (forall c,
        gitignore w = Some c -> includes c "gait" = false ->
        gitignore (removeGait w) = if testAlnum c then Some (trim c) else None)
  /\ removeGait (removeGait w) = removeGait w.
Proof.
  unfold removeGait.
  cbn [gaitFolder GaitFiles.gitAttributes GaitFiles.gitignore].
  split; [done|]. split; [|split; [|split]].
  - intros c [H|H]; by eapply withoutGait_result.
  - intros c -> Hno. by apply withoutGait_clean.
  - intros c -> Hno. by apply withoutGait_clean.
  - by rewrite !withoutGait_idem.
Qed.

Lemma diffLine_nonempty NAME : String.prefix (diffLine NAME) EmptyString = false.
Proof. unfold diffLine. by destruct NAME. Qed.

Lemma create_present NAME w :
  includes (default EmptyString (gitAttributes w)) (diffLine NAME) = true ->
  createGaitFolderIfNotExists NAME w
  = mkWorkspace true (gitAttributes w) (gitignore w).
Proof. intros E. unfold createGaitFolderIfNotExists. by rewrite E. Qed.

Lemma create_absent NAME w :
  includes (default EmptyString (gitAttributes w)) (diffLine NAME) = false ->
  createGaitFolderIfNotExists NAME w
  = mkWorkspace true
      (Some (default EmptyString (gitAttributes w)
             +:+ String LF (diffLine NAME +:+ String LF EmptyString)))
      (gitignore w).
Proof. intros E. unfold createGaitFolderIfNotExists. by rewrite E. Qed.

(** X25: [createGaitFolderIfNotExists] leaves the folder in place and a
    [.gitattributes] that holds the line for the folder after what the file
    held; it does not touch [.gitignore]; and running it again changes
    nothing, so the line is appended once. *)
Theorem gait_folder_setup_idempotent NAME w :
  gaitFolder (createGaitFolderIfNotExists NAME w) = true
  /\ (exists content,
        gitAttributes (createGaitFolderIfNotExists NAME w) = Some content
        /\ includes content (diffLine NAME) = true
        /\ String.prefix (default EmptyString (gitAttributes w)) content = true)
  /\ gitignore (createGaitFolderIfNotExists NAME w) = gitignore w
  /\ createGaitFolderIfNotExists NAME (createGaitFolderIfNotExists NAME w)
     = createGaitFolderIfNotExists NAME w.
Proof.
  destruct (includes (default EmptyString (gitAttributes w)) (diffLine NAME))
    eqn:E.
  - rewrite (create_present NAME w E).
    cbn [gaitFolder GaitFiles.gitAttributes GaitFiles.gitignore].
    split; [done|]. split; [|split; [done|]].
    + destruct (gitAttributes w) as [c|] eqn:Hc.
      * exists c. split; [done|]. split; [done|]. cbn [default].
        rewrite <- (append_nil_r c) at 2. apply prefix_append.
      * cbn [default includes] in E. by rewrite diffLine_nonempty in E.
    + by apply (create_present NAME
                  (mkWorkspace true (gitAttributes w) (gitignore w))).
  - rewrite (create_absent NAME w E).
    cbn [gaitFolder GaitFiles.gitAttributes GaitFiles.gitignore].
    assert (Hin : includes
                    (default EmptyString (gitAttributes w)
                     +:+ String LF (diffLine NAME +:+ String LF EmptyString))
                    (diffLine NAME) = true).
    { apply includes_append_r.
      change (String LF (diffLine NAME +:+ String LF EmptyString))
        with (String LF EmptyString +:+ (diffLine NAME +:+ String LF EmptyString)).
      apply includes_append_r, includes_prefix, prefix_append. }
    split; [done|]. split; [|split; [done|]].
    + eexists. split; [done|]. split; [done|]. apply prefix_append.
    + by apply (create_present NAME (mkWorkspace true (Some _) (gitignore w))).
Qed.

(** X26: Setting up and then removing gives back [.gitattributes], trimmed:
    when the folder name has [gait] in it and no line break, and the file
    was absent, or had alphanumeric text and no [gait], the file is absent
    again, or holds its text again without surrounding white space. *)
Theorem setup_then_remove_restores NAME w :
  includes NAME "gait" = true ->
  hasChar LF NAME = false -> hasChar CR NAME = false ->
  (gitAttributes w = None
   \/ exists c, gitAttributes w = Some c
                /\ includes c "gait" = false /\ testAlnum c = true) ->
  gitAttributes (removeGait (createGaitFolderIfNotExists NAME w))
  = trim <$> gitAttributes w.
Proof.
  intros Hname HLF HCR Hfile.
  assert (Hline : includes (diffLine NAME) "gait" = true)
    by (by apply includes_append_l).
  assert (Hdrop : removeGaitLines (diffLine NAME +:+ String LF EmptyString)
                    EmptyString = EmptyString).
  { rewrite removeGaitLines_drop; [done| | |done].
    - unfold diffLine. by rewrite hasChar_append, HLF.
    - unfold diffLine. by rewrite hasChar_append, HCR. }
  destruct Hfile as [Hnone|(c & Hc & Hno & Halnum)].
  - rewrite create_absent
      by (rewrite Hnone; cbn [default includes];
          by rewrite diffLine_nonempty).
    rewrite Hnone. unfold removeGait, default.
    cbn [from_option GaitFiles.gitAttributes withoutGait].
    change (EmptyString
            +:+ String LF (diffLine NAME +:+ String LF EmptyString))
      with (String LF (diffLine NAME +:+ String LF EmptyString)).
    cbn [removeGaitLines isLineTerminator includes String.prefix].
    change (Ascii.eqb LF LF) with true. cbn [orb].
    rewrite Hdrop. reflexivity.
  - assert (Hnot : includes c (diffLine NAME) = false).
    { destruct (includes c (diffLine NAME)) eqn:E; [|done].
      by rewrite (includes_trans c (diffLine NAME) "gait" E Hline) in Hno. }
    rewrite create_absent by (by rewrite Hc).
    rewrite Hc. unfold removeGait, default.
    cbn [from_option GaitFiles.gitAttributes withoutGait]. unfold id.
    rewrite removeGaitLines_keep by done. rewrite Hdrop.
    change (EmptyString +:+ (c +:+ String LF EmptyString))
      with (c +:+ String LF EmptyString).
    rewrite testAlnum_append, Halnum. cbn [orb negb fmap option_fmap option_map].
    by rewrite trim_append_LF.
Qed.

End gait_files_facts.

Section gait_files_examples.
Import JsString GaitFiles.

(** A line with [gait] that ends in a carriage return and a line feed
    leaves both behind; one that ends in a line feed leaves nothing. *)
Example removeGaitLines_line_ends :
  removeGaitLines ("a" +:+ String LF (".gait/ -diff" +:+ String LF "b")) ""
  = "a" +:+ String LF "b"
  /\ removeGaitLines
       ("a" +:+ String LF (".gait/ -diff" +:+ String CR (String LF "b"))) ""
     = "a" +:+ String LF (String CR (String LF "b")).
Proof. split; vm_compute; reflexivity. Qed.

Lemma setup_then_remove_restores_witness :
  gitAttributes
    (removeGait
       (createGaitFolderIfNotExists ".gait"
          (mkWorkspace false (Some "*.png binary") None)))
  = trim <$> Some "*.png binary".
Proof.
  apply (setup_then_remove_restores ".gait"
           (mkWorkspace false (Some "*.png binary") None)).
  - reflexivity.
  - reflexivity.
  - reflexivity.
  - right. exists "*.png binary". repeat split; reflexivity.
Defined.

End gait_files_examples.

(** ** Code blocks of a response *)

Section code_block_facts.
Import JsString LogFormat GaitFiles CodeBlocks.

Lemma string_strong_ind (P : string -> Prop) :
  (forall s, (forall s', (String.length s' < String.length s)%nat -> P s') -> P s) ->
  forall s, P s.
Proof.
  intros H s.
  assert (Hn : forall n s, (String.length s < n)%nat -> P s).
  { induction n as [|n IH]; intros s0 Hs; [lia|].
    apply H. intros s' Hs'. apply IH. lia. }
  apply (Hn (S (String.length s))). lia.
Qed.

Lemma isFence_true c1 c2 c3 :
  isFence c1 c2 c3 = true <-> c1 = BACKQUOTE /\ c2 = BACKQUOTE /\ c3 = BACKQUOTE.
Proof.
  unfold isFence. rewrite !andb_true_iff, !Ascii.eqb_eq. tauto.
Qed.

Lemma prefix_fence r :
  String.prefix FENCE (String BACKQUOTE (String BACKQUOTE (String BACKQUOTE r)))
  = true.
Proof. by destruct r. Qed.

(** Every block comes out trimmed. *)
Lemma scan_blocks_trimmed text : forall mode b,
  b ∈ scan mode text -> trim b = b.
Proof.
  induction text as [text IH] using string_strong_ind. intros mode b.
  destruct text as [|c t]; [by intros ?%elem_of_nil|].
  assert (IHt : forall mode b, b ∈ scan mode t -> trim b = b)
    by (apply IH; cbn; lia).
  assert (Hcap : forall captured,
            b ∈ match t with
                | String c2 (String c3 r) =>
                    if isFence c c2 c3 then trim captured :: scan Seek r
                    else scan (Capture (captured +:+ String c EmptyString)) t
                | _ => []
                end -> trim b = b).
  { intros captured. destruct t as [|c2 [|c3 r]]; try by intros ?%elem_of_nil.
    destruct (isFence c c2 c3); [|apply IHt].
    intros [->|Hb]%elem_of_cons; [apply trim_idem|].
    revert Hb. apply IH. cbn. lia. }
  cbn [scan]. destruct mode as [| | |captured].
  - destruct t as [|c2 [|c3 r]]; try by intros ?%elem_of_nil.
    destruct (isFence c c2 c3); [|apply IHt]. apply IH. cbn. lia.
  - destruct (isWordChar c); [apply IHt|].
    destruct (isWhiteSpace c); [apply IHt|apply Hcap].
  - destruct (isWhiteSpace c); [apply IHt|apply Hcap].
  - apply Hcap.
Qed.

(** Without three backquotes in a row there is no block. *)
Lemma scan_no_fence text :
  includes text FENCE = false -> scan Seek text = [].
Proof.
  induction text as [|c t IH]; [done|]. cbn [includes scan].
  intros [Hp Ht]%orb_false_iff.
  destruct t as [|c2 [|c3 r]]; [done|done|].
  destruct (isFence c c2 c3) eqn:E; [|by apply IH].
  apply isFence_true in E as (-> & -> & ->). by rewrite prefix_fence in Hp.
Qed.

Lemma includes_tail c s p : includes (String c s) p = false -> includes s p = false.
Proof. cbn [includes]. by intros [_ H]%orb_false_iff. Qed.

(** The captured text runs to the first fence. *)
Lemma capture_phase post code : forall captured,
  includes (code +:+ "``") FENCE = false ->
  scan (Capture captured) (code +:+ (FENCE +:+ post))
  = trim (captured +:+ code) :: scan Seek post.
Proof.
  induction code as [|c code IH]; intros captured Hno.
  - rewrite append_nil_r. reflexivity.
  - rewrite append_cons in Hno. pose proof (includes_tail _ _ _ Hno) as Hno'.
    assert (Hstep :
      scan (Capture captured) (String c code +:+ (FENCE +:+ post))
      = scan (Capture (captured +:+ String c EmptyString))
          (code +:+ (FENCE +:+ post))).
    { cbn [includes] in Hno. apply orb_false_iff in Hno as [Hp _].
      destruct code as [|x [|y code]].
      - change (scan (Capture captured)
                  (String c (String BACKQUOTE (String BACKQUOTE
                     (String BACKQUOTE post))))
                = scan (Capture (captured +:+ String c EmptyString))
                    (String BACKQUOTE (String BACKQUOTE (String BACKQUOTE post)))).
        cbn [scan]. destruct (isFence c BACKQUOTE BACKQUOTE) eqn:E; [|done].
        apply isFence_true in E as (-> & _).
        change (EmptyString +:+ "``") with (String BACKQUOTE (String BACKQUOTE EmptyString)) in Hp.
        by rewrite prefix_fence in Hp.
      - change (scan (Capture captured)
                  (String c (String x (String BACKQUOTE (String BACKQUOTE
                     (String BACKQUOTE post)))))
                = scan (Capture (captured +:+ String c EmptyString))
                    (String x (String BACKQUOTE (String BACKQUOTE
                       (String BACKQUOTE post))))).
        cbn [scan]. destruct (isFence c x BACKQUOTE) eqn:E; [|done].
        apply isFence_true in E as (-> & -> & _).
        change (String BACKQUOTE EmptyString +:+ "``")
          with (String BACKQUOTE (String BACKQUOTE (String BACKQUOTE EmptyString))) in Hp.
        by rewrite prefix_fence in Hp.
      - change (scan (Capture captured)
                  (String c (String x (String y (code +:+ (FENCE +:+ post)))))
                = scan (Capture (captured +:+ String c EmptyString))
                    (String x (String y (code +:+ (FENCE +:+ post))))).
        cbn [scan]. destruct (isFence c x y) eqn:E; [|done].
        apply isFence_true in E as (-> & -> & ->).
        rewrite !append_cons in Hp. by rewrite prefix_fence in Hp. }
    rewrite Hstep, IH by done. by rewrite append_assoc.
Qed.

Lemma space_phase post code :
  includes (code +:+ "``") FENCE = false ->
  scan Space (code +:+ (FENCE +:+ post)) = trim code :: scan Seek post.
Proof.
  induction code as [|c code IH]; intros Hno; [reflexivity|].
  rewrite append_cons in *.
  destruct (isWhiteSpace c) eqn:Hws.
  - cbn [scan]. rewrite Hws, IH by (by eapply includes_tail).
    unfold trim. cbn [trimStart]. by rewrite Hws.
  - transitivity (scan (Capture EmptyString)
                    (String c code +:+ (FENCE +:+ post))).
    { rewrite append_cons. cbn [scan]. by rewrite Hws. }
    rewrite capture_phase by (by rewrite append_cons). reflexivity.
Qed.

Lemma word_phase post code :
  startsWithWordChar code = false ->
  includes (code +:+ "``") FENCE = false ->
  scan Word (code +:+ (FENCE +:+ post)) = trim code :: scan Seek post.
Proof.
  intros Hw Hno. rewrite <- space_phase by done.
  destruct code as [|c code]; [reflexivity|].
  cbn [startsWithWordChar] in Hw. rewrite append_cons. cbn [scan]. by rewrite Hw.
Qed.

Lemma lang_phase lang rest :
  allWordChars lang = true -> scan Word (lang +:+ rest) = scan Word rest.
Proof.
  induction lang as [|c lang IH]; [done|]. cbn [allWordChars].
  intros [Hc Hl]%andb_true_iff. rewrite append_cons. cbn [scan].
  by rewrite Hc, IH.
Qed.

Lemma seek_phase pre rest :
  hasChar BACKQUOTE pre = false ->
  scan Seek (pre +:+ (FENCE +:+ rest)) = scan Word rest.
Proof.
  induction pre as [|c pre IH]; [reflexivity|]. cbn [hasChar].
  intros [Hc Hp]%orb_false_iff. rewrite append_cons.
  assert (Hnf : forall c2 c3, isFence c c2 c3 = false).
  { intros c2 c3. unfold isFence. by rewrite Hc. }
  rewrite <- IH by done.
  destruct pre as [|x [|y pre]].
  - change (EmptyString +:+ (FENCE +:+ rest))
      with (String BACKQUOTE (String BACKQUOTE (String BACKQUOTE rest))).
    cbn [scan]. by rewrite Hnf.
  - change (String x EmptyString +:+ (FENCE +:+ rest))
      with (String x (String BACKQUOTE (String BACKQUOTE (String BACKQUOTE rest)))).
    cbn [scan]. by rewrite Hnf.
  - rewrite !append_cons. cbn [scan]. by rewrite Hnf.
Qed.

End code_block_facts.

Section code_block_theorems.
Import JsString LogFormat GaitFiles CodeBlocks.

(** X27: Every block [extractCodeBlocks] returns is trimmed, and a text without
    three backquotes in a row has no block. *)
Theorem code_blocks_need_a_fence text :
  (forall b, b ∈ extractCodeBlocks text -> trim b = b)
  /\ (includes text FENCE = false -> extractCodeBlocks text = []).
Proof.
  split.
  - intros b. apply scan_blocks_trimmed.
  - apply scan_no_fence.
Qed.

(** X28: A fenced block is extracted: after a text without backquote, a fence,
    a word (the language, possibly empty), then a text that does not start
    with a word character, holds no three backquotes in a row and does not
    end in a backquote, then a fence, the first block is that text, trimmed,
    and the scan goes on after the closing fence.  The word right after the
    fence is never part of the block. *)
Theorem fenced_block_extracted pre lang code post :
  hasChar BACKQUOTE pre = false ->
  allWordChars lang = true ->
  startsWithWordChar code = false ->
  includes (code +:+ "``") FENCE = false ->
  extractCodeBlocks (pre +:+ (FENCE +:+ (lang +:+ (code +:+ (FENCE +:+ post)))))
  = trim code :: extractCodeBlocks post.
Proof.
  intros Hpre Hlang Hcode Hno. unfold extractCodeBlocks.
  by rewrite seek_phase, lang_phase, word_phase.
Qed.

Lemma fenced_block_extracted_witness :
  extractCodeBlocks
    ("Use this: " +:+ (FENCE +:+ ("ts" +:+ ("
const a = 1;
" +:+ (FENCE +:+ " Done.")))))
  = trim "
const a = 1;
" :: extractCodeBlocks " Done.".
Proof. apply fenced_block_extracted; reflexivity. Defined.

(** Without a line break or a space after the fence, the first word of the
    code is taken for the language. *)
Example one_line_block_loses_its_first_word :
  extractCodeBlocks "```print(1)```" = ["(1)"].
Proof. vm_compute. reflexivity. Qed.

End code_block_theorems.

(** ** [getGitHistoryThatTouchesFile] (later text) *)

Section sections_lemmas.
Import Types PanelGit WalkSpec.

(** The parts [added] and [uncommitted] computed after a walk share no id
    with each other nor with the commits, and hold no deleted id. *)
Lemma sections_disjoint_parts cur (w : gset string * list CommitData)
    (del delChats : gset string) (stashed stored : list PanelChat) m :
  WalkInv cur w ->
  let a := foldl (GaitContext.addedChat del) (w.1, [])
             (List.filter
                (fun pc => negb (bool_decide (chat_id pc ∈ delChats))) stashed) in
  let added := List.filter hasMessages a.2 in
  let uncommitted :=
    List.filter hasMessages
      (map
         (fun pc =>
            withMessages pc
              (List.filter
                 (fun msg =>
                    negb (bool_decide (msg_id msg ∈ del))
                    && negb (bool_decide (msg_id msg ∈ a.1)))
                 (messages pc)))
         (List.filter
            (fun pc => negb (bool_decide (chat_id pc ∈ delChats))) stored)) in
  (m ∈ attributedIds (GaitContext.pruneCommits w.2) ->
     (m ∉ messageIds added) /\ m ∉ messageIds uncommitted)
  /\ (m ∈ messageIds added -> m ∉ messageIds uncommitted)
  /\ (m ∈ del -> (m ∉ messageIds added) /\ m ∉ messageIds uncommitted).
Proof.
  intros [_ Hseen] a added uncommitted.
  destruct (addedChat_fold del
              (List.filter
                 (fun pc => negb (bool_decide (chat_id pc ∈ delChats))) stashed)
              (w.1, [])) as [Hsub Hids].
  cbn [fst snd] in Hsub, Hids. fold a in Hsub, Hids.
  assert (Hunc : forall x, x ∈ messageIds uncommitted -> (x ∉ a.1) /\ x ∉ del).
  { intros x (e & <- & He)%surfaced_ids.
    apply andb_true_iff in He
      as [He1%negb_true_iff%bool_decide_eq_false
          He2%negb_true_iff%bool_decide_eq_false]. done. }
  assert (Hadd : forall x, x ∈ messageIds added -> x ∉ del).
  { intros x. subst added. rewrite messageIds_filter_hasMessages.
    intros [Hx|Hx]%addedChat_ids; [by apply elem_of_nil in Hx|done]. }
  rewrite attributedIds_pruneCommits. split; [|split].
  - intros [Hm _]%Hseen. split.
    + subst added. rewrite messageIds_filter_hasMessages.
      intros [Hx|[Hx _]]%Hids; [by apply elem_of_nil in Hx|done].
    + intros [Hx _]%Hunc. apply Hx, Hsub, Hm.
  - subst added. rewrite messageIds_filter_hasMessages.
    intros [Hx|[_ Hx]]%Hids; [by apply elem_of_nil in Hx|].
    by intros [Hx' _]%Hunc.
  - intros Hm. split; [by intros ?%Hadd|by intros [_ ?]%Hunc].
Qed.

End sections_lemmas.

Section later_touches_facts.
Import JsString Types PanelGit WalkSpec StashedStateStore CommitRecordSpec.
Variable JSON_parse : string -> option StashedState.
Variable isStashedState : StashedState -> bool.
Variable context : ExtensionContext.
Variable env : TouchesFileLater.Env.
Variable targetFilePath : string.

Lemma later_touches_step cur curPC st line :
  TouchesFileLater.commitIteration JSON_parse isStashedState env targetFilePath
    cur curPC st line
  = if TouchesFileLater.keptLine env targetFilePath line
    then GaitContext.commitIteration JSON_parse isStashedState
           (TouchesFileLater.history env) cur curPC st line
    else st.
Proof.
  unfold TouchesFileLater.commitIteration, TouchesFileLater.keptLine,
    TouchesFile.touchesTarget, GaitContext.commitIteration.
  destruct (ExtensionTs.isDeletionCommit _); [done|]. cbn [negb andb].
  by destruct (TouchesFile.modifiesTargetFile _ _ _) as [[|]|].
Qed.

Lemma later_touches_walk cur curPC lines :
  TouchesFileLater.walk JSON_parse isStashedState env targetFilePath cur curPC
    lines
  = GaitContext.walk JSON_parse isStashedState (TouchesFileLater.history env)
      cur curPC
      (List.filter (TouchesFileLater.keptLine env targetFilePath) lines).
Proof.
  unfold TouchesFileLater.walk, GaitContext.walk.
  rewrite <- foldl_filter_step.
  generalize (∅ : gset string, [] : list CommitData).
  induction lines as [|line lines IH]; intros st; [done|].
  cbn [foldl]. by rewrite later_touches_step, IH.
Qed.

(** The parts of a result of the later text, written out. *)
Lemma later_touches_Returned res :
  TouchesFileLater.getGitHistoryThatTouchesFile JSON_parse isStashedState context
    env targetFilePath = TouchesFileLater.Returned res ->
  exists logData status stored,
    let parsedCurrent := TouchesFileLater.parsedCurrent isStashedState context in
    let w := GaitContext.walk JSON_parse isStashedState
               (TouchesFileLater.history env)
               (collectCurrentIds parsedCurrent).2
               (collectCurrentIds parsedCurrent).1
               (List.filter (TouchesFileLater.keptLine env targetFilePath)
                  (logLinesOf logData)) in
    let a := foldl (GaitContext.addedChat (deletedMessageIdSet parsedCurrent))
               (w.1, [])
               (List.filter
                  (fun pc =>
                     negb (bool_decide
                             (chat_id pc ∈ deletedPanelChatIdSet parsedCurrent)))
                  (panelChats (readStashedState context))) in
    GaitContext.gitLog (TouchesFileLater.history env) = Some logData
    /\ TouchesFileLater.gitStatus env = Some status
    /\ GaitContext.commits res = GaitContext.pruneCommits w.2
    /\ (TouchesFileLater.targetModified targetFilePath status = false ->
        GaitContext.uncommittedPanelChats (GaitContext.added res) = []
        /\ GaitContext.uncommittedPanelChats (GaitContext.uncommitted res) = [])
    /\ (TouchesFileLater.targetModified targetFilePath status = true ->
        GaitContext.uncommittedPanelChats (GaitContext.added res)
        = List.filter hasMessages a.2
        /\ GaitContext.uncommittedPanelChats (GaitContext.uncommitted res)
           = List.filter hasMessages
               (map
                  (fun pc =>
                     withMessages pc
                       (List.filter
                          (fun msg =>
                             negb (bool_decide
                                     (msg_id msg
                                      ∈ deletedMessageIdSet parsedCurrent))
                             && negb (bool_decide (msg_id msg ∈ a.1)))
                          (messages pc)))
                  (List.filter
                     (fun pc =>
                        negb (bool_decide
                                (chat_id pc
                                 ∈ deletedPanelChatIdSet parsedCurrent)))
                     stored))).
Proof.
  unfold TouchesFileLater.getGitHistoryThatTouchesFile.
  destruct (GaitContext.existsSync _); [|done].
  destruct (TouchesFile.targetExistsSync _); [|done]. cbn [negb].
  destruct (deletedChats _) as [d|]; [|done].
  destruct (collectCurrentIds _) as [pcIds mIds] eqn:Eids.
  destruct (GaitContext.gitLog _) as [logData|]; [|done].
  destruct (TouchesFileLater.gitStatus env) as [status|]; [|done].
  rewrite later_touches_walk.
  destruct (TouchesFileLater.targetModified targetFilePath status) eqn:Hmod.
  - destruct (ws_currentPanelChats context) as [| | |l]; try done.
    + intros [= <-]. exists logData, status, []. cbn.
      split; [done|]. split; [done|]. split; [done|].
      split; [congruence|done].
    + intros [= <-]. exists logData, status, l. cbn.
      split; [done|]. split; [done|]. split; [done|].
      split; [congruence|done].
  - intros [= <-]. exists logData, status, []. cbn.
    split; [done|]. split; [done|]. split; [done|].
    split; [done|congruence].
Qed.

(** X29: The commits the later text of [getGitHistoryThatTouchesFile] returns
    hold no message id twice and only active ids, have distinct hashes, and
    each is recorded from a log line that is no deletion commit, lists the
    target file and has a readable snapshot; each of their chats has a
    message; and each of their inline chats has the id of a live panel chat
    of the current state, because the ids of the panel chats are handed to
    [processCommit] in the place of the ids of the inline chats. *)
Theorem later_touches_file_commits res :
  TouchesFileLater.getGitHistoryThatTouchesFile JSON_parse isStashedState context
    env targetFilePath = TouchesFileLater.Returned res ->
  NoDup (attributedIds (GaitContext.commits res))
  /\ NoDup (map commitHash (GaitContext.commits res))
  /\ (forall m, m ∈ attributedIds (GaitContext.commits res) ->
        m ∈ (collectCurrentIds
               (TouchesFileLater.parsedCurrent isStashedState context)).2)
  /\ exists logData,
       GaitContext.gitLog (TouchesFileLater.history env) = Some logData
       /\ forall cd, cd ∈ GaitContext.commits res ->
            (exists line,
                line ∈ logLinesOf logData
                /\ TouchesFileLater.keptLine env targetFilePath line = true
                /\ GaitContext.snapshotAt JSON_parse isStashedState
                     (TouchesFileLater.history env) line <> None
                /\ recordedFrom line cd)
            /\ (forall pc, pc ∈ commitPanelChats cd ->
                  (0 < List.length (messages pc))%nat)
            /\ (forall ic, ic ∈ commitInlineChats cd ->
                  inline_chat_id ic
                  ∈ (collectCurrentIds
                       (TouchesFileLater.parsedCurrent isStashedState context)).1).
Proof.
  intros (logData & status & stored & Hlog & _ & Hcommits & _)%later_touches_Returned.
  cbv zeta in Hcommits. rewrite Hcommits. clear Hcommits.
  set (cur := collectCurrentIds _).
  set (lines := List.filter _ (logLinesOf logData)).
  destruct (md_walk_inv JSON_parse isStashedState (TouchesFileLater.history env)
              cur.2 cur.1 lines) as [Hnd Hin].
  destruct (md_walk_records JSON_parse isStashedState
              (TouchesFileLater.history env) cur.2 cur.1 lines) as [Hhash Hall].
  rewrite attributedIds_pruneCommits.
  split; [done|]. split; [|split; [intros m Hm; by apply Hin|]].
  { eapply sublist_NoDup; [exact Hhash|].
    unfold GaitContext.pruneCommits. etrans; [apply map_filter_sublist|].
    rewrite map_map. cbn [withCommitPanelChats commitHash]. done. }
  exists logData. split; [done|].
  intros cd (c & Hc & -> & Hmsg)%pruneCommits_elem. split; [|split].
  - rewrite Forall_forall in Hall.
    destruct (Hall c Hc) as (line & Hline & Hsnap & Hrec).
    apply list_elem_of_In, filter_In in Hline as [Hline Hkept].
    exists line. by rewrite list_elem_of_In.
  - cbn [withCommitPanelChats commitPanelChats].
    intros pc [_ Hpc]%list_elem_of_In%filter_In. unfold hasMessages in Hpc.
    by apply Nat.ltb_lt in Hpc.
  - cbn [withCommitPanelChats commitInlineChats]. intros ic Hic.
    by apply (md_walk_inline JSON_parse isStashedState
                (TouchesFileLater.history env) cur.2 cur.1 lines c ic).
Qed.

(** X30: In the later text of [getGitHistoryThatTouchesFile], [added] and
    [uncommitted] are empty unless [git status] lists the target file as
    modified, not added or created; in any case no message id is in two of
    the three parts of the result, and no id of the current ledger of
    deleted messages is in [added] or [uncommitted]. *)
Theorem later_touches_file_sections res m :
  TouchesFileLater.getGitHistoryThatTouchesFile JSON_parse isStashedState context
    env targetFilePath = TouchesFileLater.Returned res ->
  (exists status,
      TouchesFileLater.gitStatus env = Some status
      /\ (TouchesFileLater.targetModified targetFilePath status = false ->
          GaitContext.uncommittedPanelChats (GaitContext.added res) = []
          /\ GaitContext.uncommittedPanelChats (GaitContext.uncommitted res) = []))
  /\ (m ∈ attributedIds (GaitContext.commits res) ->
      (m ∉ messageIds (GaitContext.uncommittedPanelChats (GaitContext.added res)))
      /\ m ∉ messageIds
               (GaitContext.uncommittedPanelChats (GaitContext.uncommitted res)))
  /\ (m ∈ messageIds (GaitContext.uncommittedPanelChats (GaitContext.added res)) ->
      m ∉ messageIds
            (GaitContext.uncommittedPanelChats (GaitContext.uncommitted res)))
  /\ (m ∈ deletedMessageIdSet
            (TouchesFileLater.parsedCurrent isStashedState context) ->
      (m ∉ messageIds (GaitContext.uncommittedPanelChats (GaitContext.added res)))
      /\ m ∉ messageIds
               (GaitContext.uncommittedPanelChats (GaitContext.uncommitted res))).
Proof.
  intros (logData & status & stored & _ & Hstatus & Hcommits & Hclean & Hmod)
    %later_touches_Returned.
  cbv zeta in Hcommits, Hmod. split; [by exists status|].
  destruct (TouchesFileLater.targetModified targetFilePath status) eqn:E.
  - destruct (Hmod eq_refl) as [-> ->]. rewrite Hcommits.
    eapply sections_disjoint_parts, md_walk_inv.
  - destruct (Hclean eq_refl) as [-> ->].
    split; [intros _; split; intros H0; by apply elem_of_nil in H0|].
    split; [intros H0; by apply elem_of_nil in H0|].
    intros _; split; intros H0; by apply elem_of_nil in H0.
Qed.

End later_touches_facts.

Section later_touches_examples.
Import JsString Types PanelGit WalkSpec StashedStateStore CommitRecordSpec
  HistoryExamples TouchesExamples LaterTouchesExamples.

(** On the example history only commit h2 lists the target file: it is
    returned with both messages of chat A, and the chat that is not yet
    stashed is reported as uncommitted. *)
Example later_touches_example :
  (fun outcome =>
     match outcome with
     | TouchesFileLater.Returned r =>
         Some (map (fun cd => (commitHash cd, messageIds (commitPanelChats cd)))
                 (GaitContext.commits r),
               messageIds (GaitContext.uncommittedPanelChats (GaitContext.added r)),
               messageIds
                 (GaitContext.uncommittedPanelChats (GaitContext.uncommitted r)))
     | TouchesFileLater.Thrown _ => None
     end)
    (TouchesFileLater.getGitHistoryThatTouchesFile exampleParse exampleValid
       unstashedContext laterTouchesEnv "src/app.ts")
  = Some ([("h2", ["m1"; "m2"])], [], ["m4"]).
Proof. vm_compute. reflexivity. Qed.

Lemma later_touches_file_commits_witness :
  exists res,
    TouchesFileLater.getGitHistoryThatTouchesFile exampleParse exampleValid
      unstashedContext laterTouchesEnv "src/app.ts"
    = TouchesFileLater.Returned res
    /\ NoDup (attributedIds (GaitContext.commits res))
    /\ NoDup (map commitHash (GaitContext.commits res))
    /\ (forall m, m ∈ attributedIds (GaitContext.commits res) ->
          m ∈ (collectCurrentIds
                 (TouchesFileLater.parsedCurrent exampleValid unstashedContext)).2)
    /\ exists logData,
         GaitContext.gitLog (TouchesFileLater.history laterTouchesEnv)
         = Some logData
         /\ forall cd, cd ∈ GaitContext.commits res ->
              (exists line,
                  line ∈ logLinesOf logData
                  /\ TouchesFileLater.keptLine laterTouchesEnv "src/app.ts" line
                     = true
                  /\ GaitContext.snapshotAt exampleParse exampleValid
                       (TouchesFileLater.history laterTouchesEnv) line <> None
                  /\ recordedFrom line cd)
              /\ (forall pc, pc ∈ commitPanelChats cd ->
                    (0 < List.length (messages pc))%nat)
              /\ (forall ic, ic ∈ commitInlineChats cd ->
                    inline_chat_id ic
                    ∈ (collectCurrentIds
                         (TouchesFileLater.parsedCurrent exampleValid
                            unstashedContext)).1).
Proof.
  eexists.
  assert (Hres : TouchesFileLater.getGitHistoryThatTouchesFile exampleParse
                   exampleValid unstashedContext laterTouchesEnv "src/app.ts"
                 = TouchesFileLater.Returned _) by (vm_compute; reflexivity).
  split; [exact Hres|].
  exact (later_touches_file_commits exampleParse exampleValid unstashedContext
           laterTouchesEnv "src/app.ts" _ Hres).
Defined.

Lemma later_touches_file_sections_witness :
  exists res,
    TouchesFileLater.getGitHistoryThatTouchesFile exampleParse exampleValid
      unstashedContext laterTouchesEnv "src/app.ts"
    = TouchesFileLater.Returned res
    /\ "m1" ∈ attributedIds (GaitContext.commits res)
    /\ ("m1" ∉ messageIds
                 (GaitContext.uncommittedPanelChats (GaitContext.added res)))
    /\ "m1" ∉ messageIds
                (GaitContext.uncommittedPanelChats (GaitContext.uncommitted res)).
Proof.
  eexists.
  assert (Hres : TouchesFileLater.getGitHistoryThatTouchesFile exampleParse
                   exampleValid unstashedContext laterTouchesEnv "src/app.ts"
                 = TouchesFileLater.Returned _) by (vm_compute; reflexivity).
  split; [exact Hres|].
  lazymatch type of Hres with
  | _ = TouchesFileLater.Returned ?r =>
      assert (Hin : "m1" ∈ attributedIds (GaitContext.commits r))
        by (apply (bool_decide_unpack _); vm_compute; exact I);
      split; [exact Hin|];
      exact (proj1 (proj2 (later_touches_file_sections exampleParse exampleValid
                             unstashedContext laterTouchesEnv "src/app.ts" r "m1"
                             Hres)) Hin)
  end.
Defined.

End later_touches_examples.
